(** * The sandbox child runtime [pythonChild.py]

    A shallow embedding of [services/catalog/src/jobs/sandbox/pythonChild.py]
    and the properties of its path resolver, file-system guard, result
    sanitiser, request table and handler lifecycle.

    Python values are an inductive type and dictionaries are insertion-ordered
    association lists.  Paths are POSIX paths.  What the interpreter and the
    operating system decide ([os.path.realpath], the environment, the module
    loader, the handler itself) is a parameter of the functions that depend
    on it, and the calls they make are recorded in a trace.  The module
    globals and the futures of the event loop form an explicit state. *)

From Stdlib Require Import ZArith Floats DecimalString DecimalFacts DecimalN.
From stdpp Require Import base option list strings gmap.

#[local] Set Warnings "-register-all".

Local Open Scope string_scope.
Local Open Scope list_scope.

(** ** Python values *)

(** Dictionary keys. A key is a [str], an [int], a [bool], [None], or some
    other hashable object (a tuple, a frozenset, [bytes], ...) that the JSON
    encoder refuses as a key.  Float keys are outside the model. *)
Inductive pykey : Type :=
  | KStr (s : string)
  | KInt (n : Z)
  | KBool (b : bool)
  | KNone
  | KOther (id : nat).

(** Values reachable by the runtime.  [PObj id] is any other object, known
    by its identity only; a dictionary keeps its items in insertion order.
    Values are finite trees: a structure that contains itself, or one
    nested deeper than the interpreter's recursion limit, is outside the
    model. *)
Inductive pyval : Type :=
  | PNone
  | PBool (b : bool)
  | PInt (n : Z)
  | PFloat (f : float)
  | PStr (s : string)
  | PBytes (b : string)
  | PList (l : list pyval)
  | PTuple (l : list pyval)
  | PDict (d : list (pykey * pyval))
  | PObj (id : nat).

(** [UNSUPPORTED = object()]: a module-level sentinel, compared with [is]. *)
Definition UNSUPPORTED : pyval := PObj 0.

Definition is_unsupported (v : pyval) : bool :=
  match v with
  | PObj 0 => true
  | _ => false
  end.

(** Induction over values that reaches inside lists and dictionaries. *)
Section pyval_induction.
Variable P : pyval -> Prop.
Hypothesis HNone : P PNone.
Hypothesis HBool : forall b, P (PBool b).
Hypothesis HInt : forall n, P (PInt n).
Hypothesis HFloat : forall f, P (PFloat f).
Hypothesis HStr : forall s, P (PStr s).
Hypothesis HBytes : forall b, P (PBytes b).
Hypothesis HList : forall l, Forall P l -> P (PList l).
Hypothesis HTuple : forall l, Forall P l -> P (PTuple l).
Hypothesis HDict : forall d, Forall (fun kv => P (snd kv)) d -> P (PDict d).
Hypothesis HObj : forall id, P (PObj id).

Fixpoint pyval_ind_nested (v : pyval) : P v :=
  match v with
  | PNone => HNone
  | PBool b => HBool b
  | PInt n => HInt n
  | PFloat f => HFloat f
  | PStr s => HStr s
  | PBytes b => HBytes b
  | PList l =>
      HList l ((fix go (l : list pyval) : Forall P l :=
                  match l with
                  | [] => List.Forall_nil P
                  | x :: r => List.Forall_cons _ x r (pyval_ind_nested x) (go r)
                  end) l)
  | PTuple l =>
      HTuple l ((fix go (l : list pyval) : Forall P l :=
                   match l with
                   | [] => List.Forall_nil P
                   | x :: r => List.Forall_cons _ x r (pyval_ind_nested x) (go r)
                   end) l)
  | PDict d =>
      HDict d ((fix go (d : list (pykey * pyval))
                  : Forall (fun kv => P (snd kv)) d :=
                  match d with
                  | [] => List.Forall_nil _
                  | kv :: r =>
                      List.Forall_cons _ kv r
                        (pyval_ind_nested (snd kv)) (go r)
                  end) d)
  | PObj id => HObj id
  end.
End pyval_induction.

(** ** Dictionaries with string keys

    [d[k] = v] for a [str] key: an existing entry keeps its position and
    its key object, a new one goes to the end. *)
Definition key_is (k : string) (k' : pykey) : bool :=
  match k' with
  | KStr s => String.eqb k s
  | _ => false
  end.

Fixpoint dict_set {V} (k : string) (v : V) (d : list (pykey * V))
  : list (pykey * V) :=
  match d with
  | [] => [(KStr k, v)]
  | (k', v') :: r =>
      if key_is k k' then (k', v) :: r else (k', v') :: dict_set k v r
  end.

(** [d.get(k)] *)
Fixpoint dict_get {V} (k : string) (d : list (pykey * V)) : option V :=
  match d with
  | [] => None
  | (k', v') :: r => if key_is k k' then Some v' else dict_get k r
  end.

(** [k in d] *)
Definition dict_has {V} (k : string) (d : list (pykey * V)) : bool :=
  match dict_get k d with
  | Some _ => true
  | None => false
  end.

(** ** to_json_value (lines 63-89) *)
Fixpoint to_json_value (value : pyval) : pyval :=
  match value with
  | PNone => PNone
  | PStr _ | PBool _ => value
  | PInt _ => value
  | PFloat f => if is_finite f then value else UNSUPPORTED
  | PList l | PTuple l =>
      PList (fold_left
               (fun result entry =>
                  let converted := to_json_value entry in
                  if is_unsupported converted then result
                  else result ++ [converted])
               l [])
  | PDict d =>
      PDict (fold_left
               (fun result kv =>
                  match fst kv with
                  | KStr key =>
                      let converted := to_json_value (snd kv) in
                      if is_unsupported converted then result
                      else dict_set key converted result
                  | _ => result
                  end)
               d [])
  | PBytes _ | PObj _ => UNSUPPORTED
  end.

(** ** The restricted JSON domain (spec 4.7) *)


Definition key_is_str (k : pykey) : bool :=
  match k with
  | KStr _ => true
  | _ => false
  end.


(** No string key occurs twice. *)
Fixpoint dict_uniq {V} (d : list (pykey * V)) : bool :=
  match d with
  | [] => true
  | (k, _) :: r =>
      negb (match k with KStr s => dict_has s r | _ => false end)
      && dict_uniq r
  end.

(** Values the JSON decoder can produce: scalars, finite floats, lists, and
    dictionaries with pairwise distinct string keys. *)
Fixpoint json_value (v : pyval) : bool :=
  match v with
  | PNone | PBool _ | PInt _ | PStr _ => true
  | PFloat f => is_finite f
  | PList l => forallb json_value l
  | PDict d =>
      forallb (fun kv => key_is_str (fst kv) && json_value (snd kv)) d
      && dict_uniq d
  | PTuple _ | PBytes _ | PObj _ => false
  end.

(** ** Exceptions *)

Inductive pyexn : Type :=
  | PermissionError (msg : string)
  | RuntimeError (msg : pyval)
  | TypeError (msg : string)
  | RecursionError.

(** ** Truth value and [or] *)

Definition truthy (v : pyval) : bool :=
  match v with
  | PNone => false
  | PBool b => b
  | PInt n => negb (n =? 0)%Z
  | PFloat f => negb (is_zero f)
  | PStr s | PBytes s => negb (String.eqb s EmptyString)
  | PList l | PTuple l => negb (Nat.eqb (length l) 0)
  | PDict d => negb (Nat.eqb (length d) 0)
  | PObj _ => true
  end.

(** [a or b] *)
Definition py_or (a b : pyval) : pyval := if truthy a then a else b.

(** [isinstance(v, str) and v == s] *)
Definition py_eq_str (v : pyval) (s : string) : bool :=
  match v with
  | PStr s' => String.eqb s' s
  | _ => false
  end.

(** ** sanitize_for_ipc (lines 92-98): a JSON encode/decode round trip *)

(** [sys.get_int_max_str_digits()], at its default.  Writing an [int] as
    decimal text raises [ValueError] when it has more digits than this, and
    so the encoder raises on such an [int], be it a value or a key. *)
Definition int_max_str_digits : nat := 4300.

(** Does [str(n)] return?  The digits of [abs(n)] are counted. *)
Definition int_fits (n : Z) : bool :=
  Nat.leb (Decimal.nb_digits (N.to_uint (Z.abs_N n))) int_max_str_digits.

(** The spelling the encoder gives a dictionary key; [None] when it raises:
    [TypeError] on a key it has no spelling for ([skipkeys] is off),
    [ValueError] on an [int] that is too long. *)
Definition json_key (k : pykey) : option string :=
  match k with
  | KStr s => Some s
  | KBool true => Some "true"
  | KBool false => Some "false"
  | KNone => Some "null"
  | KInt n =>
      if int_fits n then Some (NilEmpty.string_of_int (Z.to_int n)) else None
  | KOther _ => None
  end.

(** [json.loads(json.dumps(v, ensure_ascii=False))].  Scalars come back as
    they are (non-finite floats too: [allow_nan] is on by default), tuples
    come back as lists, keys come back as strings and a later item replaces
    an earlier one of the same spelling; [None] when the encoder raises,
    which it does on [bytes], on other objects, on keys it cannot spell and
    on an [int] that is too long to be written. *)
Fixpoint json_roundtrip (v : pyval) : option pyval :=
  match v with
  | PNone | PBool _ | PFloat _ | PStr _ => Some v
  | PInt n => if int_fits n then Some v else None
  | PList l | PTuple l =>
      option_map PList
        (fold_right
           (fun entry acc =>
              match json_roundtrip entry, acc with
              | Some e, Some r => Some (e :: r)
              | _, _ => None
              end)
           (Some []) l)
  | PDict d =>
      option_map PDict
        (fold_left
           (fun acc kv =>
              match acc, json_key (fst kv), json_roundtrip (snd kv) with
              | Some r, Some k, Some e => Some (dict_set k e r)
              | _, _, _ => None
              end)
           d (Some []))
  | PBytes _ | PObj _ => None
  end.

(** Every [int] inside the value, be it a value or a key, can be written
    as text. *)
Definition key_fits (k : pykey) : bool :=
  match k with
  | KInt n => int_fits n
  | _ => true
  end.

Fixpoint ints_fit (v : pyval) : bool :=
  match v with
  | PInt n => int_fits n
  | PList l | PTuple l => forallb ints_fit l
  | PDict d => forallb (fun kv => key_fits (fst kv) && ints_fit (snd kv)) d
  | _ => true
  end.

(** The number written as 1 followed by 4300 zeros: the least [int] that
    is too long. *)
Definition too_long_int : Z :=
  Z.of_N (N.of_uint
            (Decimal.D1 (Nat.iter int_max_str_digits Decimal.D0 Decimal.Nil))).

(** The message of the raised [RuntimeError] is the text below followed by
    the encoder's own error text, which is left out. *)
Definition serialize_failure : pyexn :=
  RuntimeError (PStr "Failed to serialize sandbox payload").

Definition sanitize_for_ipc (value : pyval) : pyexn + pyval :=
  match json_roundtrip value with
  | Some r => inr r
  | None => inl serialize_failure
  end.

(** ** normalize_updates (lines 439-457) *)

(** [updates.get(k)] on a dictionary of values: [None] when absent. *)
Definition py_get (k : string) (d : list (pykey * pyval)) : pyval :=
  match dict_get k d with
  | Some v => v
  | None => PNone
  end.

Definition normalize_updates (updates : list (pykey * pyval))
  : list (pykey * pyval) :=
  let result := [] in
  let result :=
    if dict_has "parameters" updates then
      let converted := to_json_value (py_get "parameters" updates) in
      if is_unsupported converted then result
      else dict_set "parameters" converted result
    else result in
  let result :=
    if dict_has "logsUrl" updates then
      dict_set "logsUrl" (py_get "logsUrl" updates) result
    else result in
  let result :=
    if dict_has "metrics" updates then
      let converted := to_json_value (py_get "metrics" updates) in
      if is_unsupported converted then result
      else dict_set "metrics" converted result
    else result in
  let result :=
    if dict_has "context" updates then
      let converted := to_json_value (py_get "context" updates) in
      if is_unsupported converted then result
      else dict_set "context" converted result
    else result in
  let result :=
    if dict_has "timeoutMs" updates then
      dict_set "timeoutMs" (py_get "timeoutMs" updates) result
    else result in
  result.

(** ** Loaded modules and the objects they export *)

(** An attribute of the entry module: an object, callable or not. *)
Record pyattr : Type := { attr_id : nat; attr_callable : bool }.

(** The entry module: its attributes ([hasattr], [getattr]) and whether the
    module object is itself callable. *)
Record pymodule : Type := {
  mod_attrs : list (string * pyattr);
  mod_callable : bool;
}.

(** The value of the local [handler] of [execute_start]. *)
Inductive handler_ref : Type :=
  | HNone
  | HAttr (a : pyattr)
  | HModule (m : pymodule).

(** ** The operating system as seen by the runtime *)

(** Calls that reach the file system or the loaded bundle, in the order in
    which they are made. *)
Inductive oscall : Type :=
  | OsGetcwd
  | OsRealpath (p : string)
  | OsRealpathBytes (p : string)
  | OsChdir (d : string)
  | OsPutenv (name : string) (value : pyval)
  | OsUnsetenv (name : string)
  | OsOriginal (module_name name : string)
      (args : list pyval) (kwargs : list (string * pyval))
  | OsInstallDependencies (bundle_dir : string)
  | OsExecModule (entry_file : string)
  | OsCallHandler (handler : handler_ref).

(** What the process finds around it: the answers of [os.path.realpath]
    (which follows symbolic links), of [os.path.relpath], the working
    directory, the environment, the original primitives behind the
    guards, and what [__fspath__] gives for an object that is neither a
    [str] nor [bytes]. *)
Record os_world : Type := {
  os_realpath : string -> string;
  (* [os.fspath(obj)] on another object: what [__fspath__] returns, or the
     error raised when there is none or when it raises *)
  os_fspath : nat -> pyexn + pyval;
  os_relpath : string -> string -> string;
  os_getcwd : string;
  os_environ : string -> option string;
  os_original : string -> string -> list pyval -> list (string * pyval)
                -> pyexn + pyval;
  (* [os.chdir(d)]: the error it raises, if any *)
  os_chdir : string -> option pyexn;
  (* [ensure_python_dependencies(d)]: the text of the error it raises *)
  os_install_dependencies : string -> option string;
  (* [spec_from_file_location]: is there a spec with a loader? *)
  os_module_spec : string -> bool;
  (* [spec.loader.exec_module]: the module, or the text of the error *)
  os_exec_module : string -> string + pymodule;
}.

(** A computation that makes calls and then returns or raises. *)
Definition Os (A : Type) : Type := list oscall * (pyexn + A).

#[global] Instance Os_ret : MRet Os := fun A x => ([], inr x).

#[global] Instance Os_bind : MBind Os := fun A B f m =>
  match m with
  | (t, inl e) => (t, inl e)
  | (t, inr x) => let '(t', r) := f x in (t ++ t', r)
  end.

Definition raise {A} (e : pyexn) : Os A := ([], inl e).

Definition called {A} (c : oscall) (x : A) : Os A := ([c], inr x).

Definition trace {A} (m : Os A) : list oscall := fst m.
Definition outcome {A} (m : Os A) : pyexn + A := snd m.

(** [os.path.realpath(p)] while [os.lstat] does not resolve paths itself:
    before the guards are installed, and under the guards without [fs],
    where the rebound [os.lstat] raises the permission error, an [OSError]
    that [realpath] takes for a component that is no link. *)
Definition realpath (w : os_world) (p : string) : Os string :=
  called (OsRealpath p) (os_realpath w p).

(** [os.path.realpath(b)] on [bytes]; what it returns is not used. *)
Definition realpath_bytes (b : string) : Os unit :=
  called (OsRealpathBytes b) tt.

Definition getcwd (w : os_world) : Os string :=
  called OsGetcwd (os_getcwd w).

(** ** posixpath helpers that depend on their arguments only *)

Definition sep : string := "/".

(** [os.path.isabs] *)
Definition isabs (p : string) : bool := String.prefix sep p.

Fixpoint ends_with_sep (p : string) : bool :=
  match p with
  | EmptyString => false
  | String c EmptyString => Ascii.eqb c (Ascii.ascii_of_nat 47)
  | String _ r => ends_with_sep r
  end.

(** [os.path.join(a, b)] *)
Definition path_join (a b : string) : string :=
  if String.prefix sep b then b
  else if String.eqb a EmptyString || ends_with_sep a then a +:+ b
  else a +:+ sep +:+ b.

(** [p.split("/")] *)
Fixpoint split_sep (p : string) : list string :=
  match p with
  | EmptyString => [EmptyString]
  | String c r =>
      if Ascii.eqb c (Ascii.ascii_of_nat 47) then EmptyString :: split_sep r
      else
        match split_sep r with
        | name :: rest => String c name :: rest
        | [] => [String c EmptyString]
        end
  end.

(** Does [os.path.realpath(p)] call [os.lstat]?  It walks the components
    of [p], skips the empty ones and [.], steps back at [..], and calls
    [os.lstat] on the path up to the first component that is a name. *)
Definition is_name (component : string) : bool :=
  negb (String.eqb component EmptyString || String.eqb component "."
        || String.eqb component "..").

Definition reaches_lstat (p : string) : bool := existsb is_name (split_sep p).

(** [os.path.realpath] once the guards are installed with [fs] granted.
    [realpath] looks [os.lstat] up when it is called, and [os.lstat] is then
    the [wrapper] of line 160, which resolves its argument with
    [normalize_path_argument] before it calls the original: that calls
    [realpath] on a path with a name in it again, which calls the wrapper
    again, and so on until the interpreter raises [RecursionError].
    [realpath] catches [OSError] only, so the error leaves every call on
    the way.  The trace lists the call that starts the recursion, not the
    calls inside it.  A path without a name ([/], [..]) needs no [lstat]
    and is answered as before. *)
Definition guarded_realpath (w : os_world) (p : string) : Os string :=
  if reaches_lstat p then ([OsRealpath p], inl RecursionError)
  else realpath w p.

Definition guarded_realpath_bytes (b : string) : Os unit :=
  if reaches_lstat b then ([OsRealpathBytes b], inl RecursionError)
  else realpath_bytes b.

(** ** ensure_within_bundle (lines 101-116) *)

Definition HOST_ROOT_PREFIX_ENV : string := "APPHUB_SANDBOX_HOST_ROOT_PREFIX".

(** [candidate == root or candidate.startswith(root + os.sep)] *)
Definition within (root candidate : string) : bool :=
  String.eqb candidate root || String.prefix (root +:+ sep) candidate.

Definition outside_bundle : pyexn :=
  PermissionError "Attempted to access path outside of bundle directory".

(** The body of the function, with [os.path.realpath] as it behaves at the
    time of the call. *)
Definition ensure_within_bundle_with (os_path_realpath : string -> Os string)
    (w : os_world) (bundle_dir candidate : string) : Os string :=
  normalized_root ← os_path_realpath bundle_dir;
  normalized_candidate ← os_path_realpath candidate;
  if within normalized_root normalized_candidate then mret normalized_candidate
  else
    match os_environ w HOST_ROOT_PREFIX_ENV with
    | Some host_root_raw =>
        if negb (String.eqb host_root_raw EmptyString) then
          host_root ← os_path_realpath host_root_raw;
          if within host_root normalized_candidate then
            mret normalized_candidate
          else
            let relative_from_root := os_relpath w normalized_candidate sep in
            translated ← os_path_realpath
                           (path_join host_root relative_from_root);
            if within host_root translated then mret translated
            else raise outside_bundle
        else raise outside_bundle
    | None => raise outside_bundle
    end.

(** The call of line 547, before the guards are installed. *)
Definition ensure_within_bundle (w : os_world) (bundle_dir candidate : string)
  : Os string :=
  ensure_within_bundle_with (realpath w) w bundle_dir candidate.

(** ** normalize_path_argument (lines 122-133) *)

(** The double quote character, for messages that quote a word. *)
Definition dquote : string := String (Ascii.ascii_of_nat 34) EmptyString.

Definition fs_denied : pyexn :=
  PermissionError
    ("File system access requires declaring the " +:+ dquote +:+ "fs"
     +:+ dquote +:+ " capability").

(** [isinstance(value, int)]: a [bool] is an [int]. *)
Definition is_int (value : pyval) : bool :=
  match value with
  | PInt _ | PBool _ => true
  | _ => false
  end.

(** [os.fspath(value)] for a value that is not an [int]: a [str] or
    [bytes] as it is, what [__fspath__] returns for another object when
    that is a [str] or [bytes], and [TypeError] for anything else. *)
Definition fspath (w : os_world) (value : pyval) : pyexn + pyval :=
  match value with
  | PStr _ | PBytes _ => inr value
  | PObj id =>
      match os_fspath w id with
      | inr (PStr path_str) => inr (PStr path_str)
      | inr (PBytes b) => inr (PBytes b)
      | inr _ => inl (TypeError "expected __fspath__() to return str or bytes")
      | inl e => inl e
      end
  | _ => inl (TypeError "expected str, bytes or os.PathLike object")
  end.

(** A [bytes] path never gets through: joining it to the working directory
    (a [str]) raises in [os.path.join], and an absolute one is resolved and
    then compared with the [str] root by [startswith], which raises. *)
Definition normalize_bytes_path (w : os_world) (bundle_dir : string)
    (allow_fs : bool) (b : string) : Os pyval :=
  if isabs b then
    _ ← (if allow_fs then guarded_realpath w else realpath w) bundle_dir;
    _ ← (if allow_fs then guarded_realpath_bytes else realpath_bytes) b;
    raise (TypeError
             "startswith first arg must be bytes or a tuple of bytes, not str")
  else
    _ ← getcwd w;
    raise (TypeError "Can't mix strings and bytes in path components").

(** The function is called by [guarded_open] and by the wrappers only, so
    after the guards are installed, and [allow_fs] is the [allow_fs] of
    [setup_filesystem_guards] at every call: the wrappers pass [True] and
    are past their own test of it.  It tells which [os.lstat] the calls of
    [os.path.realpath] meet. *)
Definition normalize_path_argument (w : os_world) (bundle_dir : string)
    (allow_fs : bool) (value : pyval) : Os pyval :=
  let os_path_realpath :=
    if allow_fs then guarded_realpath w else realpath w in
  if is_int value then
    if negb allow_fs then raise fs_denied else mret value
  else
    match fspath w value with
    | inr (PStr path_str) =>
        if isabs path_str then
          normalized ← ensure_within_bundle_with os_path_realpath w bundle_dir
                         path_str;
          mret (PStr normalized)
        else
          cwd ← getcwd w;
          absolute ← os_path_realpath (path_join cwd path_str);
          normalized ← ensure_within_bundle_with os_path_realpath w bundle_dir
                         absolute;
          mret (PStr normalized)
    | inr (PBytes b) => normalize_bytes_path w bundle_dir allow_fs b
    | inr _ => raise (TypeError "expected str, bytes or os.PathLike object")
    | inl e => raise e
    end.

(** ** setup_filesystem_guards (lines 136-211) *)

(** [allow_fs = "fs" in capabilities] *)
Definition has_capability (name : string) (capabilities : list pyval) : bool :=
  existsb (fun c => py_eq_str c name) capabilities.

Definition original (w : os_world) (module_name name : string)
    (args : list pyval) (kwargs : list (string * pyval)) : Os pyval :=
  (([OsOriginal module_name name args kwargs],
    os_original w module_name name args kwargs) : Os pyval).

(** The replacement of [builtins.open]. *)
Definition guarded_open (w : os_world) (bundle_dir : string) (allow_fs : bool)
    (file : pyval) (args : list pyval) (kwargs : list (string * pyval))
  : Os pyval :=
  if is_int file then
    if negb allow_fs then raise fs_denied
    else original w "builtins" "open" (file :: args) kwargs
  else
    path ← normalize_path_argument w bundle_dir allow_fs file;
    if negb allow_fs then raise fs_denied
    else original w "builtins" "open" (path :: args) kwargs.

(** [for index in indexes: if 0 <= index < len(new_args): ...]; the indexes
    of the tables below are 0 and 1. *)
Fixpoint normalize_positional (w : os_world) (bundle_dir : string)
    (indexes : list nat) (new_args : list pyval) : Os (list pyval) :=
  match indexes with
  | [] => mret new_args
  | index :: rest =>
      match new_args !! index with
      | Some value =>
          normalized ← normalize_path_argument w bundle_dir true value;
          normalize_positional w bundle_dir rest (<[index := normalized]> new_args)
      | None => normalize_positional w bundle_dir rest new_args
      end
  end.

Fixpoint kwargs_get (key : string) (kwargs : list (string * pyval))
  : option pyval :=
  match kwargs with
  | [] => None
  | (k, v) :: r => if String.eqb key k then Some v else kwargs_get key r
  end.

Fixpoint kwargs_set (key : string) (v : pyval) (kwargs : list (string * pyval))
  : list (string * pyval) :=
  match kwargs with
  | [] => [(key, v)]
  | (k, v') :: r =>
      if String.eqb key k then (k, v) :: r else (k, v') :: kwargs_set key v r
  end.

Fixpoint normalize_keywords (w : os_world) (bundle_dir : string)
    (kw_names : list string) (kwargs : list (string * pyval))
  : Os (list (string * pyval)) :=
  match kw_names with
  | [] => mret kwargs
  | key :: rest =>
      match kwargs_get key kwargs with
      | Some value =>
          normalized ← normalize_path_argument w bundle_dir true value;
          normalize_keywords w bundle_dir rest (kwargs_set key normalized kwargs)
      | None => normalize_keywords w bundle_dir rest kwargs
      end
  end.

(** The [wrapper] closure that [wrap_function] installs over
    [module.name]. *)
Definition wrapper (w : os_world) (bundle_dir : string) (allow_fs : bool)
    (module_name name : string) (indexes : list nat)
    (kw_names : option (list string))
    (args : list pyval) (kwargs : list (string * pyval)) : Os pyval :=
  if negb allow_fs then raise fs_denied
  else
    new_args ← normalize_positional w bundle_dir indexes args;
    kwargs ← match kw_names with
             | Some names => normalize_keywords w bundle_dir names kwargs
             | None => mret kwargs
             end;
    original w module_name name new_args kwargs.

Definition path_methods : list (string * list nat) :=
  [("listdir", [0]); ("scandir", [0]); ("remove", [0]); ("unlink", [0]);
   ("rmdir", [0]); ("mkdir", [0]); ("makedirs", [0]); ("chdir", [0]);
   ("replace", [0; 1]); ("rename", [0; 1]); ("stat", [0]); ("lstat", [0]);
   ("readlink", [0]); ("symlink", [0; 1]); ("utime", [0]); ("chmod", [0]);
   ("chown", [0]); ("access", [0]); ("walk", [0])]%nat.

Definition shutil_methods : list (string * list nat) :=
  [("copy", [0; 1]); ("copy2", [0; 1]); ("copyfile", [0; 1]);
   ("move", [0; 1]); ("copytree", [0; 1]); ("rmtree", [0]);
   ("make_archive", [1])]%nat.

Fixpoint method_indexes (name : string) (table : list (string * list nat))
  : option (list nat) :=
  match table with
  | [] => None
  | (n, indexes) :: r =>
      if String.eqb name n then Some indexes else method_indexes name r
  end.

(** What a handler gets when it calls [os.name(...)] or [shutil.name(...)]
    once the guards are installed: the wrapper for a listed name, the
    original for any other. *)
Definition guarded_call (w : os_world) (bundle_dir : string) (allow_fs : bool)
    (module_name name : string)
    (args : list pyval) (kwargs : list (string * pyval)) : Os pyval :=
  let table :=
    if String.eqb module_name "os" then path_methods
    else if String.eqb module_name "shutil" then shutil_methods
    else [] in
  match method_indexes name table with
  | Some indexes =>
      wrapper w bundle_dir allow_fs module_name name indexes None args kwargs
  | None => original w module_name name args kwargs
  end.

(** ** Vocabulary of the statements about paths *)

(** [path] is [root] itself or lies below it: [root], a separator, and
    then anything. *)
Definition is_or_under (root path : string) : Prop :=
  path = root \/ exists rest, path = root +:+ sep +:+ rest.

(** A host root is configured when the variable is set and not empty. *)
Definition host_root_configured (w : os_world) (h : string) : Prop :=
  os_environ w HOST_ROOT_PREFIX_ENV = Some h /\ h <> EmptyString.

Definition no_host_root (w : os_world) : Prop :=
  os_environ w HOST_ROOT_PREFIX_ENV = None
  \/ os_environ w HOST_ROOT_PREFIX_ENV = Some EmptyString.

(** A small world for examples: no symbolic links and only normalised
    absolute paths, so that [realpath] is the identity and
    [relpath(p, "/")] strips the leading separator. *)
Definition strip_root (p : string) : string :=
  match p with
  | String c r => if Ascii.eqb c (Ascii.ascii_of_nat 47) then r else p
  | EmptyString => p
  end.

Definition plain_world (host_root : option string) : os_world := {|
  os_realpath := fun p => p;
  os_fspath := fun _ =>
    inl (TypeError "expected str, bytes or os.PathLike object");
  os_relpath := fun p _ => strip_root p;
  os_getcwd := "/work/b";
  os_environ := fun name =>
    if String.eqb name HOST_ROOT_PREFIX_ENV then host_root else None;
  os_original := fun _ _ _ _ => inr PNone;
  os_chdir := fun _ => None;
  os_install_dependencies := fun _ => None;
  os_module_spec := fun _ => true;
  os_exec_module := fun _ =>
    inr {| mod_attrs := [("handler", {| attr_id := 1; attr_callable := true |})];
           mod_callable := false |};
|}.

(** ** Futures, the pending-request table and the outbound stream *)

Inductive fut_state : Type :=
  | FPending
  | FResult (value : pyval)
  | FException (e : pyexn)
  | FCancelled.

(** The module globals of the child and the heap of futures.
    [pending_requests] maps a request id to the kind of the request and its
    future; the code looks entries up, adds and removes them, and visits them
    all, so the order of the entries is not kept.  [handler_task] is [current_handler_task]: [Some c] while the handler
    task exists, with [c] set once [cancel()] has been called on it.
    [handler_waiters] lists the futures the suspended handler task is
    waiting for, those that [cancel()] on the task cancels: the future the
    task awaits and, when that is a child task or a [gather], the futures
    below it; it is empty while the task runs.
    [stdout] lists the messages written so far, oldest first; each is
    one line in its JSON form. *)
Record rt_state : Type := {
  pending_requests : gmap string (string * nat);
  futures : gmap nat fut_state;
  cancel_reason : pyval;
  handler_task : option bool;
  handler_waiters : list nat;
  stdout : list pyval;
}.

Definition set_pending_requests (t : gmap string (string * nat)) (s : rt_state)
  : rt_state :=
  {| pending_requests := t; futures := futures s;
     cancel_reason := cancel_reason s; handler_task := handler_task s;
     handler_waiters := handler_waiters s; stdout := stdout s |}.

Definition set_futures (h : gmap nat fut_state) (s : rt_state) : rt_state :=
  {| pending_requests := pending_requests s; futures := h;
     cancel_reason := cancel_reason s; handler_task := handler_task s;
     handler_waiters := handler_waiters s; stdout := stdout s |}.

Definition set_cancel_reason (r : pyval) (s : rt_state) : rt_state :=
  {| pending_requests := pending_requests s; futures := futures s;
     cancel_reason := r; handler_task := handler_task s;
     handler_waiters := handler_waiters s; stdout := stdout s |}.

Definition set_handler_task (t : option bool) (s : rt_state) : rt_state :=
  {| pending_requests := pending_requests s; futures := futures s;
     cancel_reason := cancel_reason s; handler_task := t;
     handler_waiters := handler_waiters s; stdout := stdout s |}.

Definition set_handler_waiters (w : list nat) (s : rt_state) : rt_state :=
  {| pending_requests := pending_requests s; futures := futures s;
     cancel_reason := cancel_reason s; handler_task := handler_task s;
     handler_waiters := w; stdout := stdout s |}.

Definition initial_state : rt_state :=
  {| pending_requests := ∅; futures := ∅; cancel_reason := PNone;
     handler_task := None; handler_waiters := []; stdout := [] |}.

(** [send_message]: one more line on the outbound stream. *)
Definition send_message (message : pyval) (s : rt_state) : rt_state :=
  {| pending_requests := pending_requests s; futures := futures s;
     cancel_reason := cancel_reason s; handler_task := handler_task s;
     handler_waiters := handler_waiters s;
     stdout := stdout s ++ [message] |}.

(** A dictionary literal with string keys. *)
Definition obj (items : list (string * pyval)) : pyval :=
  PDict (map (fun kv => (KStr (fst kv), snd kv)) items).

(** [future.done()] *)
Definition done (future : nat) (s : rt_state) : bool :=
  match futures s !! future with
  | Some FPending | None => false
  | Some _ => true
  end.

(** [if not future.done(): future.set_result(value)] *)
Definition set_result_unless_done (future : nat) (value : pyval) (s : rt_state)
  : rt_state :=
  if done future s then s
  else set_futures (<[future := FResult value]> (futures s)) s.

(** [if not future.done(): future.set_exception(e)] *)
Definition set_exception_unless_done (future : nat) (e : pyexn) (s : rt_state)
  : rt_state :=
  if done future s then s
  else set_futures (<[future := FException e]> (futures s)) s.

(** [loop.create_future()]: a future nobody holds yet. *)
Definition create_future (s : rt_state) : nat * rt_state :=
  let future := fresh (dom (futures s)) in
  (future, set_futures (<[future := FPending]> (futures s)) s).

(** ** handle_parent_message (lines 485-519) *)

(** Can the value be hashed, as a dictionary lookup requires? *)
Fixpoint hashable (v : pyval) : bool :=
  match v with
  | PList _ | PDict _ => false
  | PTuple l => forallb hashable l
  | _ => true
  end.

(** Is the table empty? *)
Definition table_empty (s : rt_state) : bool :=
  Nat.eqb (size (pending_requests s)) 0.

(** [pending_requests.pop(request_id, None)].  On an empty dictionary
    [pop] returns the default at once, without hashing the key.  Otherwise
    a value that cannot be hashed makes the lookup raise; the keys of the
    table are strings, so only a string can be found. *)
Definition pop_pending (request_id : pyval) (s : rt_state)
  : pyexn + (option (string * nat) * rt_state) :=
  if table_empty s then inr (None, s)
  else if negb (hashable request_id) then inl (TypeError "unhashable type")
  else
    match request_id with
    | PStr rid =>
        match pending_requests s !! rid with
        | Some pending =>
            inr (Some pending,
                 set_pending_requests (delete rid (pending_requests s)) s)
        | None => inr (None, s)
        end
    | _ => inr (None, s)
    end.

(** [future.cancel()]: a pending future becomes cancelled, a future that
    is done stays as it is. *)
Definition cancel_future (future : nat) (s : rt_state) : rt_state :=
  match futures s !! future with
  | Some FPending => set_futures (<[future := FCancelled]> (futures s)) s
  | _ => s
  end.

(** [current_handler_task.cancel()]: the futures the task is waiting for
    are cancelled at once, and the task is marked; [CancelledError] reaches
    the handler when the task runs next.  The table is not touched: the
    ids of the cancelled futures stay in it. *)
Definition cancel_handler_task (s : rt_state) : rt_state :=
  set_handler_task (Some true)
    (fold_left (fun s future => cancel_future future s) (handler_waiters s) s).

(** The state after the message, and the exception that escapes, if any. *)
Definition handle_parent_message (message : list (pykey * pyval))
    (s : rt_state) : rt_state * option pyexn :=
  let msg_type := py_get "type" message in
  if py_eq_str msg_type "update-response" then
    let request_id := py_get "requestId" message in
    match pop_pending request_id s with
    | inl e => (s, Some e)
    | inr (None, s) => (s, None)
    | inr (Some (kind, future), s) =>
        if truthy (py_get "ok" message) then
          let value := if String.eqb kind "update" then py_get "run" message
                       else py_get "value" message in
          (set_result_unless_done future value s, None)
        else
          let error_message :=
            py_or (py_get "error" message) (PStr "Request failed") in
          (set_exception_unless_done future (RuntimeError error_message) s,
           None)
    end
  else if py_eq_str msg_type "resolve-secret-response" then
    let request_id := py_get "requestId" message in
    match pop_pending request_id s with
    | inl e => (s, Some e)
    | inr (None, s) => (s, None)
    | inr (Some (_kind, future), s) =>
        if truthy (py_get "ok" message) then
          let value := py_get "value" message in
          (set_result_unless_done future value s, None)
        else
          let error_message :=
            py_or (py_get "error" message) (PStr "Secret resolution failed") in
          (set_exception_unless_done future (RuntimeError error_message) s,
           None)
    end
  else if py_eq_str msg_type "cancel" then
    let s := set_cancel_reason (py_get "reason" message) s in
    match handler_task s with
    | Some _ => (cancel_handler_task s, None)
    | None => (s, None)
    end
  else (s, None).

(** ** JobContext.update and JobContext.resolveSecret up to their await
    (lines 406-413 and 421-428) *)

(** [request_id] stands for [str(uuid.uuid4())]. *)
Definition update_request (request_id : string)
    (updates : list (pykey * pyval)) (s : rt_state) : pyexn + rt_state :=
  let normalized_updates := normalize_updates updates in
  match sanitize_for_ipc (PDict normalized_updates) with
  | inl e => inl e
  | inr sanitized =>
      let '(future, s) := create_future s in
      let s := set_pending_requests
                 (<[request_id := ("update", future)]> (pending_requests s)) s in
      inr (send_message
             (obj [("type", PStr "update-request");
                   ("requestId", PStr request_id);
                   ("updates", sanitized)]) s)
  end.

(** When the reference cannot be serialised the exception leaves the new
    entry in the table: the table is written before the message is built. *)
Definition resolve_secret_request (request_id : string) (reference : pyval)
    (s : rt_state) : rt_state * option pyexn :=
  let '(future, s) := create_future s in
  let s := set_pending_requests
             (<[request_id := ("resolve-secret", future)]> (pending_requests s))
             s in
  match sanitize_for_ipc reference with
  | inl e => (s, Some e)
  | inr sanitized =>
      (send_message
         (obj [("type", PStr "resolve-secret-request");
               ("requestId", PStr request_id);
               ("reference", sanitized)]) s, None)
  end.

(** ** normalize_meta and the [log] closure (lines 369-386, 594-597) *)

(** When the metadata cannot be serialised a warning is written; its
    [error] field is the text of the exception. *)
Definition normalize_meta (task_id : pyval) (meta : pyval) (s : rt_state)
  : option (list (pykey * pyval)) * rt_state :=
  match meta with
  | PNone => (None, s)
  | _ =>
      match sanitize_for_ipc meta with
      | inr (PDict serialized) =>
          (Some (dict_set "sandboxTaskId" task_id serialized), s)
      | inr _ => (Some [(KStr "sandboxTaskId", task_id)], s)
      | inl _ =>
          (Some [(KStr "sandboxTaskId", task_id)],
           send_message
             (obj [("type", PStr "log");
                   ("level", PStr "warn");
                   ("message", PStr "Failed to serialize log metadata");
                   ("meta", obj [("sandboxTaskId", task_id);
                                 ("error",
                                  PStr "Failed to serialize sandbox payload")])])
             s)
      end
  end.

(** [d.setdefault(k, v)] *)
Definition dict_setdefault {V} (k : string) (v : V) (d : list (pykey * V))
  : list (pykey * V) :=
  if dict_has k d then d else dict_set k v d.

Definition log (task_id : pyval) (level message : string) (meta : pyval)
    (s : rt_state) : rt_state :=
  let '(normalized, s) := normalize_meta task_id meta s in
  let normalized :=
    match normalized with
    | Some d => d
    | None => [(KStr "sandboxTaskId", task_id)]
    end in
  let normalized := dict_setdefault "sandboxTaskId" task_id normalized in
  send_message
    (obj [("type", PStr "log"); ("level", PStr level);
          ("message", PStr message); ("meta", PDict normalized)]) s.

(** ** The end of execute_start (lines 600-632) *)

(** How the call of the handler, and the await of what it returned, ends. *)
Inductive handler_outcome : Type :=
  | Returned (result : pyval)
  | Cancelled
  | Raised (traceback : string).

(** [for ... in list(pending_requests.items()): if not future.done():
    future.set_exception(e)] followed by [pending_requests.clear()].  The
    order of the visits has no bearing on the state reached. *)
Definition fail_all (e : pyexn) (items : list (string * (string * nat)))
    (s : rt_state) : rt_state :=
  fold_left (fun s item => set_exception_unless_done (snd (snd item)) e s)
    items s.

Definition fail_pending (e : pyexn) (s : rt_state) : rt_state :=
  let s := fail_all e (map_to_list (pending_requests s)) s in
  set_pending_requests ∅ s.

(** The [except asyncio.CancelledError] branch. *)
Definition on_cancelled (s : rt_state) : rt_state :=
  let message := py_or (cancel_reason s) (PStr "Sandbox execution cancelled") in
  let s := fail_pending (RuntimeError message) s in
  send_message
    (obj [("type", PStr "error"); ("error", obj [("message", message)])]) s.

(** The [except Exception] branch; [error] is [traceback.format_exc()]. *)
Definition on_exception (task_id : pyval) (error : string) (s : rt_state)
  : rt_state :=
  let message := "Handler threw error" in
  let s := log task_id "error" message (obj [("error", PStr error)]) s in
  let s := fail_pending (RuntimeError (PStr "Handler failed")) s in
  send_message
    (obj [("type", PStr "error");
          ("error", obj [("message", PStr message); ("stack", PStr error)])])
    s.

(** What is sent as [result] for a value the handler returned. *)
Definition result_payload (result : pyval) : pyexn + pyval :=
  let serialized :=
    to_json_value (match result with PNone => PDict [] | _ => result end) in
  let serialized :=
    if is_unsupported serialized then PDict [] else serialized in
  sanitize_for_ipc serialized.

(** [duration_ms] and [resource_usage] are what the clock and
    [collect_resource_usage()] give; [serialize_traceback] is the traceback
    of a failure of [sanitize_for_ipc] inside the [try]. *)
Definition finish_handler (task_id : pyval) (duration_ms : Z)
    (resource_usage : pyval) (serialize_traceback : string)
    (o : handler_outcome) (s : rt_state) : rt_state :=
  match o with
  | Returned result =>
      match result_payload result with
      | inr sanitized =>
          send_message
            (obj [("type", PStr "result"); ("result", sanitized);
                  ("durationMs", PInt duration_ms);
                  ("resourceUsage", resource_usage)]) s
      | inl _ => on_exception task_id serialize_traceback s
      end
  | Cancelled => on_cancelled s
  | Raised traceback => on_exception task_id traceback s
  end.



(** ** The start of execute_start (lines 541-590) *)

(** The [bundle] of a start payload.  [manifest_capabilities] is
    [bundle.get("manifest", {}).get("capabilities")] and [exportName] is
    [bundle.get("exportName")], both [None] when absent. *)
Record bundle : Type := {
  directory : string;
  entryFile : string;
  manifest_capabilities : pyval;
  exportName : pyval;
}.

(** The start payload; its [job] goes to the job context as it is. *)
Record start_payload : Type := {
  taskId : pyval;
  payload_bundle : bundle;
  workflowEventContext : pyval;
}.

Definition WORKFLOW_EVENT_CONTEXT_ENV : string := "APPHUB_WORKFLOW_EVENT_CONTEXT".

Fixpoint getattr (name : string) (attrs : list (string * pyattr))
  : option pyattr :=
  match attrs with
  | [] => None
  | (n, a) :: r => if String.eqb name n then Some a else getattr name r
  end.

(** [callable(handler)] *)
Definition callable (handler : handler_ref) : bool :=
  match handler with
  | HNone => false
  | HAttr a => attr_callable a
  | HModule m => mod_callable m
  end.

(** [hasattr(module, name) and callable(getattr(module, name))] *)
Definition callable_attr (name : string) (module : pymodule) : option pyattr :=
  match getattr name (mod_attrs module) with
  | Some a => if attr_callable a then Some a else None
  | None => None
  end.

(** The [elif] branches of the handler lookup: a callable [handler], the
    module if callable, a callable [default]. *)
Definition conventional_handler (module : pymodule) : handler_ref :=
  match callable_attr "handler" module with
  | Some a => HAttr a
  | None =>
      if mod_callable module then HModule module
      else match callable_attr "default" module with
           | Some d => HAttr d
           | None => HNone
           end
  end.

(** Lines 578-587.  [hasattr] raises on a name that is not a string. *)
Definition find_handler (export_name : pyval) (module : pymodule)
  : pyexn + handler_ref :=
  if truthy export_name then
    match export_name with
    | PStr name =>
        match getattr name (mod_attrs module) with
        | Some a => inr (HAttr a)
        | None => inr (conventional_handler module)
        end
    | _ => inl (TypeError "attribute name must be string")
    end
  else inr (conventional_handler module).

Definition no_callable_handler : pyexn :=
  RuntimeError (PStr "Bundle entry did not export a callable handler").

(** Lines 578-590. *)
Definition resolve_handler (export_name : pyval) (module : pymodule)
  : pyexn + handler_ref :=
  match find_handler export_name module with
  | inl e => inl e
  | inr handler =>
      if negb (callable handler) then inl no_callable_handler
      else inr handler
  end.

Definition lift {A} (r : pyexn + A) : Os A := ([], r).

(** Lines 549-555: the encoder fails exactly when the round trip does. *)
Definition publish_workflow_context (workflow_context : pyval) : Os unit :=
  match workflow_context with
  | PNone => mret tt
  | _ =>
      match json_roundtrip workflow_context with
      | Some _ => called (OsPutenv WORKFLOW_EVENT_CONTEXT_ENV workflow_context) tt
      | None => called (OsUnsetenv WORKFLOW_EVENT_CONTEXT_ENV) tt
      end
  end.

Definition chdir (w : os_world) (d : string) : Os unit :=
  (([OsChdir d],
    match os_chdir w d with
    | Some e => inl e
    | None => inr tt
    end) : Os unit).

(** Lines 558-560. *)
Definition declared_capabilities (b : bundle) : list pyval :=
  match py_or (manifest_capabilities b) (PList []) with
  | PList l => l
  | _ => []
  end.

(** Lines 564-567. *)
Definition install_dependencies (w : os_world) (bundle_dir : string) : Os unit :=
  (([OsInstallDependencies bundle_dir],
    match os_install_dependencies w bundle_dir with
    | Some err =>
        inl (RuntimeError
               (PStr ("Failed to install Python dependencies: " +:+ err)))
    | None => inr tt
    end) : Os unit).

(** Lines 569-576. *)
Definition load_entry (w : os_world) (entry_file : string) : Os pymodule :=
  if negb (os_module_spec w entry_file) then
    raise (RuntimeError (PStr "Failed to load bundle entry module"))
  else
    (([OsExecModule entry_file],
      match os_exec_module w entry_file with
      | inl err =>
          inl (RuntimeError (PStr ("Failed to load bundle entry: " +:+ err)))
      | inr module => inr module
      end) : Os pymodule).

(** Lines 543-576: everything up to the loaded entry module.  Installing
    the guards rebinds names and makes no call; what is kept of it is
    whether the file system is open to the handler. *)
Definition execute_start_load (w : os_world) (payload : start_payload)
  : Os (bool * pymodule) :=
  let bundle := payload_bundle payload in
  let bundle_dir := directory bundle in
  entry_file ← realpath w (entryFile bundle);
  _ ← ensure_within_bundle w bundle_dir entry_file;
  _ ← publish_workflow_context (workflowEventContext payload);
  _ ← chdir w bundle_dir;
  let capabilities := declared_capabilities bundle in
  let allow_fs := has_capability "fs" capabilities in
  _ ← install_dependencies w bundle_dir;
  module ← load_entry w entry_file;
  mret (allow_fs, module).

(** Everything before the handler is called: the task id, whether the file
    system is open to the handler, and the handler.  [uuid] stands for
    [str(uuid.uuid4())]. *)
Definition execute_start_setup (w : os_world) (uuid : string)
    (payload : start_payload) : Os (pyval * bool * handler_ref) :=
  let task_id := py_or (taskId payload) (PStr uuid) in
  loaded ← execute_start_load w payload;
  handler ← lift (resolve_handler (exportName (payload_bundle payload))
                    (snd loaded));
  mret (task_id, fst loaded, handler).

(** The handler as the runtime sees it: from the state in which it is
    called to the way it ends and the state in which it ends, together
    with the readings of the clock and of the resource counters. *)
Record handler_run : Type := {
  run_handler : handler_ref -> rt_state -> handler_outcome * rt_state;
  run_duration_ms : Z;
  run_resource_usage : pyval;
  run_serialize_traceback : string;
}.

(** [execute_start]: the calls made, the state reached, and the exception
    that escapes the task, if any. *)
Definition execute_start (w : os_world) (uuid : string) (h : handler_run)
    (payload : start_payload) (s : rt_state)
  : list oscall * (rt_state * option pyexn) :=
  match execute_start_setup w uuid payload with
  | (t, inl e) => (t, (s, Some e))
  | (t, inr (task_id, _, handler)) =>
      let '(o, s') := run_handler h handler s in
      (t ++ [OsCallHandler handler],
       (finish_handler task_id (run_duration_ms h) (run_resource_usage h)
          (run_serialize_traceback h) o s', None))
  end.

(** ** Vocabulary of the statements about traces *)

(** Is the call one to an original, unguarded primitive? *)
Definition calls_original (c : oscall) : bool :=
  match c with
  | OsOriginal _ _ _ _ => true
  | _ => false
  end.

(** Does the call load the entry module or call the handler? *)
Definition runs_bundle_code (c : oscall) : bool :=
  match c with
  | OsExecModule _ | OsCallHandler _ => true
  | _ => false
  end.

(** No call of the computation satisfies [P]. *)
Definition quiet {A} (P : oscall -> bool) (m : Os A) : Prop :=
  existsb P (trace m) = false.

(** Is the call the call of the handler? *)
Definition calls_handler (c : oscall) : bool :=
  match c with
  | OsCallHandler _ => true
  | _ => false
  end.

(** ** Vocabulary of the statements about messages *)




(** ** Vocabulary of the statements about updates *)

(** The keys whose values [normalize_updates] converts. *)
Definition converted_key (k : string) : bool :=
  String.eqb k "parameters" || String.eqb k "metrics" || String.eqb k "context".

(** The keys whose values [normalize_updates] copies. *)
Definition copied_key (k : string) : bool :=
  String.eqb k "logsUrl" || String.eqb k "timeoutMs".

(** One [if k in updates: ...] block of [normalize_updates] with
    conversion, and one without. *)
Definition convert_into (k : string) (updates result : list (pykey * pyval))
  : list (pykey * pyval) :=
  if dict_has k updates then
    let converted := to_json_value (py_get k updates) in
    if is_unsupported converted then result else dict_set k converted result
  else result.

Definition copy_into (k : string) (updates result : list (pykey * pyval))
  : list (pykey * pyval) :=
  if dict_has k updates then dict_set k (py_get k updates) result else result.


(** The update of scenario S4 of the specification. *)
Definition update_S4 : list (pykey * pyval) :=
  [(KStr "parameters", obj [("x", PInt 1)]);
   (KStr "logsUrl", PStr "http://x");
   (KStr "other", PStr "dropped")].

(** ** Worlds and payloads for examples *)

(** An entry module with a [main] that is not callable next to a callable
    [handler] and a callable [default]; the module is callable too. *)
Definition module_with_data_main : pymodule :=
  {| mod_attrs := [("main", {| attr_id := 1; attr_callable := false |});
                   ("handler", {| attr_id := 2; attr_callable := true |});
                   ("default", {| attr_id := 3; attr_callable := true |})];
     mod_callable := true |}.

Definition world_with_module (host_root : option string) (module : pymodule)
  : os_world :=
  {| os_realpath := os_realpath (plain_world host_root);
     os_fspath := os_fspath (plain_world host_root);
     os_relpath := os_relpath (plain_world host_root);
     os_getcwd := os_getcwd (plain_world host_root);
     os_environ := os_environ (plain_world host_root);
     os_original := os_original (plain_world host_root);
     os_chdir := os_chdir (plain_world host_root);
     os_install_dependencies := os_install_dependencies (plain_world host_root);
     os_module_spec := os_module_spec (plain_world host_root);
     os_exec_module := fun _ => inr module |}.

Definition payload_for (entry : string) (export_name : pyval) : start_payload :=
  {| taskId := PStr "task";
     payload_bundle := {| directory := "/work/b"; entryFile := entry;
                          manifest_capabilities := PNone;
                          exportName := export_name |};
     workflowEventContext := PNone |}.

(** A handler that returns [None] at once. *)
Definition returns_none : handler_run :=
  {| run_handler := fun _ s => (Returned PNone, s);
     run_duration_ms := 0;
     run_resource_usage := PNone;
     run_serialize_traceback := EmptyString |}.

(** ** Runs of the request protocol *)

(** What can happen to the table and the futures while the handler runs:
    the handler starts an update or a secret resolution, the handler task
    is suspended on some futures, the dispatcher handles a message of the
    parent, a pending future is cancelled from within the handler (the
    [await] on it is cancelled, as when [asyncio.wait_for] times out), or
    the handler ends. *)
Inductive rt_event : Type :=
  | EvUpdate (request_id : string) (updates : list (pykey * pyval))
  | EvResolveSecret (request_id : string) (reference : pyval)
  | EvHandlerAwaits (waiters : list nat)
  | EvParentMessage (message : list (pykey * pyval))
  | EvAwaitCancelled (future : nat)
  | EvHandlerEnds (task_id : pyval) (duration_ms : Z) (usage : pyval)
      (serialize_traceback : string) (o : handler_outcome).

Definition apply_event (ev : rt_event) (s : rt_state) : rt_state :=
  match ev with
  | EvUpdate rid updates =>
      match update_request rid updates s with
      | inr s' => s'
      | inl _ => s
      end
  | EvResolveSecret rid reference => fst (resolve_secret_request rid reference s)
  | EvHandlerAwaits waiters => set_handler_waiters waiters s
  | EvParentMessage message => fst (handle_parent_message message s)
  | EvAwaitCancelled future => cancel_future future s
  | EvHandlerEnds task_id duration_ms usage tb o =>
      set_handler_waiters []
        (finish_handler task_id duration_ms usage tb o s)
  end.

Definition run_events (evs : list rt_event) (s : rt_state) : rt_state :=
  fold_left (fun s ev => apply_event ev s) evs s.

(** The request ids drawn in a run. *)
Fixpoint issued_ids (evs : list rt_event) : list string :=
  match evs with
  | [] => []
  | EvUpdate rid _ :: r | EvResolveSecret rid _ :: r => rid :: issued_ids r
  | _ :: r => issued_ids r
  end.

(** Every future of the table exists, and no future is in the table under
    two ids. *)
Definition table_wf (s : rt_state) : Prop :=
  (forall rid kind f,
     pending_requests s !! rid = Some (kind, f) -> is_Some (futures s !! f))
  /\ (forall r1 r2 k1 k2 f,
        pending_requests s !! r1 = Some (k1, f) ->
        pending_requests s !! r2 = Some (k2, f) -> r1 = r2).

(** The request [rid] is in the table with the pending waiter [f]. *)
Definition registered (rid kind : string) (f : nat) (s : rt_state) : Prop :=
  pending_requests s !! rid = Some (kind, f)
  /\ futures s !! f = Some FPending.

(** Is the message a response to a request? *)
Definition is_response (message : list (pykey * pyval)) : bool :=
  py_eq_str (py_get "type" message) "update-response"
  || py_eq_str (py_get "type" message) "resolve-secret-response".

(** The waiter [f] of the request [rid] exists and, as long as it is
    pending, the request is in the table. *)
Definition tracked (rid kind : string) (f : nat) (s : rt_state) : Prop :=
  is_Some (futures s !! f)
  /\ (futures s !! f = Some FPending ->
      pending_requests s !! rid = Some (kind, f)).

(** What one event may do to the table and the futures: nothing; put a
    request in the table, under one of the ids [ids], with a new pending
    future; take a request out of the table and complete its future unless
    done; cancel pending futures and leave the table as it is; or fail what
    is pending in the table and empty the table. *)
Inductive effect (ids : list string) (s s' : rt_state) : Prop :=
  | effect_none :
      pending_requests s' = pending_requests s -> futures s' = futures s ->
      effect ids s s'
  | effect_register rid kind f :
      rid ∈ ids ->
      futures s !! f = None ->
      pending_requests s' = <[rid := (kind, f)]> (pending_requests s) ->
      futures s' = <[f := FPending]> (futures s) ->
      effect ids s s'
  | effect_respond rid kind f st :
      pending_requests s !! rid = Some (kind, f) ->
      pending_requests s' = delete rid (pending_requests s) ->
      st <> FPending ->
      futures s' = (if done f s then futures s else <[f := st]> (futures s)) ->
      effect ids s s'
  | effect_cancel :
      pending_requests s' = pending_requests s ->
      (forall f, futures s' !! f = futures s !! f
                 \/ (futures s !! f = Some FPending
                     /\ futures s' !! f = Some FCancelled)) ->
      effect ids s s'
  | effect_drain e :
      pending_requests s' = ∅ ->
      (forall rid kind f,
         pending_requests s !! rid = Some (kind, f) -> done f s = false ->
         futures s' !! f = Some (FException e)) ->
      (forall f, done f s = true -> futures s' !! f = futures s !! f) ->
      (forall f, (forall rid kind, pending_requests s !! rid <> Some (kind, f)) ->
                 futures s' !! f = futures s !! f) ->
      effect ids s s'.

(** The parent's answer to the update of scenario S4. *)
Definition response_S4 : list (pykey * pyval) :=
  [(KStr "type", PStr "update-response");
   (KStr "requestId", PStr "req-1");
   (KStr "ok", PBool true);
   (KStr "run", obj [("parameters", obj [("x", PInt 2)]);
                     ("status", PStr "ok")])].

(** The state after the update of scenario S4 is sent. *)
Definition updating_S4 : rt_state :=
  apply_event (EvUpdate "req-1" update_S4) initial_state.

(** The handler task is suspended on the waiter of that update. *)
Definition awaiting_S4 : rt_state :=
  apply_event (EvHandlerAwaits [0%nat])
    (set_handler_task (Some false) updating_S4).

(** * Further parts of the runtime *)

(** ** More about values *)

(** Values the JSON decoder can produce when non-finite floats are let
    through: as [json_value], for any float. *)
Fixpoint json_shaped (v : pyval) : bool :=
  match v with
  | PNone | PBool _ | PInt _ | PStr _ | PFloat _ => true
  | PList l => forallb json_shaped l
  | PDict d =>
      forallb (fun kv => key_is_str (fst kv) && json_shaped (snd kv)) d
      && dict_uniq d
  | PTuple _ | PBytes _ | PObj _ => false
  end.

(** ** More about the guards *)

(** A path the resolver lets through: the bundle root, a configured host
    root, or a path below one of them. *)
Definition allowed_path (w : os_world) (bundle_dir q : string) : Prop :=
  is_or_under (os_realpath w bundle_dir) q
  \/ exists h, host_root_configured w h /\ is_or_under (os_realpath w h) q.

(** The arguments at the listed positions are all descriptors. *)
Definition descriptors_at (indexes : list nat) (args : list pyval) : bool :=
  forallb (fun index => match args !! index with
                        | Some value => is_int value
                        | None => true
                        end) indexes.

(** The arguments at the listed positions are descriptors or [str]
    paths. *)
Definition paths_at (indexes : list nat) (args : list pyval) : bool :=
  forallb (fun index => match args !! index with
                        | Some (PStr _) => true
                        | Some value => is_int value
                        | None => true
                        end) indexes.

(** *** setup_network_guards (lines 214-250) *)

Definition network_denied : pyexn :=
  PermissionError
    ("Network access requires declaring the " +:+ dquote +:+ "network"
     +:+ dquote +:+ " capability").

(** The names that are rebound to the blocking stub, by module. *)
Definition blocked_network_names : list (string * string) :=
  [("socket", "socket"); ("socket", "create_connection");
   ("socket", "create_server");
   ("http.client", "HTTPConnection"); ("http.client", "HTTPSConnection");
   ("urllib.request", "urlopen");
   ("asyncio", "open_connection"); ("asyncio", "start_server")].

Definition is_blocked_name (module_name name : string) : bool :=
  existsb (fun mn => String.eqb module_name (fst mn) && String.eqb name (snd mn))
    blocked_network_names.

(** What a handler gets when it calls (and, for the two [asyncio] names,
    awaits) [module.name(...)] once the network guard is set up. *)
Definition network_call (w : os_world) (capabilities : list pyval)
    (module_name name : string)
    (args : list pyval) (kwargs : list (string * pyval)) : Os pyval :=
  let allow_network := has_capability "network" capabilities in
  if allow_network then original w module_name name args kwargs
  else if is_blocked_name module_name name then raise network_denied
  else original w module_name name args kwargs.

(** ** The job context (lines 389-436) *)

Module JobContext.

Record t : Type := {
  definition : pyval;
  run : pyval;
  parameters : pyval;
  _task_id : pyval;
  workflowEventContext : pyval;
  workflow_event_context : pyval;
}.

(** [JobContext.logger] (lines 399-401): as the [log] closure at level
    [info], but without its [setdefault]. *)
Definition logger (self : t) (message : string) (meta : pyval) (s : rt_state)
  : rt_state :=
  let '(normalized, s) := normalize_meta (_task_id self) meta s in
  let normalized :=
    match normalized with
    | Some d => d
    | None => [(KStr "sandboxTaskId", _task_id self)]
    end in
  send_message
    (obj [("type", PStr "log"); ("level", PStr "info");
          ("message", PStr message); ("meta", PDict normalized)]) s.

(** [JobContext.update] from its [await] on (lines 414-419), once the
    future is done: a result that is a dictionary replaces [run], and
    [parameters] too when it has that key.  A future that holds an
    exception or was cancelled makes the [await] raise, and the context
    stays as it is. *)
Definition update_resume (self : t) (future : nat) (s : rt_state) : t :=
  match futures s !! future with
  | Some (FResult (PDict result)) =>
      {| definition := definition self;
         run := PDict result;
         parameters := if dict_has "parameters" result
                       then py_get "parameters" result
                       else parameters self;
         _task_id := _task_id self;
         workflowEventContext := workflowEventContext self;
         workflow_event_context := workflow_event_context self |}
  | _ => self
  end.

End JobContext.

(** ** The message queue (lines 522-538)

    The queue holds what [stdin_reader] has put: the decoded lines, which
    can be any JSON value, and at the end of the input the dictionary
    [{"_internal": "eof"}].  A queue is given by the messages that arrive,
    oldest first; when they are used up, [queue.get()] does not return. *)

(** Calling [.get] on a message that is not a dictionary raises
    [AttributeError]; an exception of [handle_parent_message] goes through
    [dispatch_messages] as it is. *)
Inductive queue_error : Type :=
  | AttributeError (receiver : pyval)
  | HandlerError (e : pyexn).

Inductive wait_result : Type :=
  | Started (message : list (pykey * pyval)) (rest : list pyval)
  | WaitRaises (e : queue_error) (rest : list pyval)
  | WaitSuspended.

Fixpoint wait_for_start (queue : list pyval) : wait_result :=
  match queue with
  | [] => WaitSuspended
  | PDict message :: queue =>
      if py_eq_str (py_get "_internal" message) "eof" then wait_for_start queue
      else if py_eq_str (py_get "type" message) "start" then
        Started message queue
      else wait_for_start queue
  | message :: queue => WaitRaises (AttributeError message) queue
  end.

Inductive dispatch_result : Type :=
  | Shutdown (s : rt_state) (rest : list pyval)
  | DispatchRaises (e : queue_error) (s : rt_state) (rest : list pyval)
  | DispatchSuspended (s : rt_state).

Fixpoint dispatch_messages (queue : list pyval) (s : rt_state)
  : dispatch_result :=
  match queue with
  | [] => DispatchSuspended s
  | PDict message :: queue =>
      if py_eq_str (py_get "_internal" message) "shutdown" then Shutdown s queue
      else
        match handle_parent_message message s with
        | (s, None) => dispatch_messages queue s
        | (s, Some e) => DispatchRaises (HandlerError e) s queue
        end
  | message :: queue => DispatchRaises (AttributeError message) s queue
  end.

(** *** Vocabulary of the statements about the queue *)

(** The message [wait_for_start] is waiting for. *)
Definition is_start (message : list (pykey * pyval)) : bool :=
  negb (py_eq_str (py_get "_internal" message) "eof")
  && py_eq_str (py_get "type" message) "start".

Definition is_shutdown (message : list (pykey * pyval)) : bool :=
  py_eq_str (py_get "_internal" message) "shutdown".

(** A message [handle_parent_message] returns from whatever the table
    holds: any but a response whose [requestId] cannot be hashed. *)
Definition handled (message : list (pykey * pyval)) : bool :=
  negb (is_response message) || hashable (py_get "requestId" message).

(** ** What the JSON encoder accepts *)

(** A value the encoder does not raise on: no [bytes] and no other object
    anywhere in it, no dictionary key it cannot spell, and no [int] of more
    than [int_max_str_digits] digits, as a value or as a key. *)
Fixpoint encodable (v : pyval) : bool :=
  match v with
  | PNone | PBool _ | PFloat _ | PStr _ => true
  | PInt n => int_fits n
  | PList l | PTuple l => forallb encodable l
  | PDict d =>
      forallb (fun kv => match json_key (fst kv) with
                         | Some _ => encodable (snd kv)
                         | None => false
                         end) d
  | PBytes _ | PObj _ => false
  end.

(** ** Installing the dependencies of a bundle (lines 253-366)

    The file system, [fcntl.flock] and [subprocess.run] are parameters:
    a world [W] and the answers the calls get in it.  An exception is
    known by its text, which is all that [execute_start] keeps of it.
    [str.strip] and the SHA-256 digest are parameters too.  Closing a file
    and reading from a file that has been opened are taken to succeed. *)

(** [subprocess.CompletedProcess] *)
Record completed : Type := {
  returncode : Z;
  proc_stdout : string;
  proc_stderr : string;
}.

Inductive flock_op : Type := LOCK_EX | LOCK_UN.

Record dep_world (W : Type) : Type := {
  (* [str.strip] *)
  strip : string -> string;
  (* [hexdigest] of a digest that was updated with these chunks in turn *)
  sha256_hexdigest : list (list Byte.byte) -> string;
  (* [os.path.isfile] *)
  isfile : string -> W -> bool;
  (* [open(path, 'r', encoding='utf-8')] and its lines *)
  read_lines : string -> W -> string + list string;
  (* [os.makedirs(path, exist_ok=True)] *)
  makedirs : string -> W -> W * option string;
  (* [open(path, 'w', encoding='utf-8')] of the lock file *)
  open_lock : string -> W -> W * option string;
  (* [fcntl.flock(lock_file, op)] *)
  flock : flock_op -> W -> W * option string;
  (* closing the lock file *)
  close_lock : W -> W;
  (* [subprocess.run(args, capture_output=True, text=True)] *)
  subprocess_run : list string -> W -> W * (string + completed);
  (* [open(path, 'rb')]: the bytes of the file *)
  open_binary : string -> W -> string + list Byte.byte;
  (* [open(path, 'r', encoding='utf-8')] and [read()] *)
  read_text : string -> W -> string + string;
  (* [open(path, 'w', encoding='utf-8')] and [write(content)] *)
  write_text : string -> string -> W -> W * option string;
}.

Arguments strip {W}.
Arguments sha256_hexdigest {W}.
Arguments isfile {W}.
Arguments read_lines {W}.
Arguments makedirs {W}.
Arguments open_lock {W}.
Arguments flock {W}.
Arguments close_lock {W}.
Arguments subprocess_run {W}.
Arguments open_binary {W}.
Arguments read_text {W}.
Arguments write_text {W}.

(** The calls made, with the answers they got. *)
Inductive depevent : Type :=
  | EIsfile (path : string) (answer : bool)
  | EReadLines (path : string) (answer : string + list string)
  | EMakedirs (path : string) (error : option string)
  | EOpenLock (path : string) (error : option string)
  | EFlock (op : flock_op) (error : option string)
  | ECloseLock
  | ERun (args : list string) (answer : string + completed)
  | EOpenBinary (path : string) (answer : string + list Byte.byte)
  | EReadText (path : string) (answer : string + string)
  | EWriteText (path content : string) (error : option string).

(** The world together with [sys.path] and [os.environ]. *)
Record dep_state (W : Type) : Type := {
  world : W;
  sys_path : list string;
  environ : gmap string string;
}.

Arguments world {W}.
Arguments sys_path {W}.
Arguments environ {W}.

Definition set_world {W} (x : W) (s : dep_state W) : dep_state W :=
  {| world := x; sys_path := sys_path s; environ := environ s |}.

(** A computation: the calls made, the state reached, and the value
    returned or the text of the exception raised. *)
Definition Dep (W A : Type) : Type :=
  dep_state W -> list depevent * (dep_state W * (string + A)).

#[global] Instance Dep_ret W : MRet (Dep W) := fun A x s => ([], (s, inr x)).

#[global] Instance Dep_bind W : MBind (Dep W) := fun A B f m s =>
  match m s with
  | (t, (s, inl e)) => (t, (s, inl e))
  | (t, (s, inr x)) => let '(t', r) := f x s in (t ++ t', r)
  end.

Definition dep_raise {W A} (e : string) : Dep W A := fun s => ([], (s, inl e)).

(** A call that reads the world. *)
Definition dep_ask {W A} (ask : W -> A) (ev : A -> depevent) : Dep W A :=
  fun s => let answer := ask (world s) in ([ev answer], (s, inr answer)).

(** A call that changes the world and may raise. *)
Definition dep_do {W} (act : W -> W * option string)
    (ev : option string -> depevent) : Dep W unit :=
  fun s =>
    let '(x, error) := act (world s) in
    ([ev error],
     (set_world x s, match error with Some e => inl e | None => inr tt end)).

(** A call that reads the world and may raise. *)
Definition dep_try {W A} (ask : W -> string + A)
    (ev : string + A -> depevent) : Dep W A :=
  fun s => let answer := ask (world s) in ([ev answer], (s, answer)).

(** [try: body finally: final]: an exception of [final] replaces the
    outcome of [body]. *)
Definition try_finally {W A} (body : Dep W A) (final : Dep W unit) : Dep W A :=
  fun s =>
    let '(t1, (s1, r1)) := body s in
    let '(t2, (s2, r2)) := final s1 in
    (t1 ++ t2,
     (s2, match r2 with inl e => inl e | inr _ => r1 end)).

Definition dep_trace {W A} (m : Dep W A) (s : dep_state W) : list depevent :=
  fst (m s).
Definition dep_final {W A} (m : Dep W A) (s : dep_state W) : dep_state W :=
  fst (snd (m s)).
Definition dep_outcome {W A} (m : Dep W A) (s : dep_state W) : string + A :=
  snd (snd (m s)).

(** *** _venv_bin_dir and _find_executable (lines 253-264) *)

Definition _venv_bin_dir (venv_dir : string) : string :=
  path_join venv_dir "bin".

Fixpoint find_candidate {W} (w : dep_world W) (bin_dir : string)
    (names : list string) : Dep W (option string) :=
  match names with
  | [] => mret None
  | name :: names =>
      let candidate := path_join bin_dir name in
      found ← dep_ask (isfile w candidate) (EIsfile candidate);
      if found : bool then mret (Some candidate)
      else find_candidate w bin_dir names
  end.

Definition _find_executable {W} (w : dep_world W) (venv_dir : string)
    (names : list string) : Dep W (option string) :=
  let bin_dir := _venv_bin_dir venv_dir in
  find_candidate w bin_dir names.

(** The truth value of what [_find_executable] returned. *)
Definition found_executable (executable : option string) : bool :=
  match executable with
  | Some path => negb (String.eqb path EmptyString)
  | None => false
  end.

(** *** _compute_requirements_hash (lines 267-275) *)

Definition CHUNK_SIZE : nat := N.to_nat 65536.

(** The loop over [handle.read(65_536)]: [handle] is what is left to read
    and [fed] the chunks the digest was updated with.  Every turn but the
    last takes bytes from [handle], so its length bounds the turns. *)
Fixpoint read_chunks (turns : nat) (handle : list Byte.byte)
    (fed : list (list Byte.byte)) : list (list Byte.byte) :=
  match turns with
  | O => fed
  | S turns =>
      let chunk := take CHUNK_SIZE handle in
      match chunk with
      | [] => fed
      | _ => read_chunks turns (drop CHUNK_SIZE handle) (fed ++ [chunk])
      end
  end.

Definition _compute_requirements_hash {W} (w : dep_world W) (path : string)
  : Dep W string :=
  handle ← dep_try (open_binary w path) (EOpenBinary path);
  mret (sha256_hexdigest w (read_chunks (S (length handle)) handle [])).

(** *** _run_subprocess (lines 278-284) *)

Definition run {W} (w : dep_world W) (args : list string) : Dep W completed :=
  fun s =>
    let '(x, answer) := subprocess_run w args (world s) in
    ([ERun args answer], (set_world x s, answer)).

(** [sep.join(filter(None, parts))] *)
Fixpoint join_nonempty (separator : string) (parts : list string) : string :=
  match parts with
  | [] => EmptyString
  | part :: parts =>
      if String.eqb part EmptyString then join_nonempty separator parts
      else
        let rest := join_nonempty separator parts in
        if String.eqb rest EmptyString then part
        else part +:+ separator +:+ rest
  end.

Definition or_default (text default : string) : string :=
  if String.eqb text EmptyString then default else text.

Definition _run_subprocess {W} (w : dep_world W) (args : list string)
    (error_message : string) : Dep W unit :=
  result ← run w args;
  if negb (returncode result =? 0)%Z then
    let stdout := strip w (proc_stdout result) in
    let stderr := strip w (proc_stderr result) in
    let details := join_nonempty "; " [stdout; stderr] in
    dep_raise (error_message +:+ ": " +:+ or_default details "no output")
  else mret tt.

(** *** _discover_site_packages (lines 287-298) *)

Definition site_packages_code : string :=
  "import sysconfig; print(sysconfig.get_paths()['purelib'])".

Definition _discover_site_packages {W} (w : dep_world W)
    (python_executable : string) : Dep W string :=
  result ← run w [python_executable; "-c"; site_packages_code];
  if negb (returncode result =? 0)%Z then
    let stderr := or_default (strip w (proc_stderr result)) "unknown" in
    dep_raise ("Failed to determine site-packages path: " +:+ stderr)
  else mret (strip w (proc_stdout result)).

(** *** ensure_python_dependencies (lines 301-366) *)

(** Line 307: the lines that count as requirements. *)
Definition requirement_lines {W} (w : dep_world W) (lines : list string)
  : list string :=
  map (strip w)
    (List.filter
       (fun line =>
          negb (String.eqb (strip w line) EmptyString)
          && negb (String.prefix "#" (strip w line)))
       lines).

(** [marker_hash != requirements_hash], where the marker is [None] when
    there is no marker file or it holds white space only. *)
Definition marker_differs (marker_hash : option string)
    (requirements_hash : string) : bool :=
  match marker_hash with
  | Some marker => negb (String.eqb marker requirements_hash)
  | None => true
  end.

(** Lines 332-353: the two runs of [pip] and the new marker. *)
Definition install_requirements {W} (w : dep_world W)
    (venv_dir python_executable requirements_path marker_path
       requirements_hash : string) : Dep W unit :=
  pip_executable ← _find_executable w venv_dir ["pip"; "pip3"];
  let pip_args :=
    match pip_executable with
    | Some pip => if found_executable pip_executable then [pip]
                  else [python_executable; "-m"; "pip"]
    | None => [python_executable; "-m"; "pip"]
    end in
  let upgrade_args :=
    pip_args ++ ["install"; "--no-input"; "--disable-pip-version-check";
                 "--upgrade"; "pip"] in
  _ ← _run_subprocess w upgrade_args
        "Failed to upgrade pip inside virtual environment";
  let install_args :=
    pip_args ++ ["install"; "--no-input"; "--disable-pip-version-check";
                 "-r"; requirements_path] in
  _ ← _run_subprocess w install_args "Failed to install Python dependencies";
  dep_do (write_text w marker_path requirements_hash)
    (EWriteText marker_path requirements_hash).

(** Lines 318-355: the body of the [try] under the lock; it returns
    [site_packages]. *)
Definition locked_section {W} (w : dep_world W)
    (venv_dir requirements_path : string) : Dep W string :=
  python_executable ← _find_executable w venv_dir ["python"; "python3"];
  python_executable ←
    (if negb (found_executable python_executable) then
       _ ← _run_subprocess w ["python3"; "-m"; "venv"; venv_dir]
             "Failed to create virtual environment";
       _find_executable w venv_dir ["python"; "python3"]
     else mret python_executable);
  match python_executable with
  | Some python =>
      if negb (found_executable python_executable) then
        dep_raise "Virtual environment python executable not found"
      else
        requirements_hash ← _compute_requirements_hash w requirements_path;
        let marker_path := path_join venv_dir ".requirements.hash" in
        has_marker ← dep_ask (isfile w marker_path) (EIsfile marker_path);
        marker_hash ←
          (if has_marker : bool then
             text ← dep_try (read_text w marker_path) (EReadText marker_path);
             let marker := strip w text in
             mret (if String.eqb marker EmptyString then None else Some marker)
           else mret None);
        _ ← (if marker_differs marker_hash requirements_hash then
               install_requirements w venv_dir python requirements_path
                 marker_path requirements_hash
             else mret tt);
        _discover_site_packages w python
  | None => dep_raise "Virtual environment python executable not found"
  end.

(** Lines 360-365: [sys.path] and the environment. *)
Definition activate {W} (venv_dir site_packages : string) : Dep W unit :=
  fun s =>
    let sys_path :=
      if negb (String.eqb site_packages EmptyString)
         && negb (bool_decide (site_packages ∈ sys_path s))
      then site_packages :: sys_path s
      else sys_path s in
    let bin_dir := _venv_bin_dir venv_dir in
    let environ := <["VIRTUAL_ENV" := venv_dir]> (environ s) in
    let current_path := default EmptyString (environ !! "PATH") in
    let environ :=
      <["PATH" := if negb (String.eqb current_path EmptyString)
                  then bin_dir +:+ ":" +:+ current_path
                  else bin_dir]> environ in
    ([], ({| world := world s; sys_path := sys_path; environ := environ |},
          inr tt)).

Definition ensure_python_dependencies {W} (w : dep_world W)
    (bundle_dir : string) : Dep W unit :=
  let requirements_path := path_join bundle_dir "requirements.txt" in
  is_file ← dep_ask (isfile w requirements_path) (EIsfile requirements_path);
  if negb is_file then mret tt
  else
    lines ← dep_try (read_lines w requirements_path)
              (EReadLines requirements_path);
    let requirements := requirement_lines w lines in
    match requirements with
    | [] => mret tt
    | _ =>
        let venv_dir := path_join bundle_dir ".venv" in
        _ ← dep_do (makedirs w venv_dir) (EMakedirs venv_dir);
        let lock_path := path_join venv_dir ".install.lock" in
        _ ← dep_do (open_lock w lock_path) (EOpenLock lock_path);
        site_packages ←
          try_finally
            (_ ← dep_do (flock w LOCK_EX) (EFlock LOCK_EX);
             try_finally
               (locked_section w venv_dir requirements_path)
               (dep_do (flock w LOCK_UN) (EFlock LOCK_UN)))
            (fun s => ([ECloseLock],
                       (set_world (close_lock w (world s)) s, inr tt)));
        activate venv_dir site_packages
    end.

(** *** Vocabulary of the statements about the installation *)

Definition is_lock_event (ev : depevent) : bool :=
  match ev with
  | EOpenLock _ _ | EFlock _ _ | ECloseLock => true
  | _ => false
  end.

Definition is_run_event (ev : depevent) : bool :=
  match ev with
  | ERun _ _ => true
  | _ => false
  end.

Definition is_write_event (ev : depevent) : bool :=
  match ev with
  | EWriteText _ _ _ => true
  | _ => false
  end.

(** No call of the computation is one of those [P] picks out. *)
Definition dep_quiet {W A} (P : depevent -> bool) (m : Dep W A) : Prop :=
  forall s, existsb P (dep_trace m s) = false.

(** The computation leaves [sys.path] and the environment alone. *)
Definition keeps_process {W A} (m : Dep W A) : Prop :=
  forall s,
    sys_path (dep_final m s) = sys_path s
    /\ environ (dep_final m s) = environ s.

(** The arguments that follow the [pip] command. *)
Definition upgrade_pip_args : list string :=
  ["install"; "--no-input"; "--disable-pip-version-check"; "--upgrade"; "pip"].

Definition install_requirements_args (requirements_path : string)
  : list string :=
  ["install"; "--no-input"; "--disable-pip-version-check"; "-r";
   requirements_path].

(** A world without state for examples: the files are those of [files],
    every call succeeds, and a subprocess prints [printed]. *)
Fixpoint file_content (path : string) (files : list (string * string))
  : option string :=
  match files with
  | [] => None
  | (name, content) :: files =>
      if String.eqb path name then Some content else file_content path files
  end.

Definition read_file {A} (convert : string -> A) (path : string)
    (files : list (string * string)) : string + A :=
  match file_content path files with
  | Some content => inr (convert content)
  | None => inl "No such file or directory"
  end.

Definition quiet_world (files : list (string * string)) (printed : string)
  : dep_world unit := {|
  strip := fun text => text;
  sha256_hexdigest := fun chunks =>
    "sha256:" +:+ String.string_of_list_ascii
                    (map Ascii.ascii_of_byte (concat chunks));
  isfile := fun path _ =>
    match file_content path files with Some _ => true | None => false end;
  read_lines := fun path _ => read_file (fun text => [text]) path files;
  makedirs := fun _ x => (x, None);
  open_lock := fun _ x => (x, None);
  flock := fun _ x => (x, None);
  close_lock := fun x => x;
  subprocess_run := fun _ x =>
    (x, inr {| returncode := 0; proc_stdout := printed;
               proc_stderr := EmptyString |});
  open_binary := fun path _ =>
    read_file
      (fun text => map Ascii.byte_of_ascii (String.list_ascii_of_string text))
      path files;
  read_text := fun path _ => read_file (fun text => text) path files;
  write_text := fun _ _ x => (x, None);
|}.

Definition fresh_process : dep_state unit :=
  {| world := tt; sys_path := ["/usr/lib/python3"];
     environ := {["PATH" := "/usr/bin"]} |}.

(** A bundle whose environment is installed and up to date. *)
Definition installed_bundle : list (string * string) :=
  [("/b/requirements.txt", "requests");
   ("/b/.venv/bin/python", EmptyString);
   ("/b/.venv/.requirements.hash", "sha256:requests")].

(** * Properties *)

(** ** Facts about dictionaries *)

Lemma dict_get_set_eq {V} k (v : V) d : dict_get k (dict_set k v d) = Some v.
Proof.
  induction d as [|[k' v'] r IH]; simpl.
  - unfold key_is. now rewrite String.eqb_refl.
  - destruct (key_is k k') eqn:E; simpl; now rewrite E.
Qed.

Lemma dict_get_set_ne {V} k k' (v : V) d :
  k <> k' -> dict_get k' (dict_set k v d) = dict_get k' d.
Proof.
  intros Hne. induction d as [|[k0 v0] r IH]; simpl.
  - destruct (String.eqb_spec k' k); congruence.
  - destruct (key_is k k0) eqn:E; simpl.
    + destruct k0; simpl in *; try reflexivity.
      apply String.eqb_eq in E. subst s.
      destruct (String.eqb_spec k' k); congruence.
    + now rewrite IH.
Qed.

Lemma dict_has_set {V} k k' (v : V) d :
  dict_has k' (dict_set k v d) = String.eqb k k' || dict_has k' d.
Proof.
  unfold dict_has. destruct (String.eqb_spec k k') as [->|Hne].
  - now rewrite dict_get_set_eq.
  - now rewrite dict_get_set_ne.
Qed.

Lemma dict_set_fresh {V} k (v : V) d :
  dict_has k d = false -> dict_set k v d = d ++ [(KStr k, v)].
Proof.
  unfold dict_has. induction d as [|[k' v'] r IH]; simpl; [reflexivity|].
  destruct (key_is k k'); [discriminate|]. intros H. now rewrite IH.
Qed.

Lemma dict_has_app {V} k (d1 d2 : list (pykey * V)) :
  dict_has k (d1 ++ d2) = dict_has k d1 || dict_has k d2.
Proof.
  unfold dict_has. induction d1 as [|[k' v'] r IH]; simpl; [reflexivity|].
  destruct (key_is k k'); [reflexivity|]. exact IH.
Qed.

Lemma dict_uniq_set {V} k (v : V) d :
  dict_uniq d = true -> dict_uniq (dict_set k v d) = true.
Proof.
  induction d as [|[k' v'] r IH]; simpl; [reflexivity|].
  intros [Hk Hr]%andb_true_iff.
  destruct (key_is k k') eqn:E; simpl.
  - now rewrite Hk, Hr.
  - rewrite (IH Hr), andb_true_r.
    destruct k'; try reflexivity.
    rewrite dict_has_set. simpl in E. rewrite E. exact Hk.
Qed.

Lemma dict_uniq_app_head {V} (d1 : list (pykey * V)) k v d2 :
  dict_uniq (d1 ++ (KStr k, v) :: d2) = true -> dict_has k d1 = false.
Proof.
  induction d1 as [|[k' v'] r IH]; simpl; [reflexivity|].
  intros [Hk Hr]%andb_true_iff. specialize (IH Hr).
  assert (Hstep : dict_has k ((k', v') :: r)
                  = key_is k k' || dict_has k r).
  { unfold dict_has. simpl. now destruct (key_is k k'). }
  rewrite Hstep, IH, orb_false_r.
  destruct k'; simpl; try reflexivity.
  destruct (String.eqb_spec k s) as [->|Hne]; [|reflexivity].
  apply negb_true_iff in Hk. rewrite dict_has_app in Hk.
  apply orb_false_iff in Hk as [_ Hk]. unfold dict_has in Hk. simpl in Hk.
  now rewrite String.eqb_refl in Hk.
Qed.

(** ** to_json_value lands in the JSON domain and fixes it *)

Lemma json_value_not_unsupported v :
  json_value v = true -> is_unsupported v = false.
Proof. destruct v; simpl; try reflexivity; discriminate. Qed.

Lemma to_json_value_in_domain v :
  is_unsupported (to_json_value v) = false ->
  json_value (to_json_value v) = true.
Proof.
  induction v as [| | |f| | |l IH|l IH|d IH|] using pyval_ind_nested;
    simpl; try reflexivity; try discriminate.
  - destruct (is_finite f) eqn:E; simpl; [now rewrite E | discriminate].
  - intros _.
    assert (G : forall acc, forallb json_value acc = true ->
      forallb json_value
        (fold_left (fun result entry =>
                      let converted := to_json_value entry in
                      if is_unsupported converted then result
                      else result ++ [converted]) l acc) = true).
    { induction IH as [|x r Hx _ IHr]; intros acc Hacc; simpl; [exact Hacc|].
      apply IHr. destruct (is_unsupported (to_json_value x)) eqn:E; [exact Hacc|].
      rewrite forallb_app, Hacc. simpl. now rewrite (Hx eq_refl). }
    now apply G.
  - intros _.
    assert (G : forall acc, forallb json_value acc = true ->
      forallb json_value
        (fold_left (fun result entry =>
                      let converted := to_json_value entry in
                      if is_unsupported converted then result
                      else result ++ [converted]) l acc) = true).
    { induction IH as [|x r Hx _ IHr]; intros acc Hacc; simpl; [exact Hacc|].
      apply IHr. destruct (is_unsupported (to_json_value x)) eqn:E; [exact Hacc|].
      rewrite forallb_app, Hacc. simpl. now rewrite (Hx eq_refl). }
    now apply G.
  - intros _.
    set (ok := fun acc : list (pykey * pyval) =>
                 forallb (fun kv => key_is_str (fst kv) && json_value (snd kv)) acc
                 && dict_uniq acc = true).
    assert (Hset : forall k v acc, json_value v = true -> ok acc ->
                                   ok (dict_set k v acc)).
    { intros k v acc Hv [Ha Hu]%andb_true_iff. unfold ok.
      rewrite (dict_uniq_set k v acc Hu), andb_true_r.
      clear Hu. induction acc as [|[k' v'] r IHa]; simpl in *.
      - now rewrite Hv.
      - apply andb_true_iff in Ha as [H1 H2].
        destruct (key_is k k') eqn:E; simpl.
        + apply andb_true_iff in H1 as [H1 _]. now rewrite H1, Hv, H2.
        + now rewrite H1, (IHa H2). }
    assert (G : forall acc, ok acc ->
      ok (fold_left
            (fun result kv =>
               match fst kv with
               | KStr key =>
                   let converted := to_json_value (snd kv) in
                   if is_unsupported converted then result
                   else dict_set key converted result
               | _ => result
               end) d acc)).
    { induction IH as [|[k x] r Hx _ IHr]; intros acc Hacc; simpl; [exact Hacc|].
      apply IHr. destruct k; try exact Hacc.
      simpl in Hx. destruct (is_unsupported (to_json_value x)) eqn:E; [exact Hacc|].
      apply Hset; [now apply Hx | exact Hacc]. }
    now apply G.
Qed.

Lemma to_json_value_fixes_domain v :
  json_value v = true -> to_json_value v = v.
Proof.
  induction v as [| | |f| | |l IH|l IH|d IH|] using pyval_ind_nested;
    simpl; try reflexivity; try discriminate.
  - now intros ->.
  - intros Hl. f_equal.
    assert (G : forall acc,
      fold_left (fun result entry =>
                   let converted := to_json_value entry in
                   if is_unsupported converted then result
                   else result ++ [converted]) l acc = acc ++ l).
    { induction IH as [|x r Hx _ IHr]; intros acc; simpl.
      - now rewrite app_nil_r.
      - simpl in Hl. apply andb_true_iff in Hl as [H1 H2].
        rewrite (Hx H1), (json_value_not_unsupported x H1), (IHr H2).
        now rewrite <- app_assoc. }
    apply (G []).
  - intros [Hd Hu]%andb_true_iff. f_equal.
    assert (G : forall acc, dict_uniq (acc ++ d) = true ->
      fold_left (fun result kv =>
                   match fst kv with
                   | KStr key =>
                       let converted := to_json_value (snd kv) in
                       if is_unsupported converted then result
                       else dict_set key converted result
                   | _ => result
                   end) d acc = acc ++ d).
    { clear Hu. induction IH as [|[k x] r Hx _ IHr]; intros acc Hacc; simpl.
      - now rewrite app_nil_r.
      - simpl in Hd. apply andb_true_iff in Hd as [H1 H2].
        apply andb_true_iff in H1 as [Hk H1].
        destruct k; try discriminate. simpl in Hx.
        rewrite (Hx H1), (json_value_not_unsupported x H1).
        rewrite (dict_set_fresh s x acc (dict_uniq_app_head acc s x r Hacc)).
        rewrite (IHr H2); [now rewrite <- app_assoc|].
        now rewrite <- app_assoc. }
    apply (G []). exact Hu.
Qed.

(** C9. The result sanitiser [to_json_value] is idempotent: sanitising an
    already sanitised value gives the same value back, for every value
    (the [UNSUPPORTED] sentinel included, which is sanitised to itself). *)
Theorem to_json_value_idempotent (v : pyval) :
  to_json_value (to_json_value v) = to_json_value v.
Proof.
  destruct (is_unsupported (to_json_value v)) eqn:E.
  - destruct (to_json_value v) as [| | | | | | | | |[|n]]; try discriminate.
    reflexivity.
  - apply to_json_value_fixes_domain, to_json_value_in_domain, E.
Qed.

(** ** The path resolver *)

Lemma append_cons (x : Ascii.ascii) (a b : string) :
  String x a +:+ b = String x (a +:+ b).
Proof. reflexivity. Qed.

Lemma append_assoc (a b c : string) : (a +:+ b) +:+ c = a +:+ b +:+ c.
Proof.
  induction a as [|x a IH]; [reflexivity|].
  now rewrite !append_cons, IH.
Qed.

Lemma prefix_iff (p s : string) :
  String.prefix p s = true <-> exists rest, s = p +:+ rest.
Proof.
  revert s. induction p as [|a p IH]; intros s.
  - split; [intros _; now exists s | intros _; now destruct s].
  - destruct s as [|b s]; simpl.
    + split; [discriminate | intros [rest H]; rewrite append_cons in H; discriminate].
    + destruct (Ascii.ascii_dec a b) as [->|Hne].
      * rewrite IH. split; intros [rest H]; exists rest.
        -- now rewrite append_cons, H.
        -- rewrite append_cons in H. now injection H.
      * split; [discriminate | intros [rest H]; rewrite append_cons in H].
        injection H as Hb _. now subst.
Qed.

Lemma within_iff (root path : string) :
  within root path = true <-> is_or_under root path.
Proof.
  unfold within, is_or_under. rewrite orb_true_iff, String.eqb_eq, prefix_iff.
  split; intros [H|[rest H]]; auto; right; exists rest.
  - now rewrite H, append_assoc.
  - now rewrite H, append_assoc.
Qed.

Lemma within_false_iff (root path : string) :
  within root path = false <-> ~ is_or_under root path.
Proof. rewrite <- within_iff. now destruct (within root path). Qed.

Ltac resolver_case :=
  unfold host_root_configured, no_host_root in *;
  repeat split; intros;
  repeat match goal with
         | H : _ /\ _ |- _ => destruct H
         | H : _ \/ _ |- _ => destruct H
         | H : inr _ = inr _ |- _ => injection H as H
         | H : Some _ = Some _ |- _ => injection H as H
         end;
  subst; try congruence; try tauto.

(** The result of the resolver, apart from the calls it makes. *)
Lemma ensure_within_bundle_outcome (w : os_world) (R C : string) :
  let r := os_realpath w R in
  let c := os_realpath w C in
  outcome (ensure_within_bundle w R C)
  = if within r c then inr c
    else match os_environ w HOST_ROOT_PREFIX_ENV with
         | Some h =>
             if negb (String.eqb h EmptyString) then
               let H := os_realpath w h in
               let c' := os_realpath w (path_join H (os_relpath w c sep)) in
               if within H c then inr c
               else if within H c' then inr c'
               else inl outside_bundle
             else inl outside_bundle
         | None => inl outside_bundle
         end.
Proof.
  intros r c. unfold ensure_within_bundle, ensure_within_bundle_with, realpath, called,
    outcome; simpl.
  fold r c. destruct (within r c); [reflexivity|].
  destruct (os_environ w HOST_ROOT_PREFIX_ENV) as [h|]; [|reflexivity].
  destruct (negb (String.eqb h EmptyString)); [|reflexivity]. simpl.
  destruct (within (os_realpath w h) c); [reflexivity|]. simpl.
  now destruct (within _ _).
Qed.

(** C1. The path resolver.  With [r], [c] the real paths of the bundle root
    and of the candidate: if [c] is [r] or below it, [c] is returned;
    otherwise, with a host root configured and [H] its real path, [c] is
    returned if it is [H] or below it, else the real path [c'] of [H] joined
    with [c] taken relative to the separator is returned if [c'] is [H] or
    below it; in every remaining case the resolver raises the permission
    error.  Whatever is returned is thus the bundle root, the host root, or
    a path below one of them. *)
Theorem ensure_within_bundle_spec (w : os_world) (R C : string) :
  let r := os_realpath w R in
  let c := os_realpath w C in
  let res := outcome (ensure_within_bundle w R C) in
  (is_or_under r c -> res = inr c) /\
  (~ is_or_under r c ->
   forall h, host_root_configured w h ->
     let H := os_realpath w h in
     let c' := os_realpath w (path_join H (os_relpath w c sep)) in
     (is_or_under H c -> res = inr c) /\
     (~ is_or_under H c -> is_or_under H c' -> res = inr c') /\
     (~ is_or_under H c -> ~ is_or_under H c' -> res = inl outside_bundle)) /\
  (~ is_or_under r c -> no_host_root w -> res = inl outside_bundle) /\
  (forall p, res = inr p ->
     is_or_under r p
     \/ exists h, host_root_configured w h /\ is_or_under (os_realpath w h) p).
Proof.
  intros r c res. subst res. rewrite ensure_within_bundle_outcome. fold r c.
  destruct (within r c) eqn:Hrc;
    [apply within_iff in Hrc | apply within_false_iff in Hrc].
  { resolver_case. }
  destruct (os_environ w HOST_ROOT_PREFIX_ENV) as [h0|] eqn:Henv;
    [|resolver_case].
  destruct (String.eqb_spec h0 EmptyString) as [->|Hne]; simpl;
    [resolver_case|].
  destruct (within (os_realpath w h0) c) eqn:HHc;
    [apply within_iff in HHc | apply within_false_iff in HHc].
  { resolver_case. right. exists h0. now repeat split. }
  match goal with
  | |- context [within ?a ?b] =>
      destruct (within a b) eqn:HHt;
      [apply within_iff in HHt | apply within_false_iff in HHt]
  end.
  - resolver_case. right. exists h0. now repeat split.
  - resolver_case.
Qed.

(** The resolver at work: with the host root [/host], the path
    [/etc/passwd] is outside the bundle [/work/b] and outside [/host], and
    is moved below the host root. *)
Lemma ensure_within_bundle_spec_witness :
  outcome (ensure_within_bundle (plain_world (Some "/host"))
             "/work/b" "/etc/passwd")
  = inr "/host/etc/passwd".
Proof.
  pose proof (ensure_within_bundle_spec (plain_world (Some "/host"))
                "/work/b" "/etc/passwd") as (_ & Hhost & _).
  refine (proj1 (proj2 (Hhost _ "/host" _)) _ _).
  - apply within_false_iff. reflexivity.
  - split; [reflexivity | discriminate].
  - apply within_false_iff. reflexivity.
  - apply within_iff. reflexivity.
Defined.

(** ** The JSON round trip on the JSON domain *)


Lemma json_roundtrip_stuck d :
  fold_left
    (fun acc (kv : pykey * pyval) =>
       match acc, json_key (fst kv), json_roundtrip (snd kv) with
       | Some r, Some k, Some e => Some (dict_set k e r)
       | _, _, _ => None
       end) d None = None.
Proof. induction d as [|kv d IH]; simpl; [reflexivity | exact IH]. Qed.

(** On the JSON domain the round trip gives the value back, unless an
    [int] in it is too long, and then the encoder raises. *)
Lemma json_roundtrip_domain v :
  json_value v = true ->
  json_roundtrip v = if ints_fit v then Some v else None.
Proof.
  induction v as [| | |f| | |l IH|l IH|d IH|] using pyval_ind_nested;
    simpl; try reflexivity; try discriminate.
  - intros Hl.
    assert (G : fold_right
                  (fun entry acc =>
                     match json_roundtrip entry, acc with
                     | Some e, Some r => Some (e :: r)
                     | _, _ => None
                     end) (Some []) l
                = if forallb ints_fit l then Some l else None).
    { induction IH as [|x r Hx _ IHr]; simpl in *; [reflexivity|].
      apply andb_true_iff in Hl as [H1 H2]. rewrite (Hx H1), (IHr H2).
      destruct (ints_fit x); simpl; [|reflexivity].
      now destruct (forallb ints_fit r). }
    rewrite G. now destruct (forallb ints_fit l).
  - intros [Hd Hu]%andb_true_iff.
    assert (G : forall acc, dict_uniq (acc ++ d) = true ->
      fold_left
        (fun acc kv =>
           match acc, json_key (fst kv), json_roundtrip (snd kv) with
           | Some r, Some k, Some e => Some (dict_set k e r)
           | _, _, _ => None
           end) d (Some acc)
      = if forallb (fun kv => key_fits (fst kv) && ints_fit (snd kv)) d
        then Some (acc ++ d) else None).
    { clear Hu. induction IH as [|[k x] r Hx _ IHr]; intros acc Hacc; simpl.
      - now rewrite app_nil_r.
      - simpl in Hd. apply andb_true_iff in Hd as [H1 H2].
        apply andb_true_iff in H1 as [Hk H1].
        destruct k; try discriminate. simpl in *.
        rewrite (Hx H1). destruct (ints_fit x); simpl;
          [|apply json_roundtrip_stuck].
        rewrite (dict_set_fresh s x acc (dict_uniq_app_head acc s x r Hacc)).
        rewrite (IHr H2); now rewrite <- app_assoc. }
    rewrite (G [] Hu). cbn [app].
    destruct (forallb (fun kv => key_fits (fst kv) && ints_fit (snd kv)) d);
      reflexivity.
Qed.

Lemma json_roundtrip_fits v :
  json_value v = true -> ints_fit v = true -> json_roundtrip v = Some v.
Proof. intros H F. now rewrite (json_roundtrip_domain v H), F. Qed.

(** The least [int] that is too long is too long. *)
Lemma too_long_int_fits : int_fits too_long_int = false.
Proof.
  unfold int_fits, too_long_int. rewrite Zabs2N.id.
  rewrite DecimalN.Unsigned.to_of.
  change (Decimal.unorm
            (Decimal.D1
               (Nat.iter int_max_str_digits Decimal.D0 Decimal.Nil)))
    with (Decimal.D1 (Nat.iter int_max_str_digits Decimal.D0 Decimal.Nil)).
  cbn [Decimal.nb_digits].
  rewrite (DecimalFacts.nb_digits_iter_D0 int_max_str_digits Decimal.Nil).
  cbn [Decimal.nb_digits]. rewrite Nat.add_0_r.
  apply Nat.leb_gt. apply Nat.lt_succ_diag_r.
Qed.

Example scenario_S1 :
  result_payload (PDict [(KStr "ok", PBool true); (KStr "n", PInt 3);
                         (KStr "bad", PFloat nan)])
  = inr (PDict [(KStr "ok", PBool true); (KStr "n", PInt 3)]).
Proof. reflexivity. Qed.

Example scenario_S6 :
  result_payload (PDict [(KInt 1, PStr "a");
                         (KStr "k", PList [PFloat infinity; PInt 2])])
  = inr (PDict [(KStr "k", PList [PInt 2])]).
Proof. reflexivity. Qed.

(** ** The file-system guard without the [fs] capability *)

(** A wrapped [os] or [shutil] function denies before anything else. *)
Lemma wrapper_denies_first w bundle_dir module_name name indexes kw_names
    args kwargs :
  wrapper w bundle_dir false module_name name indexes kw_names args kwargs
  = ([], inl fs_denied).
Proof. reflexivity. Qed.

(** So does [open] on a descriptor. *)
Lemma guarded_open_descriptor_denied w bundle_dir file args kwargs :
  is_int file = true ->
  guarded_open w bundle_dir false file args kwargs = ([], inl fs_denied).
Proof. intros H. unfold guarded_open. now rewrite H. Qed.

(** [open] on a [str] path ends in a permission error and never reaches
    the original [open]; which of the two permission errors it is depends
    on where the path resolves. *)
Lemma guarded_open_str_denied w bundle_dir p args kwargs :
  let r := guarded_open w bundle_dir false (PStr p) args kwargs in
  (outcome r = inl fs_denied \/ outcome r = inl outside_bundle)
  /\ existsb calls_original (trace r) = false.
Proof.
  unfold guarded_open, normalize_path_argument, ensure_within_bundle_with,
    realpath, getcwd, called, raise, outcome, trace; simpl.
  repeat match goal with
         | |- context [if ?b then _ else _] => destruct b; simpl
         | |- context [match os_environ ?w ?n with _ => _ end] =>
             destruct (os_environ w n); simpl
         end; auto.
Qed.

(** Every function of the two tables is wrapped, so each denies first. *)
Lemma guarded_call_denied w bundle_dir module_name name args kwargs :
  (module_name = "os" /\ name ∈ map fst path_methods)
  \/ (module_name = "shutil" /\ name ∈ map fst shutil_methods) ->
  guarded_call w bundle_dir false module_name name args kwargs
  = ([], inl fs_denied).
Proof.
  intros [[-> H]|[-> H]]; simpl in H;
    repeat (apply elem_of_cons in H as [->|H]; [reflexivity|]);
    inversion H.
Qed.

(** Scenario S2: without capabilities, [open("./a.txt", "w")] raises the
    permission error of the missing capability. *)
Example scenario_S2 :
  outcome (guarded_open (plain_world None) "/work/b" false (PStr "./a.txt")
             [PStr "w"] [])
  = inl fs_denied.
Proof. reflexivity. Qed.

(** Scenario S3: with the bundle at [/work/b] and no host root, the
    resolver refuses [/etc/passwd] with its permission error.  With [fs]
    granted, [open("/etc/passwd")] does not get that far: resolving the
    bundle directory asks [os.lstat], which is rebound by then, and the
    call ends in [RecursionError].  The original [open] is not reached
    either way. *)
Example scenario_S3 :
  ensure_within_bundle (plain_world None) "/work/b" "/etc/passwd"
  = ([OsRealpath "/work/b"; OsRealpath "/etc/passwd"], inl outside_bundle)
  /\ guarded_open (plain_world None) "/work/b" true (PStr "/etc/passwd") [] []
     = ([OsRealpath "/work/b"], inl RecursionError).
Proof. split; reflexivity. Qed.

(** C2, at the inputs where the guard of [open] departs from it: without
    the [fs] capability, [open("a.txt", "w")] asks for the working
    directory and resolves three paths before it raises the permission
    error, and [open(b"a.txt")] raises a [TypeError], not a permission
    error. *)
Theorem guarded_open_resolves_before_denying :
  guarded_open (plain_world None) "/work/b" false (PStr "a.txt") [PStr "w"] []
  = ([OsGetcwd; OsRealpath "/work/b/a.txt"; OsRealpath "/work/b";
      OsRealpath "/work/b/a.txt"],
     inl fs_denied)
  /\ guarded_open (plain_world None) "/work/b" false (PBytes "a.txt") [] []
     = ([OsGetcwd],
        inl (TypeError "Can't mix strings and bytes in path components")).
Proof. split; reflexivity. Qed.

(** ** Failing the pending requests *)

Lemma set_exception_fields future e s :
  pending_requests (set_exception_unless_done future e s) = pending_requests s
  /\ cancel_reason (set_exception_unless_done future e s) = cancel_reason s
  /\ handler_task (set_exception_unless_done future e s) = handler_task s
  /\ stdout (set_exception_unless_done future e s) = stdout s.
Proof. unfold set_exception_unless_done. now destruct (done future s). Qed.

Lemma set_exception_lookup future e s f :
  futures (set_exception_unless_done future e s) !! f
  = if decide (f = future) then
      (if done future s then futures s !! f else Some (FException e))
    else futures s !! f.
Proof.
  unfold set_exception_unless_done.
  destruct (done future s) eqn:D; simpl.
  - now destruct (decide (f = future)).
  - destruct (decide (f = future)) as [->|Hne].
    + apply lookup_insert_eq.
    + now apply lookup_insert_ne.
Qed.

Lemma done_true_iff f s :
  done f s = true <-> exists st, futures s !! f = Some st /\ st <> FPending.
Proof.
  unfold done. destruct (futures s !! f) as [[]|]; split;
    try discriminate; try reflexivity;
    try (intros _; eexists; split; [reflexivity | discriminate]);
    intros (st & [= <-] & H); congruence.
Qed.

Lemma fail_all_fields e items s :
  pending_requests (fail_all e items s) = pending_requests s
  /\ cancel_reason (fail_all e items s) = cancel_reason s
  /\ handler_task (fail_all e items s) = handler_task s
  /\ stdout (fail_all e items s) = stdout s.
Proof.
  revert s. induction items as [|a r IH]; intros s; simpl; [tauto|].
  destruct (IH (set_exception_unless_done (snd (snd a)) e s)) as (-> & -> & -> & ->).
  apply set_exception_fields.
Qed.

Lemma fail_all_done_stable e items s f :
  done f s = true -> futures (fail_all e items s) !! f = futures s !! f.
Proof.
  revert s. induction items as [|a r IH]; intros s D; simpl; [reflexivity|].
  assert (L : futures (set_exception_unless_done (snd (snd a)) e s) !! f
              = futures s !! f).
  { rewrite set_exception_lookup.
    destruct (decide (f = (snd (snd a)))) as [<-|]; [now rewrite D | reflexivity]. }
  rewrite IH; [exact L|]. unfold done in *. now rewrite L.
Qed.

Lemma fail_all_not_target e items s f :
  f ∉ map (fun item => snd (snd item)) items ->
  futures (fail_all e items s) !! f = futures s !! f.
Proof.
  revert s. induction items as [|a r IH]; intros s Hf; simpl; [reflexivity|].
  simpl in Hf. apply not_elem_of_cons in Hf as [Hne Hf].
  rewrite (IH _ Hf), set_exception_lookup.
  now destruct (decide (f = (snd (snd a)))).
Qed.

Lemma fail_all_target e items s f :
  f ∈ map (fun item => snd (snd item)) items ->
  done f s = false ->
  futures (fail_all e items s) !! f = Some (FException e).
Proof.
  revert s. induction items as [|a r IH]; intros s Hf D; simpl.
  - inversion Hf.
  - simpl in Hf.
    destruct (decide (f = snd (snd a))) as [Heq|Hne].
    + rewrite fail_all_done_stable.
      * rewrite set_exception_lookup, <- Heq, D.
        now destruct (decide (f = f)).
      * apply done_true_iff. exists (FException e).
        split; [|discriminate].
        rewrite set_exception_lookup, <- Heq, D.
        now destruct (decide (f = f)).
    + apply elem_of_cons in Hf as [?|Hf]; [contradiction|].
      apply IH; [exact Hf|].
      unfold done in *. rewrite set_exception_lookup.
      now destruct (decide (f = (snd (snd a)))).
Qed.

(** What [fail_pending] leaves behind: an empty table, every future of the
    table that was not done failed with [e], every other future as it was,
    and nothing written. *)
Lemma fail_pending_spec e s :
  let s' := fail_pending e s in
  pending_requests s' = ∅
  /\ stdout s' = stdout s
  /\ cancel_reason s' = cancel_reason s
  /\ handler_task s' = handler_task s
  /\ (forall rid kind f,
        pending_requests s !! rid = Some (kind, f) -> done f s = false ->
        futures s' !! f = Some (FException e))
  /\ (forall f, done f s = true -> futures s' !! f = futures s !! f)
  /\ (forall f,
        (forall rid kind, pending_requests s !! rid <> Some (kind, f)) ->
        futures s' !! f = futures s !! f).
Proof.
  unfold fail_pending; simpl.
  destruct (fail_all_fields e (map_to_list (pending_requests s)) s)
    as (_ & Hc & Hh & Ho).
  repeat split; trivial.
  - intros rid kind f Hin D. apply fail_all_target; [|exact D].
    apply list_elem_of_fmap. exists (rid, (kind, f)). split; [reflexivity|].
    now apply elem_of_map_to_list.
  - intros f D. now apply fail_all_done_stable.
  - intros f Hno. apply fail_all_not_target.
    intros ([rid [kind f']] & Heq & Hin)%list_elem_of_fmap. simpl in Heq. subst f'.
    apply elem_of_map_to_list in Hin. exact (Hno rid kind Hin).
Qed.

(** ** How execute_start ends *)












(** ** JobContext.update *)

Lemma normalize_updates_blocks updates :
  normalize_updates updates
  = copy_into "timeoutMs" updates
      (convert_into "context" updates
         (convert_into "metrics" updates
            (copy_into "logsUrl" updates
               (convert_into "parameters" updates [])))).
Proof. reflexivity. Qed.

Lemma dict_get_set {V} k k' (v : V) d :
  dict_get k' (dict_set k v d) = if String.eqb k k' then Some v else dict_get k' d.
Proof.
  destruct (String.eqb_spec k k') as [->|Hne].
  - apply dict_get_set_eq.
  - now apply dict_get_set_ne.
Qed.

Lemma dict_get_convert_into k0 updates result k :
  dict_get k (convert_into k0 updates result)
  = if String.eqb k0 k && dict_has k0 updates
       && negb (is_unsupported (to_json_value (py_get k0 updates)))
    then Some (to_json_value (py_get k0 updates))
    else dict_get k result.
Proof.
  unfold convert_into.
  destruct (dict_has k0 updates); [|now rewrite andb_false_r].
  destruct (is_unsupported _); simpl; [now rewrite andb_false_r|].
  rewrite dict_get_set. now rewrite !andb_true_r.
Qed.

Lemma dict_get_copy_into k0 updates result k :
  dict_get k (copy_into k0 updates result)
  = if String.eqb k0 k && dict_has k0 updates then Some (py_get k0 updates)
    else dict_get k result.
Proof.
  unfold copy_into.
  destruct (dict_has k0 updates); [|now rewrite andb_false_r].
  rewrite dict_get_set. now rewrite andb_true_r.
Qed.



Lemma normalize_updates_get updates k :
  dict_get k (normalize_updates updates)
  = if converted_key k then
      if dict_has k updates
         && negb (is_unsupported (to_json_value (py_get k updates)))
      then Some (to_json_value (py_get k updates)) else None
    else if copied_key k then
      if dict_has k updates then Some (py_get k updates) else None
    else None.
Proof.
  rewrite normalize_updates_blocks.
  repeat (rewrite dict_get_copy_into || rewrite dict_get_convert_into).
  unfold converted_key, copied_key. simpl dict_get.
  destruct (String.eqb_spec "timeoutMs" k) as [<-|H1]; [simpl; now destruct (dict_has _ _)|].
  destruct (String.eqb_spec "context" k) as [<-|H2]; [simpl; now destruct (dict_has _ _)|].
  destruct (String.eqb_spec "metrics" k) as [<-|H3]; [simpl; now destruct (dict_has _ _)|].
  destruct (String.eqb_spec "logsUrl" k) as [<-|H4]; [simpl; now destruct (dict_has _ _)|].
  destruct (String.eqb_spec "parameters" k) as [<-|H5]; [simpl; now destruct (dict_has _ _)|].
  simpl.
  repeat match goal with
         | |- context [String.eqb k ?lit] =>
             destruct (String.eqb_spec k lit); [congruence|]
         end.
  reflexivity.
Qed.

Lemma dict_has_cons {V} k k' (v : V) d :
  dict_has k ((k', v) :: d) = key_is k k' || dict_has k d.
Proof. unfold dict_has. simpl. now destruct (key_is k k'). Qed.

Lemma dict_has_false_get {V} k (d : list (pykey * V)) :
  dict_has k d = false -> dict_get k d = None.
Proof. unfold dict_has. now destruct (dict_get k d). Qed.









(** ** Resolving the handler *)

Lemma bind_outcome_inr {A B} (m : Os A) (f : A -> Os B) x :
  outcome m = inr x ->
  m ≫= f = (trace m ++ trace (f x), outcome (f x)).
Proof.
  destruct m as [t r]. unfold outcome, trace. simpl. intros ->.
  unfold mbind, Os_bind. now destruct (f x).
Qed.

Lemma bind_outcome_inl {A B} (m : Os A) (f : A -> Os B) e :
  outcome m = inl e -> m ≫= f = (trace m, inl e).
Proof.
  destruct m as [t r]. unfold outcome, trace. simpl. now intros ->.
Qed.

Lemma quiet_ret {A} P (x : A) : quiet P (mret x : Os A).
Proof. reflexivity. Qed.

Lemma quiet_raise {A} P e : quiet P (raise e : Os A).
Proof. reflexivity. Qed.

Lemma quiet_lift {A} P (r : pyexn + A) : quiet P (lift r).
Proof. reflexivity. Qed.

Lemma quiet_called {A} (P : oscall -> bool) c (x : A) :
  P c = false -> quiet P (called c x).
Proof. unfold quiet, called, trace. simpl. now intros ->. Qed.

Lemma quiet_bind {A B} P (m : Os A) (f : A -> Os B) :
  quiet P m -> (forall x, quiet P (f x)) -> quiet P (m ≫= f).
Proof.
  unfold quiet, trace. destruct m as [t [e|x]]; simpl; [easy|].
  intros Hm Hf. specialize (Hf x). destruct (f x) as [t' r]. simpl in *.
  now rewrite existsb_app, Hm, Hf.
Qed.

Ltac solve_quiet :=
  repeat first
    [ apply quiet_ret | apply quiet_raise | apply quiet_lift
    | apply quiet_called; reflexivity
    | apply quiet_bind; [|intros ?]
    | match goal with
      | |- quiet _ (if ?b then _ else _) => destruct b
      | |- quiet _ (match ?x with _ => _ end) => destruct x
      end ].

Lemma ensure_within_bundle_quiet P w bundle_dir candidate :
  (forall p, P (OsRealpath p) = false) ->
  quiet P (ensure_within_bundle w bundle_dir candidate).
Proof.
  intros HP. unfold ensure_within_bundle, ensure_within_bundle_with, realpath.
  repeat first
    [ apply quiet_ret | apply quiet_raise | apply quiet_called; apply HP
    | apply quiet_bind; [|intros ?]
    | match goal with
      | |- quiet _ (if ?b then _ else _) => destruct b
      | |- quiet _ (match ?x with _ => _ end) => destruct x
      end ].
Qed.

Lemma execute_start_load_quiet w payload :
  quiet calls_handler (execute_start_load w payload).
Proof.
  unfold execute_start_load.
  apply quiet_bind; [unfold realpath; solve_quiet | intros entry_file].
  apply quiet_bind; [now apply ensure_within_bundle_quiet | intros _].
  apply quiet_bind; [unfold publish_workflow_context; solve_quiet | intros _].
  apply quiet_bind; [reflexivity | intros _].
  apply quiet_bind; [reflexivity | intros _].
  apply quiet_bind; [|intros module; apply quiet_ret].
  unfold load_entry. destruct (negb _); [apply quiet_raise | reflexivity].
Qed.

(** C10. When [exportName] is a non-empty string naming an attribute of the
    loaded entry module that is not callable, the handler lookup fails with
    "Bundle entry did not export a callable handler": [execute_start] raises
    it and the handler is never called, whatever else the module offers (a
    callable [handler], a callable module, a callable [default]). *)
Theorem export_name_not_callable_is_fatal
    (w : os_world) (uuid : string) (h : handler_run) (payload : start_payload)
    (s : rt_state) (name : string) (a : pyattr) (allow_fs : bool)
    (module : pymodule) :
  exportName (payload_bundle payload) = PStr name ->
  name <> EmptyString ->
  outcome (execute_start_load w payload) = inr (allow_fs, module) ->
  getattr name (mod_attrs module) = Some a ->
  attr_callable a = false ->
  resolve_handler (PStr name) module = inl no_callable_handler
  /\ snd (execute_start w uuid h payload s) = (s, Some no_callable_handler)
  /\ existsb calls_handler (fst (execute_start w uuid h payload s)) = false.
Proof.
  intros Hname Hne Hload Hattr Hcall.
  assert (Hres : resolve_handler (PStr name) module = inl no_callable_handler).
  { unfold resolve_handler, find_handler. simpl.
    destruct (String.eqb_spec name EmptyString) as [|_]; [contradiction|].
    simpl. rewrite Hattr. simpl. now rewrite Hcall. }
  split; [exact Hres|].
  unfold execute_start, execute_start_setup.
  rewrite (bind_outcome_inr _ _ _ Hload). simpl. rewrite Hname, Hres. simpl.
  split; [reflexivity|].
  rewrite app_nil_r. apply execute_start_load_quiet.
Qed.

(** A module whose [main] is data, with a callable [handler], a callable
    [default] and callable itself: asking for [main] is fatal. *)
Lemma export_name_not_callable_is_fatal_witness :
  snd (execute_start (world_with_module None module_with_data_main) "uuid"
         returns_none (payload_for "/work/b/main.py" (PStr "main"))
         initial_state)
  = (initial_state, Some no_callable_handler).
Proof.
  refine (proj1 (proj2 (export_name_not_callable_is_fatal
            (world_with_module None module_with_data_main) "uuid" returns_none
            (payload_for "/work/b/main.py" (PStr "main")) initial_state
            "main" {| attr_id := 1; attr_callable := false |} false
            module_with_data_main _ _ _ _ _)));
    try reflexivity.
  discriminate.
Defined.

(** ** The entry file *)

(** C8, as the code has it.  With [r] and [c] the real paths of the bundle
    directory and of the entry file: if [c] is neither [r] nor below it, and
    the host-root rules of the resolver do not accept it either (no host
    root is configured, or [c] and its translation both fall outside the
    host root), then [execute_start] raises the permission error, the entry
    module is never loaded and the handler is never called. *)
Theorem entry_outside_is_fatal
    (w : os_world) (uuid : string) (h : handler_run) (payload : start_payload)
    (s : rt_state) :
  let b := payload_bundle payload in
  let r := os_realpath w (directory b) in
  let c := os_realpath w (entryFile b) in
  os_realpath w c = c ->
  ~ is_or_under r c ->
  (no_host_root w
   \/ exists hr, host_root_configured w hr
        /\ ~ is_or_under (os_realpath w hr) c
        /\ ~ is_or_under (os_realpath w hr)
               (os_realpath w
                  (path_join (os_realpath w hr) (os_relpath w c sep)))) ->
  snd (execute_start w uuid h payload s) = (s, Some outside_bundle)
  /\ existsb runs_bundle_code (fst (execute_start w uuid h payload s)) = false.
Proof.
  intros b r c Hidem Hout Hhost.
  assert (Hdeny : outcome (ensure_within_bundle w (directory b) c)
                  = inl outside_bundle).
  { rewrite ensure_within_bundle_outcome. cbv zeta. fold r. rewrite Hidem.
    apply within_false_iff in Hout. rewrite Hout.
    destruct Hhost as [[-> | ->] | (hr & [-> Hne] & H1 & H2)]; try reflexivity.
    apply within_false_iff in H1, H2. rewrite H1, H2.
    now destruct (String.eqb hr EmptyString). }
  assert (Hload : execute_start_load w payload
                  = (OsRealpath (entryFile b)
                       :: trace (ensure_within_bundle w (directory b) c),
                     inl outside_bundle)).
  { unfold execute_start_load. fold b. unfold realpath at 1, called.
    unfold mbind at 1, Os_bind at 1. fold c.
    rewrite (bind_outcome_inl _ _ _ Hdeny). reflexivity. }
  unfold execute_start, execute_start_setup.
  rewrite Hload. simpl. split; [reflexivity|].
  apply (ensure_within_bundle_quiet runs_bundle_code). reflexivity.
Qed.

(** No host root: an entry file outside the bundle stops the start. *)
Lemma entry_outside_is_fatal_witness :
  snd (execute_start (plain_world None) "uuid" returns_none
         (payload_for "/tmp/main.py" PNone) initial_state)
  = (initial_state, Some outside_bundle).
Proof.
  refine (proj1 (entry_outside_is_fatal (plain_world None) "uuid" returns_none
                   (payload_for "/tmp/main.py" PNone) initial_state _ _ _)).
  - reflexivity.
  - apply within_false_iff. reflexivity.
  - left. left. reflexivity.
Defined.

(** C8 as stated fails: with the host root [/host] configured, the entry
    file [/host/shared/main.py] is not below the bundle [/work/b], and the
    entry module is loaded from it and the handler is called. *)
Lemma entry_outside_counterexample :
  let w := plain_world (Some "/host") in
  let payload := payload_for "/host/shared/main.py" PNone in
  let run := execute_start w "uuid" returns_none payload initial_state in
  ~ is_or_under (os_realpath w (directory (payload_bundle payload)))
      (os_realpath w (entryFile (payload_bundle payload)))
  /\ OsExecModule "/host/shared/main.py" ∈ fst run
  /\ existsb calls_handler (fst run) = true
  /\ snd (snd run) = None.
Proof.
  split; [apply within_false_iff; reflexivity|].
  split; [|split; reflexivity].
  apply list_elem_of_In.
  change (In (OsExecModule "/host/shared/main.py")
            [OsRealpath "/host/shared/main.py"; OsRealpath "/work/b";
             OsRealpath "/host/shared/main.py"; OsRealpath "/host";
             OsChdir "/work/b"; OsInstallDependencies "/work/b";
             OsExecModule "/host/shared/main.py";
             OsCallHandler (HAttr {| attr_id := 1; attr_callable := true |})]).
  simpl. tauto.
Qed.

(** ** The pending-request table *)

Lemma table_wf_empty s : pending_requests s = ∅ -> table_wf s.
Proof.
  intros H. split; intros *; rewrite H, lookup_empty; discriminate.
Qed.

Lemma create_future_spec s :
  let f := fst (create_future s) in
  let s' := snd (create_future s) in
  futures s !! f = None
  /\ futures s' = <[f := FPending]> (futures s)
  /\ pending_requests s' = pending_requests s
  /\ stdout s' = stdout s.
Proof.
  simpl. repeat split. apply not_elem_of_dom, is_fresh.
Qed.

(** A request that is put in the table with a new future. *)
Lemma register_wf rid kind s :
  table_wf s ->
  let f := fst (create_future s) in
  let s' := set_pending_requests
              (<[rid := (kind, f)]> (pending_requests (snd (create_future s))))
              (snd (create_future s)) in
  table_wf s' /\ registered rid kind f s' /\ futures s !! f = None.
Proof.
  intros [Hex Hinj] f s'.
  destruct (create_future_spec s) as (Hnew & Hfut & Htab & _). fold f in Hnew, Hfut.
  assert (Hfresh : forall r k, pending_requests s !! r <> Some (k, f)).
  { intros r k H. apply Hex in H as [st H]. congruence. }
  split; [split|split].
  - intros r k g. subst s'. simpl.
    destruct (decide (rid = r)) as [->|Hne].
    + rewrite lookup_insert_eq. intros [= <- <-]. now rewrite lookup_insert_eq.
    + rewrite lookup_insert_ne by exact Hne. intros H.
      destruct (decide (f = g)) as [<-|Hfg]; [now rewrite lookup_insert_eq|].
      rewrite lookup_insert_ne by exact Hfg. exact (Hex r k g H).
  - intros r1 r2 k1 k2 g. subst s'. simpl.
    destruct (decide (rid = r1)) as [<-|H1], (decide (rid = r2)) as [<-|H2];
      rewrite ?lookup_insert_eq, ?lookup_insert_ne by assumption; trivial.
    + intros [= <- <-] H. now apply Hfresh in H.
    + intros H [= <- <-]. now apply Hfresh in H.
    + apply Hinj.
  - split; subst s'; simpl; now rewrite lookup_insert_eq.
  - exact Hnew.
Qed.

Lemma update_request_registers rid updates s s' :
  table_wf s -> update_request rid updates s = inr s' ->
  table_wf s'
  /\ exists f, registered rid "update" f s' /\ futures s !! f = None.
Proof.
  intros Hwf. unfold update_request.
  destruct (sanitize_for_ipc _) as [e|sanitized]; [discriminate|].
  destruct (register_wf rid "update" s Hwf) as (H1 & H2 & H3).
  destruct (create_future s) as [f s1] eqn:E. simpl in *.
  intros [= <-]. split; [exact H1|]. exists f. now split.
Qed.

Lemma resolve_secret_request_registers rid reference s :
  table_wf s ->
  let s' := fst (resolve_secret_request rid reference s) in
  table_wf s'
  /\ exists f, registered rid "resolve-secret" f s' /\ futures s !! f = None.
Proof.
  intros Hwf. unfold resolve_secret_request.
  destruct (register_wf rid "resolve-secret" s Hwf) as (H1 & H2 & H3).
  destruct (create_future s) as [f s1] eqn:E. simpl in *.
  destruct (sanitize_for_ipc reference); simpl;
    (split; [exact H1|]; exists f; now split).
Qed.

Lemma table_empty_spec s :
  table_empty s = true <-> pending_requests s = ∅.
Proof.
  unfold table_empty. rewrite Nat.eqb_eq. apply map_size_empty_iff.
Qed.

Lemma table_empty_lookup s rid pending :
  pending_requests s !! rid = Some pending -> table_empty s = false.
Proof.
  intros H. destruct (table_empty s) eqn:E; [|reflexivity].
  apply table_empty_spec in E. rewrite E, lookup_empty in H. discriminate.
Qed.

Lemma pop_pending_spec request_id s :
  match pop_pending request_id s with
  | inl _ => hashable request_id = false /\ table_empty s = false
  | inr (None, s') =>
      s' = s /\ forall rid, request_id = PStr rid -> pending_requests s !! rid = None
  | inr (Some (kind, f), s') =>
      exists rid, request_id = PStr rid
                  /\ pending_requests s !! rid = Some (kind, f)
                  /\ s' = set_pending_requests (delete rid (pending_requests s)) s
  end.
Proof.
  unfold pop_pending. destruct (table_empty s) eqn:T.
  { split; [reflexivity|]. intros rid _. apply table_empty_spec in T.
    now rewrite T, lookup_empty. }
  destruct (hashable request_id) eqn:H; simpl; [|now split].
  destruct request_id; try (split; [reflexivity | intros ?; discriminate]).
  destruct (pending_requests s !! s0) as [[kind f]|] eqn:E.
  - exists s0. now repeat split.
  - split; [reflexivity|]. now intros rid [= <-].
Qed.

Lemma pop_pending_registered rid kind f s :
  pending_requests s !! rid = Some (kind, f) ->
  pop_pending (PStr rid) s
  = inr (Some (kind, f),
         set_pending_requests (delete rid (pending_requests s)) s).
Proof.
  intros H. unfold pop_pending.
  rewrite (table_empty_lookup s rid _ H). simpl. now rewrite H.
Qed.

Lemma pop_pending_unknown rid s :
  pending_requests s !! rid = None -> pop_pending (PStr rid) s = inr (None, s).
Proof.
  intros H. unfold pop_pending. destruct (table_empty s); [reflexivity|].
  simpl. now rewrite H.
Qed.

(** *** Cancelling the handler task *)

Lemma cancel_future_spec future s :
  let s' := cancel_future future s in
  pending_requests s' = pending_requests s
  /\ stdout s' = stdout s
  /\ cancel_reason s' = cancel_reason s
  /\ handler_task s' = handler_task s
  /\ handler_waiters s' = handler_waiters s
  /\ (futures s !! future = Some FPending ->
      futures s' !! future = Some FCancelled)
  /\ forall f, futures s' !! f = futures s !! f
               \/ (f = future /\ futures s !! f = Some FPending
                   /\ futures s' !! f = Some FCancelled).
Proof.
  unfold cancel_future.
  destruct (futures s !! future) as [[]|] eqn:E; simpl;
    repeat split; auto; try discriminate.
  - intros _. apply lookup_insert_eq.
  - intros f. destruct (decide (f = future)) as [->|Hne].
    + right. now rewrite lookup_insert_eq.
    + left. now apply lookup_insert_ne.
Qed.

Lemma cancel_futures_spec waiters s :
  let s' := fold_left (fun s future => cancel_future future s) waiters s in
  pending_requests s' = pending_requests s
  /\ stdout s' = stdout s
  /\ cancel_reason s' = cancel_reason s
  /\ handler_task s' = handler_task s
  /\ handler_waiters s' = handler_waiters s
  /\ (forall f, f ∈ waiters -> futures s !! f = Some FPending ->
                futures s' !! f = Some FCancelled)
  /\ forall f, futures s' !! f = futures s !! f
               \/ (f ∈ waiters /\ futures s !! f = Some FPending
                   /\ futures s' !! f = Some FCancelled).
Proof.
  revert s. induction waiters as [|w ws IH]; intros s; simpl.
  { repeat split; auto. intros f Hin. now apply elem_of_nil in Hin. }
  destruct (cancel_future_spec w s) as (H1 & H2 & H3 & H4 & H5 & H6 & H7).
  destruct (IH (cancel_future w s)) as (I1 & I2 & I3 & I4 & I5 & I6 & I7).
  assert (Hall : forall f,
            futures (fold_left (fun s future => cancel_future future s) ws
                       (cancel_future w s)) !! f = futures s !! f
            \/ (f ∈ w :: ws /\ futures s !! f = Some FPending
                /\ futures (fold_left (fun s future => cancel_future future s)
                              ws (cancel_future w s)) !! f
                   = Some FCancelled)).
  { intros f. destruct (I7 f) as [E|(Hin & Hp & Hc)], (H7 f) as [E'|(-> & Hp' & Hc')].
    - left. congruence.
    - right. split; [apply list_elem_of_here|]. split; [exact Hp'|]. congruence.
    - right. split; [now apply list_elem_of_further|]. split; congruence.
    - congruence. }
  split; [congruence|]. split; [congruence|]. split; [congruence|].
  split; [congruence|]. split; [congruence|]. split; [|exact Hall].
  intros f Hin Hp. destruct (Hall f) as [E|(_ & _ & Hc)]; [|exact Hc].
  apply elem_of_cons in Hin as [->|Hin].
  - specialize (H6 Hp).
    destruct (I7 w) as [E'|(_ & Hp' & _)]; congruence.
  - destruct (H7 f) as [E'|(-> & _ & Hc')].
    + rewrite <- E' in Hp. exact (I6 f Hin Hp).
    + destruct (I7 w) as [E'|(_ & Hp' & _)]; congruence.
Qed.

Lemma cancel_handler_task_spec s :
  let s' := cancel_handler_task s in
  pending_requests s' = pending_requests s
  /\ stdout s' = stdout s
  /\ cancel_reason s' = cancel_reason s
  /\ handler_task s' = Some true
  /\ handler_waiters s' = handler_waiters s
  /\ (forall f, f ∈ handler_waiters s -> futures s !! f = Some FPending ->
                futures s' !! f = Some FCancelled)
  /\ forall f, futures s' !! f = futures s !! f
               \/ (f ∈ handler_waiters s /\ futures s !! f = Some FPending
                   /\ futures s' !! f = Some FCancelled).
Proof.
  unfold cancel_handler_task.
  destruct (cancel_futures_spec (handler_waiters s) s)
    as (H1 & H2 & H3 & H4 & H5 & H6 & H7).
  simpl. repeat split; assumption.
Qed.

Lemma set_result_effect rid kind f v s :
  pending_requests s !! rid = Some (kind, f) ->
  effect [] s (set_result_unless_done f v
              (set_pending_requests (delete rid (pending_requests s)) s)).
Proof.
  intros H. apply (effect_respond _ _ _ rid kind f (FResult v)); trivial.
  - unfold set_result_unless_done. now destruct (done f _).
  - discriminate.
  - unfold set_result_unless_done.
    change (done f (set_pending_requests _ s)) with (done f s).
    now destruct (done f s).
Qed.

Lemma set_exception_effect rid kind f e s :
  pending_requests s !! rid = Some (kind, f) ->
  effect [] s (set_exception_unless_done f e
              (set_pending_requests (delete rid (pending_requests s)) s)).
Proof.
  intros H. apply (effect_respond _ _ _ rid kind f (FException e)); trivial.
  - unfold set_exception_unless_done. now destruct (done f _).
  - discriminate.
  - unfold set_exception_unless_done.
    change (done f (set_pending_requests _ s)) with (done f s).
    now destruct (done f s).
Qed.

Lemma handle_parent_message_effect message s :
  effect [] s (fst (handle_parent_message message s)).
Proof.
  unfold handle_parent_message.
  destruct (py_eq_str (py_get "type" message) "update-response").
  { pose proof (pop_pending_spec (py_get "requestId" message) s) as Hp.
    destruct (pop_pending _ s) as [e|[[[kind f]|] s1]]; simpl.
    - now apply effect_none.
    - destruct Hp as (rid & _ & Hin & ->).
      destruct (truthy _); simpl;
        [now apply (set_result_effect rid kind)
        | now apply (set_exception_effect rid kind)].
    - destruct Hp as [-> _]. now apply effect_none. }
  destruct (py_eq_str (py_get "type" message) "resolve-secret-response").
  { pose proof (pop_pending_spec (py_get "requestId" message) s) as Hp.
    destruct (pop_pending _ s) as [e|[[[kind f]|] s1]]; simpl.
    - now apply effect_none.
    - destruct Hp as (rid & _ & Hin & ->).
      destruct (truthy _); simpl;
        [now apply (set_result_effect rid kind)
        | now apply (set_exception_effect rid kind)].
    - destruct Hp as [-> _]. now apply effect_none. }
  destruct (py_eq_str (py_get "type" message) "cancel"); simpl;
    [|now apply effect_none].
  destruct (handler_task s); [|now apply effect_none].
  destruct (cancel_handler_task_spec
              (set_cancel_reason (py_get "reason" message) s))
    as (Ht & _ & _ & _ & _ & _ & Hf).
  apply effect_cancel; [exact Ht|]. intros f.
  destruct (Hf f) as [E|(_ & Hp & Hc)]; [left | right]; auto.
Qed.

Lemma log_fields task_id level message meta s :
  pending_requests (log task_id level message meta s) = pending_requests s
  /\ futures (log task_id level message meta s) = futures s.
Proof.
  unfold log, normalize_meta.
  destruct meta; simpl; try (now split);
    (destruct (sanitize_for_ipc _) as [e|r]; simpl; [now split|]);
    destruct r; simpl; now split.
Qed.

Lemma fail_pending_effect e s s0 :
  pending_requests s0 = pending_requests s -> futures s0 = futures s ->
  effect [] s (fail_pending e s0).
Proof.
  intros Ht Hf.
  assert (Hd : forall f, done f s0 = done f s).
  { intros f. unfold done. now rewrite Hf. }
  destruct (fail_pending_spec e s0) as (H1 & _ & _ & _ & H2 & H3 & H4).
  apply (effect_drain _ _ _ e); trivial.
  - intros rid kind f Hin D. rewrite <- Ht in Hin. rewrite <- Hd in D.
    exact (H2 rid kind f Hin D).
  - intros f D. rewrite <- Hd in D. rewrite <- Hf. exact (H3 f D).
  - intros f Hno. rewrite <- Hf. apply H4. now rewrite Ht.
Qed.

Lemma effect_same ids s s' s'' :
  pending_requests s'' = pending_requests s' -> futures s'' = futures s' ->
  effect ids s s' -> effect ids s s''.
Proof.
  intros Ht Hf
    [H1 H2|rid kind f H0 H1 H2 H3|rid kind f st H1 H2 H3 H4|H1 H2
    |e H1 H2 H3 H4].
  - apply effect_none; congruence.
  - apply (effect_register _ _ _ rid kind f); congruence.
  - apply (effect_respond _ _ _ rid kind f st); congruence.
  - apply effect_cancel; [congruence|]. intros f. rewrite Hf. apply H2.
  - apply (effect_drain _ _ _ e); try congruence.
    + intros rid kind f Hin D. rewrite Hf. exact (H2 rid kind f Hin D).
    + intros f D. rewrite Hf. exact (H3 f D).
    + intros f Hno. rewrite Hf. exact (H4 f Hno).
Qed.

Lemma effect_send ids s s' m :
  effect ids s s' -> effect ids s (send_message m s').
Proof. now apply effect_same. Qed.

Lemma finish_handler_effect task_id duration_ms usage tb o s :
  effect [] s (finish_handler task_id duration_ms usage tb o s).
Proof.
  assert (Hexc : forall t, effect [] s (on_exception task_id t s)).
  { intros t. unfold on_exception. apply effect_send.
    destruct (log_fields task_id "error" "Handler threw error"
                (obj [("error", PStr t)]) s) as [Ht Hf].
    now apply fail_pending_effect. }
  destruct o as [result| |t]; simpl.
  - destruct (result_payload result); [apply Hexc | now apply effect_none].
  - unfold on_cancelled. apply effect_send. now apply fail_pending_effect.
  - apply Hexc.
Qed.

Lemma apply_event_effect ev s :
  effect (issued_ids [ev]) s (apply_event ev s).
Proof.
  destruct ev as [rid updates|rid reference|waiters|message|f|task_id d u tb o];
    simpl.
  - unfold update_request.
    destruct (sanitize_for_ipc _); [now apply effect_none|].
    destruct (create_future_spec s) as (Hnew & Hfut & Htab & _).
    destruct (create_future s) as [f s1]. simpl in *.
    apply (effect_register _ _ _ rid "update" f); simpl;
      [apply list_elem_of_here | congruence..].
  - unfold resolve_secret_request.
    destruct (create_future_spec s) as (Hnew & Hfut & Htab & _).
    destruct (create_future s) as [f s1]. simpl in *.
    destruct (sanitize_for_ipc _); simpl;
      (apply (effect_register _ _ _ rid "resolve-secret" f); simpl;
       [apply list_elem_of_here | congruence..]).
  - now apply effect_none.
  - apply handle_parent_message_effect.
  - destruct (cancel_future_spec f s) as (Ht & _ & _ & _ & _ & _ & Hf).
    apply effect_cancel; [exact Ht|]. intros g.
    destruct (Hf g) as [E|(_ & Hp & Hc)]; [left | right]; auto.
  - apply (effect_same _ _ (finish_handler task_id d u tb o s));
      [reflexivity | reflexivity | apply finish_handler_effect].
Qed.

Lemma effect_wf ids s s' : effect ids s s' -> table_wf s -> table_wf s'.
Proof.
  intros [H1 H2|rid kind f H0 H1 H2 H3|rid kind f st H1 H2 H3 H4|H1 H2
         |e H1 H2 H3 H4] [Hex Hinj].
  - unfold table_wf. now rewrite H1, H2.
  - assert (Hfresh : forall r k, pending_requests s !! r <> Some (k, f)).
    { intros r k H. apply Hex in H as [st H]. congruence. }
    unfold table_wf. rewrite H2, H3. split.
    + intros r k g. destruct (decide (rid = r)) as [->|Hne].
      * rewrite lookup_insert_eq. intros [= <- <-]. now rewrite lookup_insert_eq.
      * rewrite lookup_insert_ne by exact Hne. intros H.
        apply lookup_insert_is_Some'. right. exact (Hex r k g H).
    + intros r1 r2 k1 k2 g.
      destruct (decide (rid = r1)) as [<-|E1], (decide (rid = r2)) as [<-|E2];
        rewrite ?lookup_insert_eq, ?lookup_insert_ne by assumption; trivial.
      * intros [= <- <-] H. now apply Hfresh in H.
      * intros H [= <- <-]. now apply Hfresh in H.
      * apply Hinj.
  - unfold table_wf. rewrite H2, H4. split.
    + intros r k g [_ H]%lookup_delete_Some. apply Hex in H.
      destruct (done f s); [exact H|]. apply lookup_insert_is_Some'. now right.
    + intros r1 r2 k1 k2 g [_ Ha]%lookup_delete_Some [_ Hb]%lookup_delete_Some.
      exact (Hinj r1 r2 k1 k2 g Ha Hb).
  - unfold table_wf. rewrite H1. split; [|exact Hinj].
    intros r k g H. apply Hex in H.
    destruct (H2 g) as [E|(_ & E)]; rewrite E; [exact H | eauto].
  - now apply table_wf_empty.
Qed.

Lemma effect_stable ids s s' f st :
  effect ids s s' -> futures s !! f = Some st -> st <> FPending ->
  futures s' !! f = Some st.
Proof.
  intros [H1 H2|rid kind g H0 H1 H2 H3|rid kind g st' H1 H2 H3 H4|H1 H2
         |e H1 H2 H3 H4] Hf Hst.
  - now rewrite H2.
  - rewrite H3, lookup_insert_ne; [exact Hf | congruence].
  - rewrite H4. destruct (done g s) eqn:D; [exact Hf|].
    rewrite lookup_insert_ne; [exact Hf|]. intros ->.
    assert (done f s = true) by (apply done_true_iff; eauto). congruence.
  - destruct (H2 f) as [E|(Hp & _)]; congruence.
  - rewrite H3; [exact Hf|]. apply done_true_iff. eauto.
Qed.

Lemma effect_tracked ids s s' rid kind f :
  effect ids s s' -> table_wf s -> rid ∉ ids ->
  tracked rid kind f s -> tracked rid kind f s'.
Proof.
  intros Heff [Hex Hinj] Hrid [[st Hst] Hin].
  assert (Hcase : st = FPending \/ st <> FPending)
    by (destruct st; auto; right; discriminate).
  destruct Hcase as [->|Hdone].
  2:{ pose proof (effect_stable ids s s' f st Heff Hst Hdone) as H.
      unfold tracked. rewrite H. split; [eauto|]. intros [= E]. contradiction. }
  specialize (Hin Hst).
  destruct Heff as [H1 H2|rid' kind' g H0 H1 H2 H3|rid' kind' g st' H1 H2 H3 H4
                   |H1 H2|e H1 H2 H3 H4]; unfold tracked.
  - rewrite H1, H2, Hst. split; [eauto | intros _; exact Hin].
  - assert (g <> f) by congruence. assert (rid' <> rid) by congruence.
    rewrite H2, H3, !lookup_insert_ne by assumption. rewrite Hst.
    split; [eauto | intros _; exact Hin].
  - destruct (decide (g = f)) as [->|Hne].
    + assert (D : done f s = false) by (unfold done; now rewrite Hst).
      rewrite D in H4. rewrite H4, lookup_insert_eq.
      split; [eauto | intros [= E]; congruence].
    + assert (rid' <> rid) by (intros ->; congruence).
      assert (E : futures s' !! f = Some FPending).
      { rewrite H4. destruct (done g s); [exact Hst|].
        now rewrite lookup_insert_ne. }
      rewrite E, H2, lookup_delete_ne by assumption.
      split; [eauto | intros _; exact Hin].
  - rewrite H1. destruct (H2 f) as [E|(_ & E)]; rewrite E.
    + rewrite Hst. split; [eauto | intros _; exact Hin].
    + split; [eauto | discriminate].
  - assert (D : done f s = false) by (unfold done; now rewrite Hst).
    rewrite (H2 rid kind f Hin D). split; [eauto | discriminate].
Qed.

Lemma issued_ids_cons ev evs :
  issued_ids (ev :: evs) = issued_ids [ev] ++ issued_ids evs.
Proof. destruct ev; reflexivity. Qed.

Lemma run_events_wf evs s : table_wf s -> table_wf (run_events evs s).
Proof.
  revert s. induction evs as [|ev evs IH]; intros s H; [exact H|].
  simpl. apply IH. exact (effect_wf _ _ _ (apply_event_effect ev s) H).
Qed.

Lemma run_events_stable evs s f st :
  futures s !! f = Some st -> st <> FPending ->
  futures (run_events evs s) !! f = Some st.
Proof.
  revert s. induction evs as [|ev evs IH]; intros s H Hst; [exact H|].
  simpl. apply IH; [|exact Hst].
  exact (effect_stable _ _ _ f st (apply_event_effect ev s) H Hst).
Qed.

Lemma run_events_tracked evs s rid kind f :
  table_wf s -> rid ∉ issued_ids evs -> tracked rid kind f s ->
  tracked rid kind f (run_events evs s).
Proof.
  revert s. induction evs as [|ev evs IH]; intros s Hwf Hrid H; [exact H|].
  rewrite issued_ids_cons in Hrid. apply not_elem_of_app in Hrid as [H1 H2].
  simpl. apply IH; [|exact H2|].
  - exact (effect_wf _ _ _ (apply_event_effect ev s) Hwf).
  - exact (effect_tracked _ _ _ rid kind f (apply_event_effect ev s) Hwf H1 H).
Qed.

(** A response whose id is not in the table changes nothing. *)
Lemma response_unknown message s rid :
  is_response message = true ->
  py_get "requestId" message = PStr rid ->
  pending_requests s !! rid = None ->
  handle_parent_message message s = (s, None).
Proof.
  unfold is_response, handle_parent_message.
  intros Hr -> Hnone. rewrite (pop_pending_unknown rid s Hnone).
  destruct (py_eq_str (py_get "type" message) "update-response");
    [reflexivity|].
  simpl in Hr. now rewrite Hr.
Qed.

Lemma completion_shape rid f0 st s s' f :
  st <> FPending ->
  pending_requests s' = delete rid (pending_requests s) ->
  futures s' = (if done f0 s then futures s else <[f0 := st]> (futures s)) ->
  futures s' !! f <> futures s !! f ->
  f = f0 /\ done f0 s = false /\ pending_requests s' !! rid = None
  /\ futures s' !! f0 = Some st
  /\ forall g, g <> f0 -> futures s' !! g = futures s !! g.
Proof.
  intros Hst Ht Hf Hne. rewrite Ht, Hf in *.
  destruct (done f0 s); [congruence|].
  destruct (decide (f = f0)) as [->|Hd].
  - repeat split; [apply lookup_delete_eq | apply lookup_insert_eq |].
    intros g Hg. now apply lookup_insert_ne.
  - rewrite lookup_insert_ne in Hne by congruence. congruence.
Qed.

Lemma py_eq_str_true v name : py_eq_str v name = true -> v = PStr name.
Proof.
  destruct v; try discriminate. simpl. now intros ->%String.eqb_eq.
Qed.

(** What a message does to the futures.  A response completes at most
    one: it was not done and in the table under the id of the message, and
    that id has left the table.  A cancellation completes none: it cancels
    the pending futures the handler task is waiting for and leaves the
    table as it is.  No other message changes a future. *)
Lemma message_completes message s f :
  let s' := fst (handle_parent_message message s) in
  futures s' !! f <> futures s !! f ->
  (exists rid kind st,
     is_response message = true
     /\ py_get "requestId" message = PStr rid
     /\ pending_requests s !! rid = Some (kind, f)
     /\ done f s = false
     /\ pending_requests s' !! rid = None
     /\ st <> FPending /\ futures s' !! f = Some st
     /\ forall g, g <> f -> futures s' !! g = futures s !! g)
  \/ (py_get "type" message = PStr "cancel"
      /\ is_Some (handler_task s)
      /\ f ∈ handler_waiters s
      /\ futures s !! f = Some FPending
      /\ futures s' !! f = Some FCancelled
      /\ pending_requests s' = pending_requests s).
Proof.
  intros s' Hne.
  assert (Hresp : forall rid kind f0 st,
            st <> FPending ->
            py_get "requestId" message = PStr rid ->
            is_response message = true ->
            pending_requests s !! rid = Some (kind, f0) ->
            pending_requests s' = delete rid (pending_requests s) ->
            futures s' = (if done f0 s then futures s
                          else <[f0 := st]> (futures s)) ->
            exists rid kind st,
              is_response message = true
              /\ py_get "requestId" message = PStr rid
              /\ pending_requests s !! rid = Some (kind, f)
              /\ done f s = false
              /\ pending_requests s' !! rid = None
              /\ st <> FPending /\ futures s' !! f = Some st
              /\ forall g, g <> f -> futures s' !! g = futures s !! g).
  { intros rid kind f0 st Hst Hid Hr Hin Ht Hf.
    destruct (completion_shape rid f0 st s s' f Hst Ht Hf Hne)
      as (-> & D & Hpop & Hdone & Hother).
    exists rid, kind, st. now repeat split. }
  revert Hne Hresp. subst s'. unfold handle_parent_message, is_response.
  destruct (py_eq_str (py_get "type" message) "update-response") eqn:T1.
  { pose proof (pop_pending_spec (py_get "requestId" message) s) as Hp.
    destruct (pop_pending _ s) as [e|[[[kind f0]|] s1]]; simpl;
      intros Hne Hresp; try congruence.
    - destruct Hp as (rid & Hid & Hin & ->).
      destruct (truthy _); simpl in *.
      + left. apply (Hresp rid kind f0 (FResult
            (if String.eqb kind "update" then py_get "run" message
             else py_get "value" message))); trivial; try discriminate.
        * unfold set_result_unless_done.
          now destruct (done f0 _).
        * unfold set_result_unless_done.
          change (done f0 (set_pending_requests _ s)) with (done f0 s).
          now destruct (done f0 s).
      + left. apply (Hresp rid kind f0 (FException (RuntimeError
            (py_or (py_get "error" message) (PStr "Request failed")))));
          trivial; try discriminate.
        * unfold set_exception_unless_done.
          now destruct (done f0 _).
        * unfold set_exception_unless_done.
          change (done f0 (set_pending_requests _ s)) with (done f0 s).
          now destruct (done f0 s).
    - destruct Hp as [-> _]. congruence. }
  destruct (py_eq_str (py_get "type" message) "resolve-secret-response") eqn:T2.
  { pose proof (pop_pending_spec (py_get "requestId" message) s) as Hp.
    destruct (pop_pending _ s) as [e|[[[kind f0]|] s1]]; simpl;
      intros Hne Hresp; try congruence.
    - destruct Hp as (rid & Hid & Hin & ->).
      destruct (truthy _); simpl in *.
      + left. apply (Hresp rid kind f0 (FResult (py_get "value" message)));
          trivial; try discriminate.
        * unfold set_result_unless_done.
          now destruct (done f0 _).
        * unfold set_result_unless_done.
          change (done f0 (set_pending_requests _ s)) with (done f0 s).
          now destruct (done f0 s).
      + left. apply (Hresp rid kind f0 (FException (RuntimeError
            (py_or (py_get "error" message)
               (PStr "Secret resolution failed")))));
          trivial; try discriminate.
        * unfold set_exception_unless_done.
          now destruct (done f0 _).
        * unfold set_exception_unless_done.
          change (done f0 (set_pending_requests _ s)) with (done f0 s).
          now destruct (done f0 s).
    - destruct Hp as [-> _]. congruence. }
  destruct (py_eq_str (py_get "type" message) "cancel") eqn:T3; simpl;
    [|congruence].
  destruct (handler_task s) as [c|] eqn:Hh; simpl; [|congruence].
  intros Hne _. right.
  destruct (cancel_handler_task_spec
              (set_cancel_reason (py_get "reason" message) s))
    as (Ht & _ & _ & _ & _ & _ & Hf).
  destruct (Hf f) as [E|(Hin & Hp & Hc)]; [contradiction|].
  split; [now apply py_eq_str_true|]. split; [eauto|]. now repeat split.
Qed.


(** C7. The pending-request table.
    (1) A response whose request id is not in the table leaves the state,
    and so the table and every waiter, as it is; (2) in particular a second
    delivery of a response does nothing.  (3) A message of the parent
    completes at most one waiter: one that was not done and in the table
    under the id of the message, and the id leaves the table with it.  The
    one other message that changes a waiter is a cancellation while the
    handler task exists: [cancel()] on the task cancels, at once, the pending
    waiters the task is waiting for; it resolves or fails none, and their
    ids stay in the table until the handler ends.
    (4) A request put in the table by [update] or [resolveSecret] gets a
    waiter that did not exist before and is pending; as long as its id is not
    drawn again, the id stays in the table while the waiter is pending,
    whatever happens; and once the waiter is completed its state never
    changes again. *)
Theorem pending_table_protocol :
  (forall message s rid,
     is_response message = true ->
     py_get "requestId" message = PStr rid ->
     pending_requests s !! rid = None ->
     handle_parent_message message s = (s, None))
  /\ (forall message s rid,
        is_response message = true ->
        py_get "requestId" message = PStr rid ->
        let s' := fst (handle_parent_message message s) in
        handle_parent_message message s' = (s', None))
  /\ (forall message s f,
        let s' := fst (handle_parent_message message s) in
        futures s' !! f <> futures s !! f ->
        (exists rid kind st,
           is_response message = true
           /\ py_get "requestId" message = PStr rid
           /\ pending_requests s !! rid = Some (kind, f)
           /\ done f s = false
           /\ pending_requests s' !! rid = None
           /\ st <> FPending /\ futures s' !! f = Some st
           /\ forall g, g <> f -> futures s' !! g = futures s !! g)
        \/ (py_get "type" message = PStr "cancel"
            /\ is_Some (handler_task s)
            /\ f ∈ handler_waiters s
            /\ futures s !! f = Some FPending
            /\ futures s' !! f = Some FCancelled
            /\ pending_requests s' = pending_requests s))
  /\ (forall s_init pre rid kind s1 post1 post2,
        pending_requests s_init = ∅ ->
        let s0 := run_events pre s_init in
        ((exists updates,
            kind = "update" /\ update_request rid updates s0 = inr s1)
         \/ (exists reference,
               kind = "resolve-secret"
               /\ fst (resolve_secret_request rid reference s0) = s1)) ->
        rid ∉ issued_ids post1 ->
        exists f,
          futures s0 !! f = None
          /\ registered rid kind f s1
          /\ let s2 := run_events post1 s1 in
             (futures s2 !! f = Some FPending ->
              pending_requests s2 !! rid = Some (kind, f))
             /\ (forall st, futures s2 !! f = Some st -> st <> FPending ->
                            futures (run_events post2 s2) !! f = Some st)).
Proof.
  split; [exact response_unknown|]. split; [|split; [exact message_completes|]].
  - intros message s rid Hr Hid s'.
    apply (response_unknown message s' rid Hr Hid).
    destruct (pending_requests s !! rid) as [[kind f]|] eqn:E.
    + subst s'. unfold handle_parent_message.
      rewrite Hid, (pop_pending_registered rid kind f s E).
      unfold is_response in Hr.
      destruct (py_eq_str (py_get "type" message) "update-response");
        [|simpl in Hr; rewrite Hr];
        (destruct (truthy _); simpl;
         [unfold set_result_unless_done | unfold set_exception_unless_done];
         destruct (done f _); simpl; apply lookup_delete_eq).
    + subst s'. now rewrite (response_unknown message s rid Hr Hid E).
  - intros s_init pre rid kind s1 post1 post2 Hinit s0 Hreq Hrid.
    assert (Hwf0 : table_wf s0) by now apply run_events_wf, table_wf_empty.
    assert (Hreg : table_wf s1
                   /\ exists f, registered rid kind f s1
                                /\ futures s0 !! f = None).
    { destruct Hreq as [(updates & -> & H)|(reference & -> & H)].
      - exact (update_request_registers rid updates s0 s1 Hwf0 H).
      - subst s1. exact (resolve_secret_request_registers rid reference s0 Hwf0). }
    destruct Hreg as (Hwf1 & f & Hreg & Hnew).
    exists f. split; [exact Hnew|]. split; [exact Hreg|].
    assert (Ht : tracked rid kind f s1).
    { destruct Hreg as [Hin Hp]. split; [eauto | intros _; exact Hin]. }
    pose proof (run_events_tracked post1 s1 rid kind f Hwf1 Hrid Ht) as [_ Ht2].
    split; [exact Ht2|].
    intros st Hst Hd. now apply run_events_stable.
Qed.

(** Scenario S4 with the response delivered twice: the update is
    registered with a new waiter, the response resolves it and removes the
    id, and the second delivery leaves the waiter resolved. *)
Lemma pending_table_protocol_witness :
  exists f,
    registered "req-1" "update" f updating_S4
    /\ pending_requests
         (run_events [EvParentMessage response_S4] updating_S4) !! "req-1"
       = None
    /\ futures (run_events [EvParentMessage response_S4]
                  (run_events [EvParentMessage response_S4] updating_S4)) !! f
       = Some (FResult (obj [("parameters", obj [("x", PInt 2)]);
                             ("status", PStr "ok")])).
Proof.
  destruct pending_table_protocol as (_ & _ & _ & Hlife).
  destruct (Hlife initial_state [] "req-1" "update" updating_S4
              [EvParentMessage response_S4] [EvParentMessage response_S4]
              eq_refl
              (or_introl (ex_intro _ update_S4 (conj eq_refl eq_refl))))
    as (f & _ & Hreg & _ & Hstable).
  { simpl. apply not_elem_of_nil. }
  assert (Hf : f = 0).
  { destruct Hreg as [Hin _].
    change (pending_requests updating_S4 !! "req-1")
      with (Some ("update", 0)) in Hin. congruence. }
  subst f. exists 0. split; [exact Hreg|]. split; [reflexivity|].
  apply Hstable; [reflexivity | discriminate].
Defined.

(** The parent cancels while the handler awaits its update: the waiter is
    cancelled at once and its id stays in the table; the
    [except CancelledError] branch then empties the table and leaves the
    cancelled waiter as it is. *)
Lemma cancel_while_awaiting :
  let cancel := [(KStr "type", PStr "cancel"); (KStr "reason", PStr "stop")] in
  let s' := fst (handle_parent_message cancel awaiting_S4) in
  let s'' := finish_handler (PStr "task") 0 PNone EmptyString Cancelled s' in
  futures awaiting_S4 !! 0 = Some FPending
  /\ futures s' !! 0 = Some FCancelled
  /\ pending_requests s' !! "req-1" = Some ("update", 0)
  /\ futures s'' !! 0 = Some FCancelled
  /\ pending_requests s'' = ∅.
Proof.
  cbv zeta. repeat split; reflexivity.
Qed.

(** * Properties of the further parts *)

(** ** Values *)

(** X1. A handler result that already is a JSON value (and is not [None])
    is sent as it is: conversion and round trip leave it unchanged.  The
    exception is a value with an [int] too long to be written as text, on
    which the round trip raises. *)
Theorem json_result_sent_unchanged (V : pyval) :
  json_value V = true -> V <> PNone ->
  result_payload V = if ints_fit V then inr V else inl serialize_failure.
Proof.
  intros HV Hn. unfold result_payload, sanitize_for_ipc.
  assert (E : match V with PNone => PDict [] | _ => V end = V)
    by (destruct V; congruence).
  rewrite E, (to_json_value_fixes_domain V HV).
  rewrite (json_value_not_unsupported V HV).
  rewrite (json_roundtrip_domain V HV). now destruct (ints_fit V).
Qed.

Lemma json_result_sent_unchanged_witness :
  result_payload (obj [("ok", PBool true); ("items", PList [PInt 1; PStr "a"])])
  = inr (obj [("ok", PBool true); ("items", PList [PInt 1; PStr "a"])]).
Proof.
  exact (json_result_sent_unchanged
           (obj [("ok", PBool true); ("items", PList [PInt 1; PStr "a"])])
           eq_refl ltac:(discriminate)).
Defined.

Lemma to_json_value_list_fold l acc :
  fold_left (fun result entry =>
               let converted := to_json_value entry in
               if is_unsupported converted then result
               else result ++ [converted]) l acc
  = acc ++ List.filter (fun c => negb (is_unsupported c)) (map to_json_value l).
Proof.
  revert acc. induction l as [|x l IH]; intros acc; simpl.
  - now rewrite app_nil_r.
  - rewrite IH. destruct (is_unsupported (to_json_value x)); simpl;
      [reflexivity | now rewrite <- app_assoc].
Qed.

(** X2. A sequence is converted entry by entry: the result lists, in the
    order of the input, the conversions of the entries, leaving out exactly
    those found unsupported; a tuple gives the same list as the list of its
    entries. *)
Theorem to_json_value_sequence (l : list pyval) :
  to_json_value (PList l)
  = PList (List.filter (fun c => negb (is_unsupported c)) (map to_json_value l))
  /\ to_json_value (PTuple l) = to_json_value (PList l).
Proof.
  split; [|reflexivity]. simpl. f_equal. apply (to_json_value_list_fold l []).
Qed.

Lemma to_json_value_dict_fold d :
  dict_uniq d = true ->
  forall acc,
    (forall k, dict_has k acc = true -> dict_has k d = false) ->
    forall k,
      dict_get k
        (fold_left
           (fun result kv =>
              match fst kv with
              | KStr key =>
                  let converted := to_json_value (snd kv) in
                  if is_unsupported converted then result
                  else dict_set key converted result
              | _ => result
              end) d acc)
      = match dict_get k d with
        | Some v =>
            if is_unsupported (to_json_value v) then None
            else Some (to_json_value v)
        | None => dict_get k acc
        end.
Proof.
  induction d as [|[k0 v0] d IH]; intros Hu acc Hacc k; simpl; [reflexivity|].
  simpl in Hu. apply andb_true_iff in Hu as [Hu0 Hu].
  assert (Hshrink : forall k', dict_has k' acc = true -> dict_has k' d = false).
  { intros k' H. specialize (Hacc k' H). rewrite dict_has_cons in Hacc.
    now apply orb_false_iff in Hacc. }
  destruct k0 as [s| | | |]; simpl; try (now apply IH).
  apply negb_true_iff in Hu0.
  assert (Hset : forall c k', dict_has k' (dict_set s c acc) = true ->
                              dict_has k' d = false).
  { intros c k'. rewrite dict_has_set.
    destruct (String.eqb_spec s k') as [<-|Hd]; [easy|]. apply Hshrink. }
  destruct (String.eqb_spec k s) as [->|Hne].
  - assert (Hnot : dict_get s acc = None).
    { apply dict_has_false_get. destruct (dict_has s acc) eqn:E; [|reflexivity].
      specialize (Hacc s E). rewrite dict_has_cons in Hacc. simpl in Hacc.
      now rewrite String.eqb_refl in Hacc. }
    destruct (is_unsupported (to_json_value v0)) eqn:E.
    + etransitivity; [exact (IH Hu acc Hshrink s)|].
      now rewrite (dict_has_false_get s d Hu0).
    + etransitivity; [exact (IH Hu _ (Hset _) s)|].
      now rewrite (dict_has_false_get s d Hu0), dict_get_set_eq.
  - destruct (is_unsupported (to_json_value v0)) eqn:E.
    + exact (IH Hu acc Hshrink k).
    + etransitivity; [exact (IH Hu _ (Hset _) k)|].
      destruct (dict_get k d); [reflexivity|].
      apply dict_get_set_ne. congruence.
Qed.

(** X3. A mapping with distinct string keys is converted key by key: a
    string key of the input is a key of the result exactly when the
    conversion of its value is supported, and then maps to that conversion;
    the result has no other key, so every key that is not a string is
    gone. *)
Theorem to_json_value_mapping (d : list (pykey * pyval)) :
  dict_uniq d = true ->
  exists out,
    to_json_value (PDict d) = PDict out
    /\ forallb (fun kv => key_is_str (fst kv)) out = true
    /\ forall k,
         dict_get k out
         = match dict_get k d with
           | Some v =>
               if is_unsupported (to_json_value v) then None
               else Some (to_json_value v)
           | None => None
           end.
Proof.
  intros Hu.
  set (out := fold_left
      (fun result kv =>
         match fst kv with
         | KStr key =>
             let converted := to_json_value (snd kv) in
             if is_unsupported converted then result
             else dict_set key converted result
         | _ => result
         end) d []).
  assert (E : to_json_value (PDict d) = PDict out) by reflexivity.
  exists out. split; [exact E|]. split.
  - pose proof (to_json_value_in_domain (PDict d) eq_refl) as H.
    rewrite E in H. cbn [json_value] in H. apply andb_true_iff in H as [H _].
    clearbody out. clear E.
    induction out as [|a l IH]; simpl in *; [reflexivity|].
    apply andb_true_iff in H as [[-> _]%andb_true_iff H]. now apply IH.
  - intros k. apply (to_json_value_dict_fold d Hu []). discriminate.
Qed.

Lemma to_json_value_mapping_witness :
  exists out,
    to_json_value (PDict [(KInt 1, PStr "a"); (KStr "k", PInt 2);
                          (KStr "bad", PFloat nan)]) = PDict out
    /\ dict_get "k" out = Some (PInt 2)
    /\ dict_get "bad" out = None.
Proof.
  destruct (to_json_value_mapping
              [(KInt 1, PStr "a"); (KStr "k", PInt 2); (KStr "bad", PFloat nan)]
              eq_refl) as (out & Hout & _ & Hget).
  exists out. split; [exact Hout|].
  split; [exact (Hget "k") | exact (Hget "bad")].
Defined.

Lemma dict_set_keeps (P : pyval -> bool) k v acc :
  P v = true ->
  forallb (fun kv => key_is_str (fst kv) && P (snd kv)) acc = true ->
  forallb (fun kv => key_is_str (fst kv) && P (snd kv)) (dict_set k v acc)
  = true.
Proof.
  intros Hv. induction acc as [|[k' v'] r IH]; simpl.
  - now rewrite Hv.
  - intros [H1 H2]%andb_true_iff.
    destruct (key_is k k') eqn:E; simpl.
    + apply andb_true_iff in H1 as [H1 _]. now rewrite H1, Hv, H2.
    + now rewrite H1, (IH H2).
Qed.

Lemma json_roundtrip_shaped v :
  forall r, json_roundtrip v = Some r -> json_shaped r = true.
Proof.
  induction v as [| |n|f| | |l IH|l IH|d IH|] using pyval_ind_nested;
    simpl; try (now intros r [= <-]); try discriminate;
    try (destruct (int_fits n); [now intros r [= <-] | discriminate]).
  - intros r Hr.
    destruct (fold_right _ (Some []) l) as [l'|] eqn:E; [|discriminate].
    injection Hr as <-. simpl. revert l' E.
    induction IH as [|x xs Hx _ IHxs]; simpl; intros l' E.
    + now injection E as <-.
    + destruct (json_roundtrip x) as [e|]; [|discriminate].
      destruct (fold_right _ (Some []) xs) as [r'|]; [|discriminate].
      injection E as <-. simpl. now rewrite (Hx e eq_refl), (IHxs r' eq_refl).
  - intros r Hr.
    destruct (fold_right _ (Some []) l) as [l'|] eqn:E; [|discriminate].
    injection Hr as <-. simpl. revert l' E.
    induction IH as [|x xs Hx _ IHxs]; simpl; intros l' E.
    + now injection E as <-.
    + destruct (json_roundtrip x) as [e|]; [|discriminate].
      destruct (fold_right _ (Some []) xs) as [r'|]; [|discriminate].
      injection E as <-. simpl. now rewrite (Hx e eq_refl), (IHxs r' eq_refl).
  - intros r Hr.
    set (ok := fun acc : list (pykey * pyval) =>
                 forallb (fun kv => key_is_str (fst kv) && json_shaped (snd kv))
                   acc && dict_uniq acc = true).
    assert (G : forall acc out, ok acc ->
      fold_left
        (fun acc kv =>
           match acc, json_key (fst kv), json_roundtrip (snd kv) with
           | Some r, Some k, Some e => Some (dict_set k e r)
           | _, _, _ => None
           end) d (Some acc) = Some out -> ok out).
    { clear Hr r.
      induction IH as [|[k x] xs Hx _ IHxs]; intros acc out Hacc; simpl.
      - now intros [= <-].
      - simpl in Hx. destruct (json_key k) as [key|].
        + destruct (json_roundtrip x) as [e|].
          * apply IHxs. unfold ok in *. cbv beta in *.
            apply andb_true_iff in Hacc as [Ha Hu].
            apply andb_true_iff. split.
            -- now apply dict_set_keeps; [apply Hx|].
            -- now apply dict_uniq_set.
          * clear. induction xs as [|a xs IHn]; simpl; [discriminate|exact IHn].
        + clear. induction xs as [|a xs IHn]; simpl; [discriminate|exact IHn]. }
    destruct (fold_left _ d (Some [])) as [out|] eqn:E; [|discriminate].
    injection Hr as <-. simpl. exact (G [] out eq_refl E).
Qed.

Lemma str_keyed_fit d :
  forallb (fun kv => key_is_str (fst kv) && ints_fit (snd kv)) d = true ->
  forallb (fun kv => key_fits (fst kv) && ints_fit (snd kv)) d = true.
Proof.
  induction d as [|[k v] d IH]; simpl; [reflexivity|].
  intros [[Hk Hv]%andb_true_iff Hd]%andb_true_iff.
  destruct k; try discriminate. simpl. now rewrite Hv, (IH Hd).
Qed.

(** What the round trip returns holds no [int] that is too long. *)
Lemma json_roundtrip_ints v :
  forall r, json_roundtrip v = Some r -> ints_fit r = true.
Proof.
  induction v as [| |n|f| | |l IH|l IH|d IH|] using pyval_ind_nested;
    simpl; try (now intros r [= <-]); try discriminate.
  - destruct (int_fits n) eqn:E; [|discriminate]. now intros r [= <-].
  - intros r Hr.
    destruct (fold_right _ (Some []) l) as [l'|] eqn:E; [|discriminate].
    injection Hr as <-. simpl. revert l' E.
    induction IH as [|x xs Hx _ IHxs]; simpl; intros l' E.
    + now injection E as <-.
    + destruct (json_roundtrip x) as [e|]; [|discriminate].
      destruct (fold_right _ (Some []) xs) as [r'|]; [|discriminate].
      injection E as <-. simpl. now rewrite (Hx e eq_refl), (IHxs r' eq_refl).
  - intros r Hr.
    destruct (fold_right _ (Some []) l) as [l'|] eqn:E; [|discriminate].
    injection Hr as <-. simpl. revert l' E.
    induction IH as [|x xs Hx _ IHxs]; simpl; intros l' E.
    + now injection E as <-.
    + destruct (json_roundtrip x) as [e|]; [|discriminate].
      destruct (fold_right _ (Some []) xs) as [r'|]; [|discriminate].
      injection E as <-. simpl. now rewrite (Hx e eq_refl), (IHxs r' eq_refl).
  - intros r Hr.
    assert (G : forall acc out,
      forallb (fun kv => key_is_str (fst kv) && ints_fit (snd kv)) acc = true ->
      fold_left
        (fun acc kv =>
           match acc, json_key (fst kv), json_roundtrip (snd kv) with
           | Some r, Some k, Some e => Some (dict_set k e r)
           | _, _, _ => None
           end) d (Some acc) = Some out ->
      forallb (fun kv => key_is_str (fst kv) && ints_fit (snd kv)) out = true).
    { clear Hr r.
      induction IH as [|[k x] xs Hx _ IHxs]; intros acc out Hacc; simpl.
      - now intros [= <-].
      - simpl in Hx. destruct (json_key k) as [key|].
        + destruct (json_roundtrip x) as [e|].
          * apply IHxs. now apply dict_set_keeps; [apply Hx|].
          * rewrite json_roundtrip_stuck. discriminate.
        + rewrite json_roundtrip_stuck. discriminate. }
    destruct (fold_left _ d (Some [])) as [out|] eqn:E; [|discriminate].
    injection Hr as <-. simpl. apply str_keyed_fit. exact (G [] out eq_refl E).
Qed.

Lemma json_roundtrip_fixes_shaped v :
  json_shaped v = true -> ints_fit v = true -> json_roundtrip v = Some v.
Proof.
  induction v as [| |n|f| | |l IH|l IH|d IH|] using pyval_ind_nested;
    simpl; try reflexivity; try discriminate.
  - now intros _ ->.
  - intros Hl Hf.
    assert (G : fold_right
                  (fun entry acc =>
                     match json_roundtrip entry, acc with
                     | Some e, Some r => Some (e :: r)
                     | _, _ => None
                     end) (Some []) l = Some l).
    { induction IH as [|x r Hx _ IHr]; simpl in *; [reflexivity|].
      apply andb_true_iff in Hl as [H1 H2].
      apply andb_true_iff in Hf as [F1 F2].
      now rewrite (Hx H1 F1), (IHr H2 F2). }
    now rewrite G.
  - intros [Hd Hu]%andb_true_iff Hf.
    assert (G : forall acc, dict_uniq (acc ++ d) = true ->
      fold_left
        (fun acc kv =>
           match acc, json_key (fst kv), json_roundtrip (snd kv) with
           | Some r, Some k, Some e => Some (dict_set k e r)
           | _, _, _ => None
           end) d (Some acc) = Some (acc ++ d)).
    { clear Hu.
      induction IH as [|[k x] r Hx _ IHr]; intros acc Hacc; simpl.
      - now rewrite app_nil_r.
      - simpl in Hd, Hf. apply andb_true_iff in Hd as [H1 H2].
        apply andb_true_iff in H1 as [Hk H1].
        apply andb_true_iff in Hf as [F1 F2].
        apply andb_true_iff in F1 as [_ F1].
        destruct k; try discriminate. simpl in *.
        rewrite (Hx H1 F1).
        rewrite (dict_set_fresh s x acc (dict_uniq_app_head acc s x r Hacc)).
        rewrite (IHr H2 F2); now rewrite <- app_assoc. }
    now rewrite (G [] Hu).
Qed.

(** X4. What [sanitize_for_ipc] returns is a value the JSON decoder
    produces (scalars, lists, dictionaries with distinct string keys: no
    tuple, no bytes, no other object), and sanitising it again returns it
    unchanged. *)
Theorem sanitize_for_ipc_settles (v r : pyval) :
  sanitize_for_ipc v = inr r ->
  json_shaped r = true /\ sanitize_for_ipc r = inr r.
Proof.
  unfold sanitize_for_ipc.
  destruct (json_roundtrip v) as [r'|] eqn:E; [|discriminate].
  intros [= <-]. pose proof (json_roundtrip_shaped v r' E) as H.
  pose proof (json_roundtrip_ints v r' E) as F.
  split; [exact H|]. now rewrite (json_roundtrip_fixes_shaped r' H F).
Qed.

(** A tuple under an integer key comes back as a list under the spelling
    of the key, and stays so. *)
Lemma sanitize_for_ipc_settles_witness :
  sanitize_for_ipc (PDict [(KStr "7", PStr "x");
                           (KStr "a", PList [PInt 1; PFloat infinity])])
  = inr (PDict [(KStr "7", PStr "x");
                (KStr "a", PList [PInt 1; PFloat infinity])]).
Proof.
  exact (proj2 (sanitize_for_ipc_settles
                  (PDict [(KInt 7, PStr "x");
                          (KStr "a", PTuple [PInt 1; PFloat infinity])])
                  _ eq_refl)).
Defined.

(** ** Updates and log metadata *)

Lemma to_json_value_again v : to_json_value (to_json_value v) = to_json_value v.
Proof.
  destruct (is_unsupported (to_json_value v)) eqn:E.
  - destruct (to_json_value v) as [| | | | | | | | |[|n]]; try discriminate.
    reflexivity.
  - now apply to_json_value_fixes_domain, to_json_value_in_domain.
Qed.

Lemma dict_has_get {V} k (d : list (pykey * V)) :
  dict_has k d = match dict_get k d with Some _ => true | None => false end.
Proof. reflexivity. Qed.

Lemma convert_into_same k u u' r :
  dict_get k u'
  = (if dict_has k u && negb (is_unsupported (to_json_value (py_get k u)))
     then Some (to_json_value (py_get k u)) else None) ->
  convert_into k u' r = convert_into k u r.
Proof.
  intros H. unfold convert_into.
  assert (Hp : py_get k u' = match dict_get k u' with
                             | Some v => v
                             | None => PNone
                             end) by reflexivity.
  rewrite Hp, (dict_has_get k u'), H.
  destruct (dict_has k u); simpl; [|reflexivity].
  destruct (is_unsupported (to_json_value (py_get k u))) eqn:E; simpl;
    [reflexivity|].
  now rewrite to_json_value_again, E.
Qed.

Lemma copy_into_same k u u' r :
  dict_get k u' = (if dict_has k u then Some (py_get k u) else None) ->
  copy_into k u' r = copy_into k u r.
Proof.
  intros H. unfold copy_into.
  assert (Hp : py_get k u' = match dict_get k u' with
                             | Some v => v
                             | None => PNone
                             end) by reflexivity.
  rewrite Hp, (dict_has_get k u'), H.
  now destruct (dict_has k u).
Qed.

(** X5. Normalising updates that are already normalised changes nothing. *)
Theorem normalize_updates_idempotent (updates : list (pykey * pyval)) :
  normalize_updates (normalize_updates updates) = normalize_updates updates.
Proof.
  rewrite (normalize_updates_blocks (normalize_updates updates)).
  rewrite (copy_into_same "timeoutMs" updates),
    (convert_into_same "context" updates),
    (convert_into_same "metrics" updates),
    (copy_into_same "logsUrl" updates),
    (convert_into_same "parameters" updates);
    try (rewrite normalize_updates_get; reflexivity).
  symmetry. apply normalize_updates_blocks.
Qed.



(** ** The resolver and the guards with [fs] granted *)

(** X7. A path the resolver returned is accepted and returned unchanged
    when it is resolved again (in the same environment, and with
    [realpath] leaving real paths as they are). *)
Theorem ensure_within_bundle_accepts_result
    (w : os_world) (R C p : string) :
  (forall q, os_realpath w (os_realpath w q) = os_realpath w q) ->
  outcome (ensure_within_bundle w R C) = inr p ->
  outcome (ensure_within_bundle w R p) = inr p.
Proof.
  intros Hidem. rewrite !ensure_within_bundle_outcome. cbv zeta.
  assert (Hagain : forall q,
    os_realpath w q = q ->
    (within (os_realpath w R) q = true
     \/ exists h, os_environ w HOST_ROOT_PREFIX_ENV = Some h
                  /\ negb (String.eqb h EmptyString) = true
                  /\ within (os_realpath w h) q = true) ->
    (if within (os_realpath w R) (os_realpath w q) then inr (os_realpath w q)
     else match os_environ w HOST_ROOT_PREFIX_ENV with
          | Some h =>
              if negb (String.eqb h EmptyString) then
                if within (os_realpath w h) (os_realpath w q)
                then inr (os_realpath w q)
                else if within (os_realpath w h)
                          (os_realpath w
                             (path_join (os_realpath w h)
                                (os_relpath w (os_realpath w q) sep)))
                     then inr (os_realpath w
                                 (path_join (os_realpath w h)
                                    (os_relpath w (os_realpath w q) sep)))
                     else inl outside_bundle
              else inl outside_bundle
          | None => inl outside_bundle
          end) = (inr q : pyexn + string)).
  { intros q Hq Hok. rewrite Hq.
    destruct (within (os_realpath w R) q); [reflexivity|].
    destruct Hok as [|(h & -> & -> & ->)]; [discriminate | reflexivity]. }
  destruct (within (os_realpath w R) (os_realpath w C)) eqn:E1.
  { cbv iota. intros [= <-]. apply Hagain; [apply Hidem | now left]. }
  destruct (os_environ w HOST_ROOT_PREFIX_ENV) as [h|] eqn:Eh; [|discriminate].
  destruct (negb (String.eqb h EmptyString)) eqn:En; [|discriminate].
  destruct (within (os_realpath w h) (os_realpath w C)) eqn:E2.
  { cbv iota. intros [= <-]. apply Hagain; [apply Hidem|]. right. exists h. repeat split; assumption. }
  destruct (within (os_realpath w h)
              (os_realpath w
                 (path_join (os_realpath w h)
                    (os_relpath w (os_realpath w C) sep)))) eqn:E3;
    [|discriminate].
  cbv iota. intros [= <-]. apply Hagain; [apply Hidem|]. right. exists h. repeat split; assumption.
Qed.

Lemma ensure_within_bundle_accepts_result_witness :
  outcome (ensure_within_bundle (plain_world (Some "/host")) "/work/b"
             "/host/etc/passwd")
  = inr "/host/etc/passwd".
Proof.
  apply (ensure_within_bundle_accepts_result (plain_world (Some "/host"))
           "/work/b" "/etc/passwd"); reflexivity.
Defined.

Lemma outcome_bind {A B} (m : Os A) (f : A -> Os B) :
  outcome (m ≫= f) = match outcome m with
                     | inl e => inl e
                     | inr x => outcome (f x)
                     end.
Proof.
  destruct m as [t [e|x]]; unfold outcome; simpl; [reflexivity|].
  now destruct (f x).
Qed.

Lemma ensure_within_bundle_allowed w bundle_dir candidate q :
  outcome (ensure_within_bundle w bundle_dir candidate) = inr q ->
  allowed_path w bundle_dir q.
Proof.
  rewrite ensure_within_bundle_outcome. cbv zeta. unfold allowed_path.
  destruct (within (os_realpath w bundle_dir) (os_realpath w candidate)) eqn:E1.
  { intros [= <-]. left. now apply within_iff. }
  destruct (os_environ w HOST_ROOT_PREFIX_ENV) as [h|] eqn:Eh; [|discriminate].
  destruct (String.eqb_spec h EmptyString) as [|Hne]; [discriminate|]. simpl.
  destruct (within (os_realpath w h) (os_realpath w candidate)) eqn:E2.
  { intros [= <-]. right. exists h. split; [now split | now apply within_iff]. }
  destruct (within (os_realpath w h)
              (os_realpath w
                 (path_join (os_realpath w h)
                    (os_relpath w (os_realpath w candidate) sep)))) eqn:E3;
    [|discriminate].
  intros [= <-]. right. exists h. split; [now split | now apply within_iff].
Qed.

Lemma outcome_called {A B} c (x : A) (f : A -> Os B) :
  outcome (called c x ≫= f) = outcome (f x).
Proof. unfold outcome, called. simpl. now destruct (f x). Qed.

Lemma normalize_path_argument_quiet w bundle_dir allow_fs v :
  quiet calls_original (normalize_path_argument w bundle_dir allow_fs v).
Proof.
  unfold normalize_path_argument, normalize_bytes_path,
    ensure_within_bundle_with, guarded_realpath, guarded_realpath_bytes,
    realpath_bytes, getcwd, realpath, quiet, called, raise.
  cbv zeta.
  repeat match goal with
         | |- context [if ?b then _ else _] => destruct b; cbn
         | |- context [match fspath ?w ?v with _ => _ end] =>
             destruct (fspath w v) as [?|[]]; cbn
         | |- context [match os_environ ?w ?n with _ => _ end] =>
             destruct (os_environ w n); cbn
         end; reflexivity.
Qed.

Lemma Os_bind_ret {A B} (x : A) (f : A -> Os B) : mret x ≫= f = f x.
Proof. unfold mbind, Os_bind, mret, Os_ret. now destruct (f x). Qed.

Lemma Os_bind_raises {A B} (m : Os A) (f : A -> Os B) e :
  outcome m = inl e -> m ≫= f = (trace m, inl e).
Proof.
  destruct m as [t [e'|x]]; unfold outcome, trace; simpl; [|discriminate].
  now intros [= ->].
Qed.

Lemma Os_bind_called {A B} c (x : A) (f : A -> Os B) :
  called c x ≫= f = (c :: trace (f x), outcome (f x)).
Proof. unfold called, mbind, Os_bind, trace, outcome. now destruct (f x). Qed.

Lemma guarded_realpath_recursion w p :
  reaches_lstat p = true ->
  guarded_realpath w p = ([OsRealpath p], inl RecursionError).
Proof. intros H. unfold guarded_realpath. now rewrite H. Qed.

Lemma guarded_realpath_plain w p :
  reaches_lstat p = false -> guarded_realpath w p = realpath w p.
Proof. intros H. unfold guarded_realpath. now rewrite H. Qed.

(** Under the guards with [fs] granted, resolving against a bundle
    directory with a name in it never returns. *)
Lemma ensure_within_bundle_recursion w bundle_dir candidate :
  reaches_lstat bundle_dir = true ->
  ensure_within_bundle_with (guarded_realpath w) w bundle_dir candidate
  = ([OsRealpath bundle_dir], inl RecursionError).
Proof.
  intros H. unfold ensure_within_bundle_with, guarded_realpath.
  now rewrite H.
Qed.

(** So [normalize_path_argument] returns descriptors only. *)
Lemma normalize_path_argument_guarded w bundle_dir value :
  reaches_lstat bundle_dir = true ->
  let r := normalize_path_argument w bundle_dir true value in
  if is_int value then r = mret value
  else (exists e, outcome r = inl e)
       /\ forall path_str, fspath w value = inr (PStr path_str) ->
                           outcome r = inl RecursionError.
Proof.
  intros H r. subst r. unfold normalize_path_argument. cbv zeta.
  destruct (is_int value); [reflexivity|].
  destruct (fspath w value) as [e|[| | | |p|b| | | |]];
    try (split; [eexists; reflexivity | discriminate]).
  - destruct (isabs p).
    + rewrite (ensure_within_bundle_recursion w bundle_dir p H).
      split; [eexists|intros]; reflexivity.
    + unfold getcwd. rewrite Os_bind_called. cbv beta.
      destruct (reaches_lstat (path_join (os_getcwd w) p)) eqn:E.
      * rewrite (guarded_realpath_recursion _ _ E).
        split; [eexists|intros]; reflexivity.
      * rewrite (guarded_realpath_plain _ _ E). unfold realpath.
        rewrite Os_bind_called. cbv beta.
        rewrite (ensure_within_bundle_recursion w bundle_dir _ H).
        split; [eexists|intros]; reflexivity.
  - unfold normalize_bytes_path, guarded_realpath. rewrite H.
    destruct (isabs b); (split; [eexists; reflexivity | discriminate]).
Qed.

Lemma normalize_positional_guarded w bundle_dir indexes args :
  reaches_lstat bundle_dir = true ->
  let r := normalize_positional w bundle_dir indexes args in
  if descriptors_at indexes args then r = mret args
  else existsb calls_original (trace r) = false
       /\ (exists e, outcome r = inl e)
       /\ (paths_at indexes args = true -> outcome r = inl RecursionError).
Proof.
  intros H. induction indexes as [|index rest IH]; [reflexivity|].
  cbn [normalize_positional descriptors_at paths_at forallb] in *.
  fold (descriptors_at rest args) in *. fold (paths_at rest args) in *.
  destruct (args !! index) as [value|] eqn:Hidx; [|exact IH].
  pose proof (normalize_path_argument_guarded w bundle_dir value H) as Hn.
  pose proof (normalize_path_argument_quiet w bundle_dir true value) as Hq.
  cbv zeta in Hn. destruct (is_int value) eqn:Hi.
  - rewrite Hn, Os_bind_ret, (list_insert_id _ _ _ Hidx).
    cbn [andb]. destruct value; try discriminate; exact IH.
  - cbn [andb]. destruct Hn as [[e He] Hp].
    rewrite (Os_bind_raises _ _ e He). unfold outcome, trace. cbn [fst snd].
    split; [exact Hq|]. split; [eauto|].
    destruct value; try discriminate. intros _.
    rewrite (Hp s eq_refl) in He. congruence.
Qed.

Lemma filter_quiet (P : oscall -> bool) (l : list oscall) :
  existsb P l = false -> filter (fun c => P c) l = [].
Proof.
  induction l as [|c l IH]; simpl; [reflexivity|].
  intros [Hc Hl]%orb_false_iff. rewrite filter_cons, Hc. simpl. now apply IH.
Qed.

(** X8. With [fs] granted and a bundle directory whose path has a name in
    it, a wrapped [os] or [shutil] function reaches the original only when
    every listed position holds a descriptor or nothing: the original is
    then called once with the arguments as given.  A path at a listed
    position never gets through.  It is handed to the resolver, whose
    [os.path.realpath] asks [os.lstat], itself one of the wrapped
    functions by then, which hands its path to the resolver again: the
    call raises, the original is not called, and when the listed positions
    hold descriptors and [str] paths only the error is
    [RecursionError]. *)
Theorem wrapper_checks_paths w bundle_dir module_name name indexes args kwargs :
  reaches_lstat bundle_dir = true ->
  let r := wrapper w bundle_dir true module_name name indexes None args kwargs in
  if descriptors_at indexes args
  then r = original w module_name name args kwargs
  else existsb calls_original (trace r) = false
       /\ (exists e, outcome r = inl e)
       /\ (paths_at indexes args = true -> outcome r = inl RecursionError).
Proof.
  intros H r. subst r. unfold wrapper. cbn [negb].
  pose proof (normalize_positional_guarded w bundle_dir indexes args H) as Hn.
  cbv zeta in Hn. destruct (descriptors_at indexes args).
  - rewrite Hn, !Os_bind_ret. reflexivity.
  - destruct Hn as (Hq & [e He] & Hp).
    rewrite (Os_bind_raises _ _ e He). unfold outcome, trace. cbn [fst snd].
    split; [exact Hq|]. split; [eauto|].
    intros Hpaths. rewrite (Hp Hpaths) in He. congruence.
Qed.

(** With the bundle at [/work/b]: [os.stat] on a descriptor reaches the
    original, [os.listdir("/work/b")] ends in [RecursionError]. *)
Lemma wrapper_checks_paths_witness :
  wrapper (plain_world None) "/work/b" true "os" "stat" [0] None [PInt 3] []
  = original (plain_world None) "os" "stat" [PInt 3] []
  /\ outcome (wrapper (plain_world None) "/work/b" true "os" "listdir" [0] None
                [PStr "/work/b"] [])
     = inl RecursionError.
Proof.
  split.
  - exact (wrapper_checks_paths (plain_world None) "/work/b" "os" "stat" [0]
             [PInt 3] [] eq_refl).
  - exact (proj2 (proj2 (wrapper_checks_paths (plain_world None) "/work/b"
                           "os" "listdir" [0] [PStr "/work/b"] [] eq_refl))
             eq_refl).
Defined.

Lemma normalize_positional_no_args w bundle_dir indexes :
  normalize_positional w bundle_dir indexes [] = mret [].
Proof. induction indexes as [|i r IH]; simpl; [reflexivity | exact IH]. Qed.

(** X9. The tables give the wrappers positions only and no keyword names,
    so a path passed by keyword is never looked at: with [fs] granted, a
    call of any [os] or [shutil] function that passes all its arguments by
    keyword reaches the original with the keywords exactly as given, and
    the resolver is not consulted. *)
Theorem guarded_call_keywords_unchecked w bundle_dir module_name name kwargs :
  guarded_call w bundle_dir true module_name name [] kwargs
  = ([OsOriginal module_name name [] kwargs],
     os_original w module_name name [] kwargs).
Proof.
  unfold guarded_call.
  destruct (method_indexes name _) as [indexes|]; [|reflexivity].
  unfold wrapper. cbn [negb]. rewrite normalize_positional_no_args.
  reflexivity.
Qed.

Lemma has_capability_iff name l :
  has_capability name l = true <-> PStr name ∈ l.
Proof.
  unfold has_capability. rewrite existsb_exists. split.
  - intros (c & Hin & Hc). destruct c; try discriminate. simpl in Hc.
    apply String.eqb_eq in Hc as ->. now apply list_elem_of_In.
  - intros Hin. exists (PStr name). split; [now apply list_elem_of_In|].
    simpl. apply String.eqb_refl.
Qed.

Lemma declared_capabilities_iff b name :
  has_capability name (declared_capabilities b) = true
  <-> exists l, manifest_capabilities b = PList l /\ PStr name ∈ l.
Proof.
  rewrite has_capability_iff. unfold declared_capabilities, py_or. split.
  - destruct (manifest_capabilities b) as [| | | | | l | | | |] eqn:E;
      cbn [truthy];
      try (intros H; now inversion H);
      try (match goal with |- context [if ?c then _ else _] => destruct c end;
           intros H; now inversion H).
    destruct l as [|c l]; simpl; [intros H; inversion H|].
    intros H. now exists (c :: l).
  - intros (l & -> & Hin). destruct l as [|c l]; [inversion Hin|]. exact Hin.
Qed.

(** X10. A capability is granted by the manifest only when its
    [capabilities] entry is a list that holds the name as a string; any
    other value grants nothing.  Without [network], each of the eight
    rebound networking names raises the permission error and makes no call;
    with it, and for every other name, the call goes to the original. *)
Theorem capabilities_gate b w module_name name args kwargs :
  let granted cap :=
    exists l, manifest_capabilities b = PList l /\ PStr cap ∈ l in
  (has_capability "fs" (declared_capabilities b) = true <-> granted "fs")
  /\ (network_call w (declared_capabilities b) module_name name args kwargs
      = ([], inl network_denied)
      <-> ~ granted "network" /\ (module_name, name) ∈ blocked_network_names)
  /\ (granted "network" \/ (module_name, name) ∉ blocked_network_names ->
      network_call w (declared_capabilities b) module_name name args kwargs
      = original w module_name name args kwargs).
Proof.
  intros granted.
  assert (Hb : is_blocked_name module_name name = true
               <-> (module_name, name) ∈ blocked_network_names).
  { unfold is_blocked_name. rewrite existsb_exists. split.
    - intros ([m n] & Hin & [Hm Hn]%andb_true_iff). simpl in *.
      apply String.eqb_eq in Hm as ->. apply String.eqb_eq in Hn as ->.
      now apply list_elem_of_In.
    - intros Hin. exists (module_name, name).
      split; [now apply list_elem_of_In|]. simpl.
      now rewrite !String.eqb_refl. }
  pose proof (declared_capabilities_iff b "network") as Hn.
  split; [apply declared_capabilities_iff|].
  unfold network_call, original. cbv zeta.
  destruct (has_capability "network" (declared_capabilities b)) eqn:Hc.
  - split.
    + split; [discriminate|]. intros [Hno _]. destruct Hno. now apply Hn.
    + reflexivity.
  - assert (Hno : ~ granted "network").
    { intros Hg. apply Hn in Hg. discriminate. }
    destruct (is_blocked_name module_name name) eqn:Hbl.
    + split.
      * split; [|reflexivity]. intros _. split; [exact Hno | now apply Hb].
      * intros [Hg|Hnb]; [contradiction|]. destruct Hnb. now apply Hb.
    + split; [|reflexivity].
      split; [discriminate|]. intros [_ Hin]. apply Hb in Hin. discriminate.
Qed.

(** ** Responses, the job context and the message queue *)

(** X11. What a response delivers to a waiting request.  The entry leaves
    the table and the future is completed; nothing else changes and nothing
    is written.  A truthy [ok] gives the result: the [run] field when an
    [update-response] answers an update, the [value] field in every other
    pairing of response and request.  Otherwise the future fails with the
    [error] field, or with a default text chosen by the type of the
    response, not by the kind of the request. *)
Theorem response_delivery message s rid kind f :
  is_response message = true ->
  py_get "requestId" message = PStr rid ->
  registered rid kind f s ->
  let to_update := py_eq_str (py_get "type" message) "update-response" in
  let delivered :=
    if truthy (py_get "ok" message) then
      FResult (if to_update && String.eqb kind "update"
               then py_get "run" message else py_get "value" message)
    else
      FException
        (RuntimeError
           (py_or (py_get "error" message)
              (PStr (if to_update then "Request failed"
                     else "Secret resolution failed")))) in
  handle_parent_message message s
  = (set_futures (<[f := delivered]> (futures s))
       (set_pending_requests (delete rid (pending_requests s)) s), None).
Proof.
  intros Hresp Hid [Hreg Hpend] to_update delivered.
  subst delivered to_update. unfold handle_parent_message, is_response in *.
  assert (Hdone : forall t, done f (set_pending_requests t s) = false).
  { intros t. unfold done. simpl. now rewrite Hpend. }
  destruct (py_eq_str (py_get "type" message) "update-response") eqn:Hu;
    cbv zeta; rewrite Hid, (pop_pending_registered _ _ _ _ Hreg).
  - cbn [andb]. destruct (truthy (py_get "ok" message)).
    + unfold set_result_unless_done. rewrite Hdone. reflexivity.
    + unfold set_exception_unless_done. rewrite Hdone. reflexivity.
  - simpl in Hresp. rewrite Hresp. cbn [andb].
    destruct (truthy (py_get "ok" message)).
    + unfold set_result_unless_done. rewrite Hdone. reflexivity.
    + unfold set_exception_unless_done. rewrite Hdone. reflexivity.
Qed.

(** The answer of scenario S4 completes the waiter of its update with the
    [run] it carries. *)
Lemma response_delivery_witness :
  registered "req-1" "update" 0 updating_S4
  /\ futures (fst (handle_parent_message response_S4 updating_S4)) !! 0
     = Some (FResult (obj [("parameters", obj [("x", PInt 2)]);
                           ("status", PStr "ok")])).
Proof.
  assert (Hreg : registered "req-1" "update" 0 updating_S4)
    by (split; reflexivity).
  split; [exact Hreg|].
  rewrite (response_delivery response_S4 updating_S4 "req-1" "update" 0
             eq_refl eq_refl Hreg).
  reflexivity.
Defined.

Lemma update_request_fresh rid updates s s1 :
  update_request rid updates s = inr s1 ->
  exists future,
    futures s !! future = None /\ registered rid "update" future s1.
Proof.
  unfold update_request.
  destruct (sanitize_for_ipc (PDict (normalize_updates updates)));
    [discriminate|].
  simpl. intros [= <-]. exists (fresh (dom (futures s))).
  split; [|split; simpl; apply lookup_insert_eq].
  apply not_elem_of_dom, is_fresh.
Qed.

(** X12. An update, end to end.  When an [update-response] with the id of
    the request and a truthy [ok] arrives, the call resumes with the [run]
    field of the response as its result.  If that is a dictionary it
    becomes the [run] of the context, and its [parameters] entry, when it
    has one, becomes the [parameters]; the [parameters] of the context are
    kept when the entry is missing.  A result that is not a dictionary
    (also a missing [run]) leaves the context as it was. *)
Theorem update_round_trip (self : JobContext.t) rid updates s s1 response :
  update_request rid updates s = inr s1 ->
  py_get "type" response = PStr "update-response" ->
  py_get "requestId" response = PStr rid ->
  truthy (py_get "ok" response) = true ->
  let s2 := fst (handle_parent_message response s1) in
  exists future,
    pending_requests s1 !! rid = Some ("update", future)
    /\ pending_requests s2 !! rid = None
    /\ futures s2 !! future = Some (FResult (py_get "run" response))
    /\ let self' := JobContext.update_resume self future s2 in
       JobContext.definition self' = JobContext.definition self
       /\ match py_get "run" response with
          | PDict result =>
              JobContext.run self' = PDict result
              /\ JobContext.parameters self'
                 = (if dict_has "parameters" result
                    then py_get "parameters" result
                    else JobContext.parameters self)
          | _ => self' = self
          end.
Proof.
  intros Hreq Htype Hid Hok s2.
  destruct (update_request_fresh _ _ _ _ Hreq) as (future & _ & Hreg & Hpend).
  exists future. split; [exact Hreg|].
  assert (Hd : handle_parent_message response s1
               = (set_futures
                    (<[future := FResult (py_get "run" response)]> (futures s1))
                    (set_pending_requests (delete rid (pending_requests s1)) s1),
                  None)).
  { unfold handle_parent_message. rewrite Htype. cbn [py_eq_str].
    rewrite String.eqb_refl. cbv zeta.
    rewrite Hid, (pop_pending_registered _ _ _ _ Hreg), Hok.
    rewrite String.eqb_refl. unfold set_result_unless_done, done. simpl.
    now rewrite Hpend. }
  subst s2. rewrite Hd. cbn [fst]. split; [apply lookup_delete_eq|].
  assert (Hf : futures
                 (set_futures
                    (<[future := FResult (py_get "run" response)]> (futures s1))
                    (set_pending_requests (delete rid (pending_requests s1)) s1))
               !! future = Some (FResult (py_get "run" response))).
  { simpl. apply lookup_insert_eq. }
  split; [exact Hf|].
  unfold JobContext.update_resume. rewrite Hf.
  destruct (py_get "run" response); simpl; auto.
Qed.

(** The update of scenario S4 and its answer: the context takes the run
    and the parameters of the answer. *)
Lemma update_round_trip_witness :
  let self :=
    {| JobContext.definition := PNone; JobContext.run := PNone;
       JobContext.parameters := obj [("x", PInt 1)];
       JobContext._task_id := PStr "task";
       JobContext.workflowEventContext := PNone;
       JobContext.workflow_event_context := PNone |} in
  let self' :=
    JobContext.update_resume self 0
      (fst (handle_parent_message response_S4 updating_S4)) in
  JobContext.parameters self' = obj [("x", PInt 2)].
Proof.
  intros self self'.
  destruct (update_round_trip self "req-1" update_S4 initial_state updating_S4
              response_S4 eq_refl eq_refl eq_refl eq_refl)
    as (future & Hreg & _ & _ & _ & _ & Hp).
  assert (future = 0) as -> by (vm_compute in Hreg; congruence).
  exact Hp.
Defined.

Lemma wait_for_start_skip skipped queue :
  forallb (fun m => negb (is_start m)) skipped = true ->
  wait_for_start (map PDict skipped ++ queue) = wait_for_start queue.
Proof.
  induction skipped as [|m skipped IH]; simpl; [reflexivity|].
  intros [Hm Hs]%andb_true_iff. unfold is_start in Hm.
  destruct (py_eq_str (py_get "_internal" m) "eof"); [now apply IH|].
  simpl in Hm. apply negb_true_iff in Hm. rewrite Hm. now apply IH.
Qed.

Lemma wait_for_start_at_start message rest :
  is_start message = true ->
  wait_for_start (PDict message :: rest) = Started message rest.
Proof.
  unfold is_start. simpl. intros [He Ht]%andb_true_iff.
  apply negb_true_iff in He. now rewrite He, Ht.
Qed.

Lemma wait_for_start_at_other v rest :
  (forall d, v <> PDict d) ->
  wait_for_start (v :: rest) = WaitRaises (AttributeError v) rest.
Proof. intros Hv. destruct v; try reflexivity. now destruct (Hv d). Qed.

(** The messages in front of the queue that [wait_for_start] drops, and
    what it then finds. *)
Lemma queue_split_at_start queue :
  exists skipped found,
    queue = map PDict skipped ++ found
    /\ forallb (fun m => negb (is_start m)) skipped = true
    /\ (found = []
        \/ (exists message rest,
              found = PDict message :: rest /\ is_start message = true)
        \/ (exists v rest, found = v :: rest /\ forall d, v <> PDict d)).
Proof.
  induction queue as [|v queue IH].
  { exists [], []. repeat split. now left. }
  assert (Hother : (forall d, v <> PDict d) ->
                   exists skipped found,
                     v :: queue = map PDict skipped ++ found
                     /\ forallb (fun m => negb (is_start m)) skipped = true
                     /\ (found = []
                         \/ (exists message rest,
                               found = PDict message :: rest
                               /\ is_start message = true)
                         \/ (exists v rest,
                               found = v :: rest /\ forall d, v <> PDict d))).
  { intros Hv. exists [], (v :: queue). repeat split. right. right.
    now exists v, queue. }
  destruct v as [| | | | | | | | message |]; try (apply Hother; discriminate).
  clear Hother. destruct (is_start message) eqn:Hs.
  - exists [], (PDict message :: queue). repeat split. right. left.
    now exists message, queue.
  - destruct IH as (skipped & found & -> & Hsk & Hfound).
    exists (message :: skipped), found. simpl. rewrite Hs, Hsk.
    repeat split. exact Hfound.
Qed.

(** X13. [wait_for_start] returns the first message of the queue that has
    type [start] and is not the end-of-input marker, and drops every
    message before it, whatever its type.  If a message that is not a
    dictionary comes before any start message, the call raises
    [AttributeError] at that message.  Otherwise it keeps waiting: the
    end-of-input marker does not end the wait. *)
Theorem wait_for_start_spec queue :
  (forall message rest,
     wait_for_start queue = Started message rest
     <-> exists skipped,
           queue = map PDict skipped ++ PDict message :: rest
           /\ is_start message = true
           /\ forallb (fun m => negb (is_start m)) skipped = true)
  /\ (forall e rest,
        wait_for_start queue = WaitRaises e rest
        <-> exists skipped v,
              queue = map PDict skipped ++ v :: rest
              /\ (forall d, v <> PDict d)
              /\ e = AttributeError v
              /\ forallb (fun m => negb (is_start m)) skipped = true)
  /\ (wait_for_start queue = WaitSuspended
      <-> exists skipped,
            queue = map PDict skipped
            /\ forallb (fun m => negb (is_start m)) skipped = true).
Proof.
  destruct (queue_split_at_start queue)
    as (skipped & found & -> & Hsk & Hfound).
  rewrite (wait_for_start_skip _ _ Hsk).
  split; [|split].
  - intros message rest. split.
    + destruct Hfound as [->|[(m & r & -> & Hm)|(v & r & -> & Hv)]].
      * discriminate.
      * rewrite (wait_for_start_at_start _ _ Hm). intros [= <- <-].
        now exists skipped.
      * now rewrite (wait_for_start_at_other _ _ Hv).
    + intros (sk & Heq & Hm & Hs). rewrite <- (wait_for_start_skip _ _ Hsk).
      rewrite Heq, (wait_for_start_skip _ _ Hs).
      now apply wait_for_start_at_start.
  - intros e rest. split.
    + destruct Hfound as [->|[(m & r & -> & Hm)|(v & r & -> & Hv)]].
      * discriminate.
      * now rewrite (wait_for_start_at_start _ _ Hm).
      * rewrite (wait_for_start_at_other _ _ Hv). intros [= <- <-].
        now exists skipped, v.
    + intros (sk & v & Heq & Hv & -> & Hs).
      rewrite <- (wait_for_start_skip _ _ Hsk).
      rewrite Heq, (wait_for_start_skip _ _ Hs).
      now apply wait_for_start_at_other.
  - split.
    + destruct Hfound as [->|[(m & r & -> & Hm)|(v & r & -> & Hv)]].
      * intros _. exists skipped. now rewrite app_nil_r.
      * now rewrite (wait_for_start_at_start _ _ Hm).
      * now rewrite (wait_for_start_at_other _ _ Hv).
    + intros (sk & Heq & Hs). rewrite <- (wait_for_start_skip _ _ Hsk).
      rewrite Heq. rewrite <- (app_nil_r (map PDict sk)).
      now rewrite (wait_for_start_skip _ _ Hs).
Qed.

Lemma handle_parent_message_raises message s :
  if handled message
  then snd (handle_parent_message message s) = None
  else handle_parent_message message s
       = (s, if table_empty s then None
             else Some (TypeError "unhashable type")).
Proof.
  unfold handled, is_response, handle_parent_message.
  destruct (py_eq_str (py_get "type" message) "update-response").
  { cbv zeta. cbn [negb orb]. unfold pop_pending.
    destruct (table_empty s);
      [now destruct (hashable (py_get "requestId" message))|].
    destruct (hashable (py_get "requestId" message)); cbn [negb];
      [|reflexivity].
    destruct (py_get "requestId" message); try reflexivity.
    destruct (pending_requests s !! s0) as [[kind future]|]; [|reflexivity].
    now destruct (truthy (py_get "ok" message)). }
  destruct (py_eq_str (py_get "type" message) "resolve-secret-response").
  { cbv zeta. cbn [negb orb]. unfold pop_pending.
    destruct (table_empty s);
      [now destruct (hashable (py_get "requestId" message))|].
    destruct (hashable (py_get "requestId" message)); cbn [negb];
      [|reflexivity].
    destruct (py_get "requestId" message); try reflexivity.
    destruct (pending_requests s !! s0) as [[kind future]|]; [|reflexivity].
    now destruct (truthy (py_get "ok" message)). }
  cbn [negb orb].
  destruct (py_eq_str (py_get "type" message) "cancel"); [|reflexivity].
  cbv zeta. now destruct (handler_task _).
Qed.

Lemma dispatch_messages_run handled_messages queue s :
  forallb (fun m => negb (is_shutdown m) && handled m) handled_messages = true ->
  dispatch_messages (map PDict handled_messages ++ queue) s
  = dispatch_messages queue
      (run_events (map EvParentMessage handled_messages) s).
Proof.
  revert s. induction handled_messages as [|m l IH]; intros s; simpl;
    [reflexivity|].
  intros [[Hsh Hh]%andb_true_iff Hl]%andb_true_iff.
  apply negb_true_iff in Hsh. unfold is_shutdown in Hsh. rewrite Hsh.
  pose proof (handle_parent_message_raises m s) as Hr. rewrite Hh in Hr.
  destruct (handle_parent_message m s) as [s' [e|]] eqn:E;
    [discriminate|].
  unfold run_events in *. cbn [map fold_left apply_event fst]. now apply IH.
Qed.

Lemma pop_pending_stdout request_id s o s' :
  pop_pending request_id s = inr (o, s') -> stdout s' = stdout s.
Proof.
  unfold pop_pending. destruct (table_empty s); [now intros [= _ <-]|].
  destruct (negb (hashable request_id)); [discriminate|].
  destruct request_id; try (now intros [= _ <-]).
  destruct (pending_requests s !! s0); now intros [= _ <-].
Qed.

Lemma handle_parent_message_stdout message s :
  stdout (fst (handle_parent_message message s)) = stdout s.
Proof.
  unfold handle_parent_message.
  destruct (py_eq_str (py_get "type" message) "update-response").
  { cbv zeta.
    destruct (pop_pending (py_get "requestId" message) s)
      as [e|[[[kind future]|] s']] eqn:E; [reflexivity| |];
      apply pop_pending_stdout in E; [|exact E].
    unfold set_result_unless_done, set_exception_unless_done.
    destruct (truthy (py_get "ok" message)), (done future s'); exact E. }
  destruct (py_eq_str (py_get "type" message) "resolve-secret-response").
  { cbv zeta.
    destruct (pop_pending (py_get "requestId" message) s)
      as [e|[[[kind future]|] s']] eqn:E; [reflexivity| |];
      apply pop_pending_stdout in E; [|exact E].
    unfold set_result_unless_done, set_exception_unless_done.
    destruct (truthy (py_get "ok" message)), (done future s'); exact E. }
  destruct (py_eq_str (py_get "type" message) "cancel"); [|reflexivity].
  cbv zeta. destruct (handler_task _); [|reflexivity].
  cbn [fst].
  now destruct (cancel_handler_task_spec
                  (set_cancel_reason (py_get "reason" message) s))
    as (_ & -> & _).
Qed.

Lemma run_parent_messages_stdout messages s :
  stdout (run_events (map EvParentMessage messages) s) = stdout s.
Proof.
  revert s. unfold run_events.
  induction messages as [|m l IH]; intros s; simpl; [reflexivity|].
  rewrite IH. apply handle_parent_message_stdout.
Qed.

(** X14. The dispatcher in normal operation: as long as the messages are
    dictionaries that [handle_parent_message] returns from, it handles
    them one after the other, in the order of arrival, and writes nothing.
    At the shutdown marker it returns and leaves the messages behind the
    marker unhandled; when the queue runs dry it waits. *)
Theorem dispatch_messages_until_shutdown handled_messages marker rest s :
  forallb (fun m => negb (is_shutdown m) && handled m) handled_messages = true ->
  is_shutdown marker = true ->
  let s' := run_events (map EvParentMessage handled_messages) s in
  dispatch_messages (map PDict handled_messages ++ PDict marker :: rest) s
  = Shutdown s' rest
  /\ dispatch_messages (map PDict handled_messages) s = DispatchSuspended s'
  /\ stdout s' = stdout s.
Proof.
  intros Hh Hm s'. subst s'. split; [|split].
  - rewrite (dispatch_messages_run _ _ _ Hh). simpl.
    unfold is_shutdown in Hm. now rewrite Hm.
  - rewrite <- (app_nil_r (map PDict handled_messages)).
    now rewrite (dispatch_messages_run _ _ _ Hh).
  - apply run_parent_messages_stdout.
Qed.

(** The answer of scenario S4, then the shutdown marker, then a
    cancellation that comes too late. *)
Lemma dispatch_messages_until_shutdown_witness :
  let late := obj [("type", PStr "cancel"); ("reason", PStr "late")] in
  dispatch_messages
    [PDict response_S4; obj [("_internal", PStr "shutdown")]; late]
    updating_S4
  = Shutdown (fst (handle_parent_message response_S4 updating_S4)) [late].
Proof.
  intros late.
  exact (proj1 (dispatch_messages_until_shutdown [response_S4]
                  [(KStr "_internal", PStr "shutdown")] [late] updating_S4
                  eq_refl eq_refl)).
Defined.

(** X15. The dispatcher ends at the first message it cannot handle: a
    message that is not a dictionary raises [AttributeError], and a
    response whose [requestId] cannot be hashed raises [TypeError] out of
    [handle_parent_message] when the table holds a request.  The state is
    the one the messages before it left, and no later message is handled, a
    cancellation included.  When the table is empty such a response is
    ignored like any unknown id, since [pop] on an empty dictionary does
    not hash the key, and the dispatcher goes on. *)
Theorem dispatch_messages_stops_at_error handled_messages bad rest s :
  forallb (fun m => negb (is_shutdown m) && handled m) handled_messages = true ->
  let s' := run_events (map EvParentMessage handled_messages) s in
  match bad with
  | PDict m => is_shutdown m = false /\ handled m = false
  | _ => True
  end ->
  dispatch_messages (map PDict handled_messages ++ bad :: rest) s
  = match bad with
    | PDict _ =>
        if table_empty s' then dispatch_messages rest s'
        else DispatchRaises (HandlerError (TypeError "unhashable type")) s'
               rest
    | _ => DispatchRaises (AttributeError bad) s' rest
    end.
Proof.
  intros Hh s' Hbad. subst s'. rewrite (dispatch_messages_run _ _ _ Hh).
  destruct bad as [| | | | | | | | m |]; try reflexivity.
  destruct Hbad as [Hsh Hn]. simpl. unfold is_shutdown in Hsh. rewrite Hsh.
  pose proof (handle_parent_message_raises m
                (run_events (map EvParentMessage handled_messages) s)) as Hr.
  rewrite Hn in Hr. rewrite Hr. now destruct (table_empty _).
Qed.

(** A response whose [requestId] is a list ends the dispatcher while an
    update is pending, and the cancellation behind it is not delivered;
    with an empty table it is ignored and the cancellation is handled. *)
Lemma dispatch_messages_stops_at_error_witness :
  let bad := obj [("type", PStr "update-response");
                  ("requestId", PList [PStr "req-1"])] in
  let cancel := obj [("type", PStr "cancel"); ("reason", PStr "stop")] in
  dispatch_messages [bad; cancel] updating_S4
  = DispatchRaises (HandlerError (TypeError "unhashable type")) updating_S4
      [cancel]
  /\ dispatch_messages [bad; cancel] initial_state
     = DispatchSuspended (set_cancel_reason (PStr "stop") initial_state).
Proof.
  intros bad cancel. split.
  - exact (dispatch_messages_stops_at_error []
             bad [cancel] updating_S4 eq_refl (conj eq_refl eq_refl)).
  - exact (dispatch_messages_stops_at_error []
             bad [cancel] initial_state eq_refl (conj eq_refl eq_refl)).
Defined.

(** X16. [JobContext.logger] writes exactly what the [log] closure writes
    at level [info]: the [setdefault] that only the closure has never
    takes effect, since the metadata always carries the task id by
    then. *)
Theorem logger_is_log_info (self : JobContext.t) message meta s :
  JobContext.logger self message meta s
  = log (JobContext._task_id self) "info" message meta s.
Proof.
  unfold JobContext.logger, log.
  destruct (normalize_meta (JobContext._task_id self) meta s)
    as [normalized s'] eqn:E.
  assert (Hhas : dict_has "sandboxTaskId"
                   match normalized with
                   | Some d => d
                   | None => [(KStr "sandboxTaskId", JobContext._task_id self)]
                   end = true).
  { unfold normalize_meta in E.
    destruct meta; try (injection E as <- <-; reflexivity);
      destruct (sanitize_for_ipc _) as [e|[]];
      injection E as <- <-; try reflexivity; apply dict_has_set. }
  unfold dict_setdefault. now rewrite Hhas.
Qed.

(** ** Handler lookup and the end of a run *)

(** X17. The handler lookup.  An export name that is not truthy, or that
    names no attribute of the module, is passed over without an error and
    the conventional names decide, as if no export name had been given.
    And whatever the lookup returns is callable. *)
Theorem resolve_handler_fallback export_name module :
  truthy export_name = false
  \/ (exists name, export_name = PStr name
                   /\ getattr name (mod_attrs module) = None) ->
  resolve_handler export_name module = resolve_handler PNone module
  /\ forall handler,
       resolve_handler export_name module = inr handler ->
       callable handler = true.
Proof.
  intros H. split.
  - unfold resolve_handler, find_handler.
    destruct H as [->|(name & -> & Hn)]; [reflexivity|].
    rewrite Hn. now destruct (truthy (PStr name)).
  - intros handler. unfold resolve_handler.
    destruct (find_handler export_name module) as [e|h]; [discriminate|].
    destruct (callable h) eqn:Hc; [|discriminate]. now intros [= <-].
Qed.

(** The module of the examples exports [main]; asked for [run], the lookup
    behaves as without an export name. *)
Lemma resolve_handler_fallback_witness :
  resolve_handler (PStr "run") module_with_data_main
  = resolve_handler PNone module_with_data_main.
Proof.
  apply (resolve_handler_fallback (PStr "run") module_with_data_main).
  right. exists "run". split; reflexivity.
Defined.


(** ** When serialisation fails *)

Lemma json_roundtrip_items_none d :
  fold_left
    (fun acc (kv : pykey * pyval) =>
       match acc, json_key (fst kv), json_roundtrip (snd kv) with
       | Some r, Some k, Some e => Some (dict_set k e r)
       | _, _, _ => None
       end) d None = None.
Proof. induction d as [|kv d IH]; simpl; [reflexivity | exact IH]. Qed.

Lemma json_roundtrip_encodable v :
  if encodable v then exists r, json_roundtrip v = Some r
  else json_roundtrip v = None.
Proof.
  induction v as [| |n|f| | |l IH|l IH|d IH|] using pyval_ind_nested;
    simpl; try (eexists; reflexivity); try reflexivity.
  - destruct (int_fits n); [eexists|]; reflexivity.
  - induction IH as [|x r Hx _ IHr]; simpl; [now exists (PList [])|].
    destruct (encodable x); simpl.
    + destruct Hx as [e ->]. destruct (forallb encodable r).
      * destruct IHr as [r' Hr]. destruct (fold_right _ _ r); [|discriminate].
        eexists; reflexivity.
      * destruct (fold_right _ _ r); [discriminate | reflexivity].
    + now rewrite Hx.
  - induction IH as [|x r Hx _ IHr]; simpl; [now exists (PList [])|].
    destruct (encodable x); simpl.
    + destruct Hx as [e ->]. destruct (forallb encodable r).
      * destruct IHr as [r' Hr]. destruct (fold_right _ _ r); [|discriminate].
        eexists; reflexivity.
      * destruct (fold_right _ _ r); [discriminate | reflexivity].
    + now rewrite Hx.
  - generalize (@nil (pykey * pyval)).
    induction IH as [|[k x] r Hx _ IHr]; intros acc; simpl;
      [now exists (PDict acc)|].
    simpl in Hx. destruct (json_key k) as [ks|]; simpl.
    + destruct (encodable x); simpl.
      * destruct Hx as [e ->]. apply IHr.
      * rewrite Hx. rewrite json_roundtrip_items_none.
        now destruct (forallb _ r).
    + rewrite json_roundtrip_items_none. reflexivity.
Qed.

Lemma sanitize_for_ipc_cases v :
  if encodable v then exists r, sanitize_for_ipc v = inr r
  else sanitize_for_ipc v = inl serialize_failure.
Proof.
  unfold sanitize_for_ipc. pose proof (json_roundtrip_encodable v) as H.
  destruct (encodable v); [|now rewrite H].
  destruct H as [r ->]. now exists r.
Qed.

(** X19. [sanitize_for_ipc] raises exactly on the values the encoder does
    not accept: those that hold [bytes] or another object somewhere, a
    dictionary key that is neither a string, a number, a truth value nor
    [None], or an [int] of more than 4300 digits, as a value or as a key.
    Non-finite floats and keys that are not strings do not make it
    raise. *)
Theorem sanitize_for_ipc_fails_iff v :
  (sanitize_for_ipc v = inl serialize_failure <-> encodable v = false)
  /\ ((exists r, sanitize_for_ipc v = inr r) <-> encodable v = true).
Proof.
  pose proof (sanitize_for_ipc_cases v) as H.
  destruct (encodable v).
  - destruct H as [r Hr]. rewrite Hr.
    split; split; try discriminate; trivial.
    intros _. now exists r.
  - rewrite H. split; split; try discriminate; trivial.
    intros [r Hr]. discriminate.
Qed.

Lemma json_value_encodable v :
  json_value v = true -> encodable v = ints_fit v.
Proof.
  intros H. pose proof (json_roundtrip_encodable v) as E.
  rewrite (json_roundtrip_domain v H) in E.
  destruct (encodable v), (ints_fit v); try reflexivity;
    [destruct E as [r E]|]; discriminate.
Qed.

Lemma normalize_updates_encodable updates :
  let converted key :=
    if dict_has key updates
    then is_unsupported (to_json_value (py_get key updates))
         || ints_fit (to_json_value (py_get key updates))
    else true in
  let copied key :=
    if dict_has key updates then encodable (py_get key updates) else true in
  encodable (PDict (normalize_updates updates))
  = converted "parameters" && copied "logsUrl" && converted "metrics"
    && converted "context" && copied "timeoutMs".
Proof.
  assert (Hc : forall x, is_unsupported (to_json_value x) = false ->
                         encodable (to_json_value x)
                         = ints_fit (to_json_value x)).
  { intros x Hx. now apply json_value_encodable, to_json_value_in_domain. }
  unfold normalize_updates. cbv zeta.
  pose proof (Hc (py_get "parameters" updates)) as Hp.
  pose proof (Hc (py_get "metrics" updates)) as Hm.
  pose proof (Hc (py_get "context" updates)) as Hx.
  set (p := to_json_value (py_get "parameters" updates)) in *.
  set (m := to_json_value (py_get "metrics" updates)) in *.
  set (c := to_json_value (py_get "context" updates)) in *.
  clearbody p m c.
  destruct (dict_has "parameters" updates), (is_unsupported p),
    (dict_has "logsUrl" updates), (dict_has "metrics" updates),
    (is_unsupported m), (dict_has "context" updates), (is_unsupported c),
    (dict_has "timeoutMs" updates);
    cbn -[py_get ints_fit];
    rewrite ?Hp, ?Hm, ?Hx by reflexivity;
    rewrite ?andb_true_r, ?andb_assoc; reflexivity.
Qed.

(** X20. An update is refused before anything is sent exactly when one of
    the entries that would be sent holds a value the encoder does not
    accept: a [logsUrl] or a [timeoutMs], which are copied as they are, or
    a [parameters], [metrics] or [context] whose converted value holds an
    [int] of more than 4300 digits, the one thing the conversion leaves in
    that the encoder refuses.  No other entry is looked at. *)
Theorem update_request_fails_iff rid updates s :
  let copied_refused key :=
    dict_has key updates = true
    /\ encodable (py_get key updates) = false in
  let converted_refused key :=
    dict_has key updates = true
    /\ is_unsupported (to_json_value (py_get key updates)) = false
    /\ ints_fit (to_json_value (py_get key updates)) = false in
  (exists e, update_request rid updates s = inl e)
  <-> copied_refused "logsUrl" \/ copied_refused "timeoutMs"
      \/ converted_refused "parameters" \/ converted_refused "metrics"
      \/ converted_refused "context".
Proof.
  intros copied_refused converted_refused.
  subst copied_refused converted_refused. cbv beta.
  unfold update_request. cbv zeta.
  pose proof (sanitize_for_ipc_cases (PDict (normalize_updates updates))) as H.
  rewrite normalize_updates_encodable in H. cbv zeta beta in H.
  set (p := to_json_value (py_get "parameters" updates)) in *.
  set (m := to_json_value (py_get "metrics" updates)) in *.
  set (c := to_json_value (py_get "context" updates)) in *.
  match type of H with
  | if ?b then _ else _ => destruct b eqn:Hok
  end.
  - destruct H as [r ->]. destruct (create_future s).
    split; [intros [e He]; discriminate|].
    repeat rewrite andb_true_iff in Hok.
    destruct Hok as ((((Hp & Hl) & Hm) & Hc) & Ht).
    intros [[H1 H2]|[[H1 H2]|[(H1 & H2 & H3)|[(H1 & H2 & H3)|(H1 & H2 & H3)]]]];
      rewrite H1 in *; rewrite ?H2, ?H3 in *; discriminate.
  - rewrite H. split; [|intros _; eexists; reflexivity]. intros _.
    destruct (dict_has "logsUrl" updates), (dict_has "timeoutMs" updates),
      (dict_has "parameters" updates), (dict_has "metrics" updates),
      (dict_has "context" updates),
      (encodable (py_get "logsUrl" updates)),
      (encodable (py_get "timeoutMs" updates)),
      (is_unsupported p), (is_unsupported m), (is_unsupported c),
      (ints_fit p), (ints_fit m), (ints_fit c);
      try discriminate; auto 10.
Qed.

(** An integer of 4301 digits in what the handler returns or in the
    [parameters] of an update: the encoder refuses it, so no [result] and
    no update request is written. *)
Lemma too_long_refused n :
  int_fits n = false ->
  result_payload (obj [("n", PInt n)]) = inl serialize_failure
  /\ forall rid s,
       update_request rid [(KStr "parameters", obj [("n", PInt n)])] s
       = inl serialize_failure.
Proof.
  intros Hn. split.
  - unfold result_payload, sanitize_for_ipc. cbn -[int_fits]. now rewrite Hn.
  - intros rid s. unfold update_request, sanitize_for_ipc.
    cbn -[int_fits]. now rewrite Hn.
Qed.

Lemma too_long_int_refused :
  result_payload (obj [("n", PInt too_long_int)]) = inl serialize_failure
  /\ forall rid s,
       update_request rid
         [(KStr "parameters", obj [("n", PInt too_long_int)])] s
       = inl serialize_failure.
Proof. exact (too_long_refused too_long_int too_long_int_fits). Qed.

(** X21. A secret request whose reference the encoder does not accept
    raises after the table has been written: nothing is sent, and the
    request stays in the table with a new pending future that nobody
    awaits. *)
Theorem resolve_secret_request_failure rid reference s :
  encodable reference = false ->
  let s' := fst (resolve_secret_request rid reference s) in
  snd (resolve_secret_request rid reference s) = Some serialize_failure
  /\ stdout s' = stdout s
  /\ exists future,
       futures s !! future = None
       /\ registered rid "resolve-secret" future s'.
Proof.
  intros He s'. subst s'. unfold resolve_secret_request, create_future.
  pose proof (sanitize_for_ipc_cases reference) as Hs. rewrite He in Hs.
  rewrite Hs. cbn [fst snd]. repeat split.
  exists (fresh (dom (futures s))). split; [apply not_elem_of_dom, is_fresh|].
  split; simpl; apply lookup_insert_eq.
Qed.

(** A reference that holds [bytes]. *)
Lemma resolve_secret_request_failure_witness :
  pending_requests
    (fst (resolve_secret_request "req-2" (obj [("key", PBytes "k")])
            initial_state)) !! "req-2"
  = Some ("resolve-secret", 0).
Proof.
  destruct (resolve_secret_request_failure "req-2" (obj [("key", PBytes "k")])
              initial_state eq_refl) as (_ & _ & future & _ & Hreg & _).
  assert (future = 0) as -> by (vm_compute in Hreg; congruence).
  exact Hreg.
Defined.

(** * Properties of the installation of dependencies *)

Lemma dep_bind_inr {W A B} (m : Dep W A) (f : A -> Dep W B) s t s1 x :
  m s = (t, (s1, inr x)) ->
  (m ≫= f) s = (t ++ fst (f x s1), snd (f x s1)).
Proof.
  intros H. unfold mbind, Dep_bind. rewrite H. now destruct (f x s1).
Qed.

Lemma dep_bind_inl {W A B} (m : Dep W A) (f : A -> Dep W B) s t s1 e :
  m s = (t, (s1, inl e)) -> (m ≫= f) s = (t, (s1, inl e)).
Proof. intros H. unfold mbind, Dep_bind. now rewrite H. Qed.

Lemma path_join_not_empty a b :
  a <> EmptyString -> path_join a b <> EmptyString.
Proof.
  intros Ha. unfold path_join.
  destruct (String.prefix sep b) eqn:Hp.
  { destruct b; [discriminate | discriminate]. }
  destruct a as [|c a]; [contradiction|].
  destruct (String.eqb _ _ || _); rewrite append_cons; discriminate.
Qed.

Lemma _venv_bin_dir_not_empty venv_dir : _venv_bin_dir venv_dir <> EmptyString.
Proof.
  unfold _venv_bin_dir, path_join. simpl.
  destruct venv_dir as [|c r]; [discriminate|].
  destruct (String.eqb _ _ || _); rewrite append_cons; discriminate.
Qed.

Lemma find_candidate_spec {W} (w : dep_world W) bin_dir names s :
  exists skipped,
    find_candidate w bin_dir names s
    = (map (fun name => EIsfile (path_join bin_dir name) false) skipped
       ++ match drop (length skipped) names with
          | name :: _ => [EIsfile (path_join bin_dir name) true]
          | [] => []
          end,
       (s, inr match drop (length skipped) names with
               | name :: _ => Some (path_join bin_dir name)
               | [] => None
               end))
    /\ skipped = take (length skipped) names
    /\ Forall (fun name => isfile w (path_join bin_dir name) (world s) = false)
         skipped
    /\ match drop (length skipped) names with
       | name :: _ => isfile w (path_join bin_dir name) (world s) = true
       | [] => True
       end.
Proof.
  induction names as [|name names IH].
  { exists []. repeat split. constructor. }
  cbn [find_candidate].
  destruct (isfile w (path_join bin_dir name) (world s)) eqn:E.
  - exists []. cbn [length drop map app take].
    split; [|repeat split; [constructor | exact E]].
    erewrite dep_bind_inr; [|unfold dep_ask; rewrite E; reflexivity].
    reflexivity.
  - destruct IH as (skipped & Hrun & Htake & Hfalse & Hfound).
    exists (name :: skipped). cbn [length drop map app take].
    split; [|repeat split; [now f_equal | now constructor | exact Hfound]].
    erewrite dep_bind_inr; [|unfold dep_ask; rewrite E; reflexivity].
    cbv beta iota. rewrite Hrun. reflexivity.
Qed.

(** X22. [_find_executable] returns the first of the candidate names, in
    the order given, that is a file in the [bin] directory of the virtual
    environment, and [None] when none is; it asks about no candidate after
    the one it returns and changes nothing.  What it returns is never the
    empty string, so the truth tests on it test for [None]. *)
Theorem find_executable_first {W} (w : dep_world W) venv_dir names s :
  let bin_dir := _venv_bin_dir venv_dir in
  let present name := isfile w (path_join bin_dir name) (world s) in
  dep_final (_find_executable w venv_dir names) s = s
  /\ match dep_outcome (_find_executable w venv_dir names) s with
     | inr (Some found) =>
         found_executable (Some found) = true
         /\ exists skipped name rest,
              names = skipped ++ name :: rest
              /\ found = path_join bin_dir name
              /\ present name = true
              /\ Forall (fun n => present n = false) skipped
              /\ dep_trace (_find_executable w venv_dir names) s
                 = map (fun n => EIsfile (path_join bin_dir n) false) skipped
                   ++ [EIsfile found true]
     | inr None =>
         Forall (fun n => present n = false) names
         /\ dep_trace (_find_executable w venv_dir names) s
            = map (fun n => EIsfile (path_join bin_dir n) false) names
     | inl _ => False
     end.
Proof.
  intros bin_dir present. unfold _find_executable, dep_final, dep_outcome,
    dep_trace. fold bin_dir.
  destruct (find_candidate_spec w bin_dir names s)
    as (skipped & -> & Htake & Hfalse & Hfound).
  cbn [fst snd]. split; [reflexivity|].
  pose proof (take_drop (length skipped) names) as Hsplit.
  rewrite <- Htake in Hsplit.
  destruct (drop (length skipped) names) as [|name rest].
  - rewrite app_nil_r in Hsplit. subst skipped. rewrite !app_nil_r.
    split; [exact Hfalse | reflexivity].
  - split.
    + simpl. apply negb_true_iff, String.eqb_neq, path_join_not_empty.
      apply _venv_bin_dir_not_empty.
    + exists skipped, name, rest. repeat split; auto.
Qed.

Lemma CHUNK_SIZE_positive : 0 < CHUNK_SIZE.
Proof. unfold CHUNK_SIZE. lia. Qed.

Lemma read_chunks_spec turns :
  forall handle fed,
    length handle < turns ->
    exists chunks,
      read_chunks turns handle fed = fed ++ chunks
      /\ concat chunks = handle
      /\ forall i chunk,
           chunks !! i = Some chunk ->
           chunk <> []
           /\ chunk = take CHUNK_SIZE (drop (i * CHUNK_SIZE) handle).
Proof.
  pose proof CHUNK_SIZE_positive as Hpos.
  induction turns as [|turns IH]; intros handle fed Hlen; [lia|].
  cbn [read_chunks]. cbv zeta.
  destruct (take CHUNK_SIZE handle) as [|b chunk] eqn:E.
  - exists []. rewrite app_nil_r. split; [reflexivity|].
    assert (handle = []) as ->.
    { destruct handle as [|b handle]; [reflexivity|].
      destruct CHUNK_SIZE; [lia | discriminate]. }
    split; [reflexivity|]. intros i chunk Hi. now rewrite lookup_nil in Hi.
  - assert (Hhandle : handle <> []) by (intros ->; now rewrite take_nil in E).
    destruct (IH (drop CHUNK_SIZE handle) (fed ++ [b :: chunk]))
      as (chunks & Hrun & Hcat & Hidx).
    { rewrite length_drop. destruct handle; [contradiction|].
      rewrite length_cons in *. lia. }
    exists ((b :: chunk) :: chunks). split; [|split].
    + rewrite Hrun, <- app_assoc. reflexivity.
    + cbn [concat]. rewrite Hcat, <- E. apply take_drop.
    + intros [|i] c Hc.
      * cbn in Hc. injection Hc as <-. split; [discriminate|].
        now rewrite drop_0.
      * cbn in Hc. destruct (Hidx i c Hc) as [Hne ->]. split; [exact Hne|].
        rewrite drop_drop. reflexivity.
Qed.

(** X23. [_compute_requirements_hash] feeds the digest the whole file and
    nothing else: the chunks it reads, put together in the order read, are
    the content of the file; each is the next 65536 bytes of it, the last
    one what is left, and none is empty.  If the file cannot be opened the
    exception goes through. *)
Theorem compute_requirements_hash_chunks {W} (w : dep_world W) path s :
  let m := _compute_requirements_hash w path in
  dep_final m s = s
  /\ dep_trace m s = [EOpenBinary path (open_binary w path (world s))]
  /\ match open_binary w path (world s) with
     | inl e => dep_outcome m s = inl e
     | inr content =>
         exists chunks,
           dep_outcome m s = inr (sha256_hexdigest w chunks)
           /\ concat chunks = content
           /\ forall i chunk,
                chunks !! i = Some chunk ->
                chunk <> []
                /\ chunk = take CHUNK_SIZE (drop (i * CHUNK_SIZE) content)
     end.
Proof.
  intros m. subst m.
  unfold _compute_requirements_hash, dep_final, dep_trace, dep_outcome.
  destruct (open_binary w path (world s)) as [e|content] eqn:E.
  - erewrite dep_bind_inl; [|unfold dep_try; rewrite E; reflexivity].
    repeat split.
  - erewrite dep_bind_inr; [|unfold dep_try; rewrite E; reflexivity].
    cbn [fst snd app]. repeat split.
    destruct (read_chunks_spec (S (length content)) content [])
      as (chunks & Hrun & Hcat & Hidx); [lia|].
    exists chunks. rewrite Hrun. split; [reflexivity|]. split; [exact Hcat|].
    exact Hidx.
Qed.

(** ** Running the installation step by step *)

Lemma dep_bind_run {W A B} (m : Dep W A) (f : A -> Dep W B) s :
  (m ≫= f) s
  = match m s with
    | (t, (s1, inl e)) => (t, (s1, inl e))
    | (t, (s1, inr x)) => (t ++ fst (f x s1), snd (f x s1))
    end.
Proof.
  unfold mbind, Dep_bind. destruct (m s) as [t [s1 [e|x]]]; [reflexivity|].
  now destruct (f x s1).
Qed.

Lemma dep_ret_run {W A} (x : A) (s : dep_state W) :
  (mret x : Dep W A) s = ([], (s, inr x)).
Proof. reflexivity. Qed.

Lemma dep_ask_bind {W A B} (ask : W -> A) ev (f : A -> Dep W B) s :
  (dep_ask ask ev ≫= f) s
  = (ev (ask (world s)) :: fst (f (ask (world s)) s),
     snd (f (ask (world s)) s)).
Proof. now rewrite dep_bind_run. Qed.

Lemma dep_try_bind {W A B} (ask : W -> string + A) ev (f : A -> Dep W B) s :
  (dep_try ask ev ≫= f) s
  = match ask (world s) with
    | inl e => ([ev (inl e)], (s, inl e))
    | inr x => (ev (inr x) :: fst (f x s), snd (f x s))
    end.
Proof.
  rewrite dep_bind_run. unfold dep_try. now destruct (ask (world s)).
Qed.

Lemma dep_do_bind {W B} (act : W -> W * option string) ev
    (f : unit -> Dep W B) s :
  (dep_do act ev ≫= f) s
  = match act (world s) with
    | (x, Some e) => ([ev (Some e)], (set_world x s, inl e))
    | (x, None) =>
        (ev None :: fst (f tt (set_world x s)), snd (f tt (set_world x s)))
    end.
Proof.
  rewrite dep_bind_run. unfold dep_do.
  now destruct (act (world s)) as [x [e|]].
Qed.

Lemma run_bind {W B} (w : dep_world W) args (f : completed -> Dep W B) s :
  (run w args ≫= f) s
  = match subprocess_run w args (world s) with
    | (x, inl e) => ([ERun args (inl e)], (set_world x s, inl e))
    | (x, inr result) =>
        (ERun args (inr result) :: fst (f result (set_world x s)),
         snd (f result (set_world x s)))
    end.
Proof.
  rewrite dep_bind_run. unfold run.
  now destruct (subprocess_run w args (world s)) as [x [e|result]].
Qed.

(** *** Which calls a part makes *)

Lemma dep_quiet_ret {W A} P (x : A) : dep_quiet P (mret x : Dep W A).
Proof. now intros s. Qed.

Lemma dep_quiet_raise {W A} P e : dep_quiet P (dep_raise e : Dep W A).
Proof. now intros s. Qed.

Lemma dep_quiet_bind {W A B} P (m : Dep W A) (f : A -> Dep W B) :
  dep_quiet P m -> (forall x, dep_quiet P (f x)) -> dep_quiet P (m ≫= f).
Proof.
  intros Hm Hf s. unfold dep_trace. rewrite dep_bind_run.
  specialize (Hm s). unfold dep_trace in Hm.
  destruct (m s) as [t [s1 [e|x]]]; [exact Hm|].
  cbn [fst] in *. rewrite existsb_app, Hm. exact (Hf x s1).
Qed.

Lemma dep_quiet_ask {W A} P (ask : W -> A) ev :
  (forall a, P (ev a) = false) -> dep_quiet P (dep_ask ask ev).
Proof. intros H s. unfold dep_trace, dep_ask. simpl. now rewrite H. Qed.

Lemma dep_quiet_try {W A} P (ask : W -> string + A) ev :
  (forall a, P (ev a) = false) -> dep_quiet P (dep_try ask ev).
Proof. intros H s. unfold dep_trace, dep_try. simpl. now rewrite H. Qed.

Lemma dep_quiet_do {W} P (act : W -> W * option string) ev :
  (forall a, P (ev a) = false) -> dep_quiet P (dep_do act ev).
Proof.
  intros H s. unfold dep_trace, dep_do.
  destruct (act (world s)). simpl. now rewrite H.
Qed.

Lemma dep_quiet_run {W} P (w : dep_world W) args :
  (forall a, P (ERun args a) = false) -> dep_quiet P (run w args).
Proof.
  intros H s. unfold dep_trace, run.
  destruct (subprocess_run w args (world s)). simpl. now rewrite H.
Qed.

Lemma find_candidate_quiet {W} P (w : dep_world W) bin_dir names :
  (forall path answer, P (EIsfile path answer) = false) ->
  dep_quiet P (find_candidate w bin_dir names).
Proof.
  intros H. induction names as [|name names IH]; cbn [find_candidate].
  - apply dep_quiet_ret.
  - apply dep_quiet_bind; [now apply dep_quiet_ask|].
    intros [|]; [apply dep_quiet_ret | exact IH].
Qed.

Ltac solve_dep_quiet :=
  repeat first
    [ apply dep_quiet_ret | apply dep_quiet_raise
    | apply dep_quiet_ask; intros; reflexivity
    | apply dep_quiet_try; intros; reflexivity
    | apply dep_quiet_do; intros; reflexivity
    | apply dep_quiet_run; intros; reflexivity
    | apply find_candidate_quiet; intros; reflexivity
    | apply dep_quiet_bind; [|intros ?]
    | match goal with
      | |- dep_quiet _ (if ?b then _ else _) => destruct b
      | |- dep_quiet _ (match ?x with _ => _ end) => destruct x
      end ].

Lemma locked_section_no_lock {W} (w : dep_world W) venv_dir requirements_path :
  dep_quiet is_lock_event (locked_section w venv_dir requirements_path).
Proof.
  unfold locked_section, install_requirements, _discover_site_packages,
    _compute_requirements_hash, _run_subprocess, _find_executable.
  solve_dep_quiet.
Qed.

Lemma requirement_lines_none {W} (w : dep_world W) lines :
  Forall (fun line => strip w line = EmptyString
                      \/ String.prefix "#" (strip w line) = true) lines ->
  requirement_lines w lines = [].
Proof.
  unfold requirement_lines. induction 1 as [|line lines Hline _ IH];
    [reflexivity|].
  cbn [List.filter].
  destruct Hline as [->| ->]; [|rewrite andb_false_r]; exact IH.
Qed.

(** X24. A bundle without dependencies costs nothing: when
    [requirements.txt] is not a file, or each of its lines is blank or a
    comment once stripped, [ensure_python_dependencies] returns without
    creating a directory, taking the lock or running a command, and the
    search path and the environment stay as they are. *)
Theorem no_requirements_no_action {W} (w : dep_world W) bundle_dir s :
  let requirements_path := path_join bundle_dir "requirements.txt" in
  let m := ensure_python_dependencies w bundle_dir in
  isfile w requirements_path (world s) = false
  \/ (exists lines,
        read_lines w requirements_path (world s) = inr lines
        /\ Forall (fun line => strip w line = EmptyString
                               \/ String.prefix "#" (strip w line) = true)
             lines) ->
  dep_outcome m s = inr tt
  /\ dep_final m s = s
  /\ (dep_trace m s = [EIsfile requirements_path false]
      \/ exists lines,
           dep_trace m s = [EIsfile requirements_path true;
                            EReadLines requirements_path (inr lines)]).
Proof.
  intros requirements_path m H. subst m.
  unfold dep_outcome, dep_final, dep_trace, ensure_python_dependencies.
  fold requirements_path. rewrite dep_ask_bind.
  destruct (isfile w requirements_path (world s)) eqn:E; cbn [negb];
    [|repeat split; now left].
  destruct H as [H|(lines & Hread & Hlines)]; [discriminate|].
  rewrite dep_try_bind, Hread, (requirement_lines_none w lines Hlines).
  repeat split. right. now exists lines.
Qed.

(** A bundle whose [requirements.txt] holds a comment only. *)
Lemma no_requirements_no_action_witness :
  let m :=
    ensure_python_dependencies
      (quiet_world [("/b/requirements.txt", "# none")] EmptyString) "/b" in
  dep_outcome m fresh_process = inr tt /\ dep_final m fresh_process = fresh_process.
Proof.
  intros m.
  destruct (no_requirements_no_action
              (quiet_world [("/b/requirements.txt", "# none")] EmptyString)
              "/b" fresh_process) as (Hout & Hfinal & _).
  { right. exists ["# none"]. split; [reflexivity|].
    constructor; [now right | constructor]. }
  split; assumption.
Defined.

Lemma try_finally_run {W A} (body : Dep W A) (final : Dep W unit) s :
  try_finally body final s
  = match body s with
    | (t1, (s1, r1)) =>
        match final s1 with
        | (t2, (s2, r2)) =>
            (t1 ++ t2, (s2, match r2 with inl e => inl e | inr _ => r1 end))
        end
    end.
Proof.
  unfold try_finally. destruct (body s) as [t1 [s1 r1]].
  now destruct (final s1) as [t2 [s2 r2]].
Qed.

(** The run of [ensure_python_dependencies], call by call, up to what the
    section under the lock does. *)
Lemma ensure_python_dependencies_run {W} (w : dep_world W) bundle_dir s :
  let req := path_join bundle_dir "requirements.txt" in
  let venv := path_join bundle_dir ".venv" in
  let lock := path_join venv ".install.lock" in
  ensure_python_dependencies w bundle_dir s
  = if negb (isfile w req (world s)) then ([EIsfile req false], (s, inr tt))
    else
      match read_lines w req (world s) with
      | inl e => ([EIsfile req true; EReadLines req (inl e)], (s, inl e))
      | inr lines =>
          let before := [EIsfile req true; EReadLines req (inr lines)] in
          match requirement_lines w lines with
          | [] => (before, (s, inr tt))
          | _ :: _ =>
              match makedirs w venv (world s) with
              | (x1, Some e) =>
                  (before ++ [EMakedirs venv (Some e)],
                   (set_world x1 s, inl e))
              | (x1, None) =>
                  match open_lock w lock x1 with
                  | (x2, Some e) =>
                      (before ++ [EMakedirs venv None; EOpenLock lock (Some e)],
                       (set_world x2 s, inl e))
                  | (x2, None) =>
                      match flock w LOCK_EX x2 with
                      | (x3, Some e) =>
                          (before ++ [EMakedirs venv None; EOpenLock lock None;
                                      EFlock LOCK_EX (Some e); ECloseLock],
                           (set_world (close_lock w x3) s, inl e))
                      | (x3, None) =>
                          match locked_section w venv req (set_world x3 s) with
                          | (body, (s4, r)) =>
                              match flock w LOCK_UN (world s4) with
                              | (x5, err) =>
                                  let s6 := set_world (close_lock w x5) s4 in
                                  let t :=
                                    before
                                    ++ [EMakedirs venv None;
                                        EOpenLock lock None;
                                        EFlock LOCK_EX None]
                                    ++ body
                                    ++ [EFlock LOCK_UN err; ECloseLock] in
                                  match err, r with
                                  | Some e, _ => (t, (s6, inl e))
                                  | None, inl e => (t, (s6, inl e))
                                  | None, inr site_packages =>
                                      (t, snd (activate venv site_packages s6))
                                  end
                              end
                          end
                      end
                  end
              end
          end
      end.
Proof.
  intros req venv lock. unfold ensure_python_dependencies.
  fold req. fold venv. fold lock. rewrite dep_ask_bind.
  destruct (isfile w req (world s)); cbn [negb]; [|reflexivity].
  rewrite dep_try_bind.
  destruct (read_lines w req (world s)) as [e|lines]; [reflexivity|].
  cbv zeta.
  destruct (requirement_lines w lines) as [|r0 rs]; [reflexivity|].
  cbn [fst snd]. rewrite dep_do_bind.
  destruct (makedirs w venv (world s)) as [x1 [e|]]; [reflexivity|].
  cbn [fst snd]. rewrite dep_do_bind. cbn [world set_world].
  destruct (open_lock w lock x1) as [x2 [e|]]; [reflexivity|].
  cbn [fst snd]. rewrite dep_bind_run, try_finally_run, dep_do_bind.
  cbn [world set_world].
  destruct (flock w LOCK_EX x2) as [x3 [e|]];
    [cbn [fst snd app world set_world]; reflexivity|].
  cbn [fst snd]. rewrite try_finally_run.
  change (set_world x3 (set_world x2 (set_world x1 s))) with (set_world x3 s).
  destruct (locked_section w venv req (set_world x3 s)) as [body [s4 r]].
  unfold dep_do. destruct (flock w LOCK_UN (world s4)) as [x5 [e|]].
  - cbn [fst snd app world set_world]. rewrite <- !app_assoc. reflexivity.
  - destruct r as [e|site_packages]; cbn [fst snd app world set_world];
      rewrite <- ?app_assoc; reflexivity.
Qed.

(** X25. The install lock.  Whatever the calls answer, the calls of
    [ensure_python_dependencies] begin with file tests, the reading of the
    requirements and [makedirs], made without the lock.  Then either
    nothing follows, or opening the lock file fails, or taking the lock
    fails and the file is closed, or the lock is taken and, after every
    other call, released and the file closed: the release is attempted on
    every path through the locked section, also when it raises.  No
    command is run and no file written outside the locked section. *)
Theorem lock_discipline {W} (w : dep_world W) bundle_dir s :
  let lock_path := path_join (path_join bundle_dir ".venv") ".install.lock" in
  exists before locked,
    dep_trace (ensure_python_dependencies w bundle_dir) s = before ++ locked
    /\ existsb (fun ev => is_lock_event ev || is_run_event ev
                          || is_write_event ev) before = false
    /\ (locked = []
        \/ (exists e, locked = [EOpenLock lock_path (Some e)])
        \/ (exists e, locked = [EOpenLock lock_path None;
                                EFlock LOCK_EX (Some e); ECloseLock])
        \/ (exists body err,
              locked = [EOpenLock lock_path None; EFlock LOCK_EX None]
                       ++ body ++ [EFlock LOCK_UN err; ECloseLock]
              /\ existsb is_lock_event body = false)).
Proof.
  intros lock_path. unfold dep_trace.
  rewrite ensure_python_dependencies_run. cbv zeta. fold lock_path.
  set (req := path_join bundle_dir "requirements.txt").
  set (venv := path_join bundle_dir ".venv").
  destruct (isfile w req (world s)); cbn [negb];
    [|exists [EIsfile req false], []; rewrite app_nil_r; auto].
  destruct (read_lines w req (world s)) as [e|lines];
    [exists [EIsfile req true; EReadLines req (inl e)], [];
     rewrite app_nil_r; auto|].
  destruct (requirement_lines w lines) as [|r0 rs];
    [exists [EIsfile req true; EReadLines req (inr lines)], [];
     rewrite app_nil_r; auto|].
  destruct (makedirs w venv (world s)) as [x1 [e|]].
  { eexists _, []. rewrite app_nil_r. cbn [fst]. split; [reflexivity|].
    split; [reflexivity | now left]. }
  exists [EIsfile req true; EReadLines req (inr lines); EMakedirs venv None].
  destruct (open_lock w lock_path x1) as [x2 [e|]].
  { exists [EOpenLock lock_path (Some e)]. cbn [fst]. repeat split.
    right. left. now exists e. }
  destruct (flock w LOCK_EX x2) as [x3 [e|]].
  { eexists. cbn [fst]. split; [reflexivity|]. split; [reflexivity|].
    right. right. left. now exists e. }
  pose proof (locked_section_no_lock w venv req (set_world x3 s)) as Hq.
  unfold dep_trace in Hq.
  destruct (locked_section w venv req (set_world x3 s)) as [body [s4 r]].
  destruct (flock w LOCK_UN (world s4)) as [x5 err]. cbv zeta.
  exists ([EOpenLock lock_path None; EFlock LOCK_EX None]
          ++ body ++ [EFlock LOCK_UN err; ECloseLock]).
  split; [now destruct err, r|]. split; [reflexivity|].
  right. right. right. exists body, err. now split.
Qed.

(** *** The marker *)

Lemma run_subprocess_run {W} (w : dep_world W) args error_message s :
  _run_subprocess w args error_message s
  = match subprocess_run w args (world s) with
    | (x, inl e) => ([ERun args (inl e)], (set_world x s, inl e))
    | (x, inr result) =>
        ([ERun args (inr result)],
         (set_world x s,
          if negb (returncode result =? 0)%Z then
            inl (error_message +:+ ": "
                 +:+ or_default
                       (join_nonempty "; " [strip w (proc_stdout result);
                                            strip w (proc_stderr result)])
                       "no output")
          else inr tt))
    end.
Proof.
  unfold _run_subprocess. rewrite run_bind.
  destruct (subprocess_run w args (world s)) as [x [e|result]]; [reflexivity|].
  now destruct (negb (returncode result =? 0)%Z).
Qed.

Lemma find_executable_no_write {W} (w : dep_world W) venv_dir names :
  dep_quiet is_write_event (_find_executable w venv_dir names).
Proof. unfold _find_executable. solve_dep_quiet. Qed.

Lemma install_requirements_writes {W} (w : dep_world W)
    venv_dir python requirements_path marker_path requirements_hash s :
  let t := dep_trace (install_requirements w venv_dir python requirements_path
                        marker_path requirements_hash) s in
  existsb is_write_event t = false
  \/ exists pre pip_args r1 r2 err,
       t = pre ++ [ERun (pip_args ++ upgrade_pip_args) (inr r1);
                   ERun (pip_args ++ install_requirements_args
                                       requirements_path) (inr r2);
                   EWriteText marker_path requirements_hash err]
       /\ returncode r1 = 0%Z /\ returncode r2 = 0%Z
       /\ existsb is_write_event pre = false.
Proof.
  intros t. subst t. unfold dep_trace, install_requirements.
  rewrite dep_bind_run.
  pose proof (find_executable_no_write w venv_dir ["pip"; "pip3"] s) as Hq.
  unfold dep_trace in Hq.
  destruct (_find_executable w venv_dir ["pip"; "pip3"] s)
    as [finds [s1 [e|pip_executable]]]; cbn [fst] in *; [now left|].
  set (pip_args := match pip_executable with
                   | Some pip => if found_executable pip_executable then [pip]
                                 else [python; "-m"; "pip"]
                   | None => [python; "-m"; "pip"]
                   end).
  fold upgrade_pip_args. fold (install_requirements_args requirements_path).
  rewrite dep_bind_run, run_subprocess_run.
  destruct (subprocess_run w (pip_args ++ upgrade_pip_args) (world s1))
    as [x1 [e|r1]].
  { left. cbn [fst]. rewrite existsb_app, Hq. reflexivity. }
  destruct (returncode r1 =? 0)%Z eqn:E1; cbn [negb];
    [|left; cbn [fst]; rewrite existsb_app, Hq; reflexivity].
  rewrite dep_bind_run, run_subprocess_run. cbn [world set_world].
  destruct (subprocess_run w (pip_args ++ install_requirements_args
                                            requirements_path) x1)
    as [x2 [e|r2]].
  { left. cbn [fst]. rewrite !existsb_app, Hq. reflexivity. }
  destruct (returncode r2 =? 0)%Z eqn:E2; cbn [negb];
    [|left; cbn [fst]; rewrite !existsb_app, Hq; reflexivity].
  right. unfold dep_do. cbn [world set_world].
  destruct (write_text w marker_path requirements_hash x2) as [x3 err].
  exists finds, pip_args, r1, r2, err. cbn [fst snd app].
  repeat split; auto; now apply Z.eqb_eq.
Qed.

Lemma compute_requirements_hash_run {W} (w : dep_world W) path s :
  _compute_requirements_hash w path s
  = ([EOpenBinary path (open_binary w path (world s))],
     (s, match open_binary w path (world s) with
         | inl e => inl e
         | inr content =>
             inr (sha256_hexdigest w
                    (read_chunks (S (length content)) content []))
         end)).
Proof.
  unfold _compute_requirements_hash. rewrite dep_try_bind.
  now destruct (open_binary w path (world s)).
Qed.

Ltac same_events :=
  rewrite ?app_nil_r; rewrite <- ?app_assoc; cbn [app];
  rewrite <- ?app_assoc; cbn [app]; reflexivity.

Ltac no_such_events :=
  repeat first [rewrite existsb_app | progress cbn [existsb orb fst snd]];
  repeat match goal with
         | H : existsb _ _ = false |- _ => rewrite H
         end;
  reflexivity.

Lemma discover_site_packages_no_write {W} (w : dep_world W) python :
  dep_quiet is_write_event (_discover_site_packages w python).
Proof. unfold _discover_site_packages. solve_dep_quiet. Qed.

Lemma locked_section_writes {W} (w : dep_world W) venv_dir requirements_path s :
  let marker_path := path_join venv_dir ".requirements.hash" in
  let t := dep_trace (locked_section w venv_dir requirements_path) s in
  existsb is_write_event t = false
  \/ exists pre pip_args r1 r2 content err post,
       t = pre
           ++ [ERun (pip_args ++ upgrade_pip_args) (inr r1);
               ERun (pip_args ++ install_requirements_args requirements_path)
                 (inr r2);
               EWriteText marker_path
                 (sha256_hexdigest w
                    (read_chunks (S (length content)) content []))
                 err]
           ++ post
       /\ returncode r1 = 0%Z /\ returncode r2 = 0%Z
       /\ In (EOpenBinary requirements_path (inr content)) pre
       /\ existsb is_write_event pre = false
       /\ existsb is_write_event post = false.
Proof.
  intros marker_path t. subst t. unfold dep_trace, locked_section.
  fold marker_path.
  (* the interpreter of the environment *)
  rewrite dep_bind_run.
  pose proof (find_executable_no_write w venv_dir ["python"; "python3"] s)
    as Hq1. unfold dep_trace in Hq1.
  destruct (_find_executable w venv_dir ["python"; "python3"] s)
    as [t1 [s1 [e|p]]]; cbn [fst] in *; [now left|].
  rewrite dep_bind_run.
  match goal with
  | |- context [match ?m s1 with _ => _ end] => set (resolve := m)
  end.
  assert (Hq2 : existsb is_write_event (fst (resolve s1)) = false).
  { assert (Hq : dep_quiet is_write_event resolve).
    { unfold resolve, _run_subprocess, _find_executable. solve_dep_quiet. }
    exact (Hq s1). }
  destruct (resolve s1) as [t2 [s2 [e|p']]]; cbn [fst snd] in *.
  { left. now rewrite existsb_app, Hq1, Hq2. }
  destruct p' as [python|];
    [|left; cbn [fst]; now rewrite !existsb_app, Hq1, Hq2].
  destruct (negb (found_executable (Some python)));
    [left; cbn [fst]; now rewrite !existsb_app, Hq1, Hq2|].
  (* the hash and the marker *)
  rewrite dep_bind_run, compute_requirements_hash_run.
  destruct (open_binary w requirements_path (world s2)) as [e|content].
  { left. cbn [fst]. now rewrite !existsb_app, Hq1, Hq2. }
  cbn [fst snd app].
  set (requirements_hash :=
         sha256_hexdigest w (read_chunks (S (length content)) content [])).
  rewrite dep_ask_bind. rewrite dep_bind_run.
  match goal with
  | |- context [match ?m s2 with _ => _ end] => set (read_marker := m)
  end.
  assert (Hq4 : existsb is_write_event (fst (read_marker s2)) = false).
  { assert (Hq : dep_quiet is_write_event (read_marker : Dep W _)).
    { unfold read_marker. solve_dep_quiet. }
    exact (Hq s2). }
  destruct (read_marker s2) as [t4 [s4 [e|marker_hash]]]; cbn [fst snd] in *.
  { left. rewrite !existsb_app, Hq1, Hq2. exact Hq4. }
  rewrite dep_bind_run.
  set (pre := t1 ++ t2 ++ EOpenBinary requirements_path (inr content)
                          :: EIsfile marker_path
                               (isfile w marker_path (world s2)) :: t4).
  assert (Hpre : existsb is_write_event pre = false).
  { unfold pre. rewrite !existsb_app, Hq1, Hq2. cbn. exact Hq4. }
  assert (Hin : In (EOpenBinary requirements_path (inr content)) pre).
  { unfold pre. apply in_or_app. right. apply in_or_app. right. now left. }
  destruct (marker_differs marker_hash requirements_hash).
  - pose proof (install_requirements_writes w venv_dir python requirements_path
                  marker_path requirements_hash s4) as Hi.
    cbv zeta in Hi. unfold dep_trace in Hi.
    destruct (install_requirements w venv_dir python requirements_path
                marker_path requirements_hash s4) as [ti [s5 [e|[]]]];
      cbn [fst snd] in *.
    + destruct Hi as [Hi|(pre' & pip_args & r1 & r2 & err & -> & H1 & H2 & Hp)].
      * left. no_such_events.
      * right. exists (pre ++ pre'), pip_args, r1, r2, content, err, [].
        split; [|repeat split; auto].
        -- unfold pre. same_events.
        -- apply in_or_app. now left.
        -- now rewrite existsb_app, Hpre, Hp.
    + pose proof (discover_site_packages_no_write w python s5) as Hq6.
      unfold dep_trace in Hq6.
      destruct (_discover_site_packages w python s5) as [t6 r6];
        cbn [fst snd] in *.
      destruct Hi as [Hi|(pre' & pip_args & r1 & r2 & err & -> & H1 & H2 & Hp)].
      * left. no_such_events.
      * right. exists (pre ++ pre'), pip_args, r1, r2, content, err, t6.
        split; [|repeat split; auto].
        -- unfold pre. same_events.
        -- apply in_or_app. now left.
        -- now rewrite existsb_app, Hpre, Hp.
  - left. unfold mret at 1, Dep_ret at 1. cbn [fst snd app].
    pose proof (discover_site_packages_no_write w python s4) as Hq6.
    unfold dep_trace in Hq6.
    destruct (_discover_site_packages w python s4) as [t6 r6];
      cbn [fst snd] in *.
    no_such_events.
Qed.

(** X26. The marker file records a finished installation.  In every run
    of [ensure_python_dependencies] at most one file is written, the
    marker [.venv/.requirements.hash], and only as the call that follows
    the two [pip] commands, upgrade and install, both run with the same
    [pip] and both ended with return code 0.  What is written is the
    digest of the requirements file as read under the lock in this run.
    So a failed or interrupted installation leaves the marker as it
    was. *)
Theorem marker_written_after_install {W} (w : dep_world W) bundle_dir s :
  let requirements_path := path_join bundle_dir "requirements.txt" in
  let marker_path :=
    path_join (path_join bundle_dir ".venv") ".requirements.hash" in
  let t := dep_trace (ensure_python_dependencies w bundle_dir) s in
  existsb is_write_event t = false
  \/ exists pre pip_args r1 r2 content err post,
       t = pre
           ++ [ERun (pip_args ++ upgrade_pip_args) (inr r1);
               ERun (pip_args ++ install_requirements_args requirements_path)
                 (inr r2);
               EWriteText marker_path
                 (sha256_hexdigest w
                    (read_chunks (S (length content)) content []))
                 err]
           ++ post
       /\ returncode r1 = 0%Z /\ returncode r2 = 0%Z
       /\ In (EFlock LOCK_EX None) pre
       /\ In (EOpenBinary requirements_path (inr content)) pre
       /\ existsb is_write_event pre = false
       /\ existsb is_write_event post = false.
Proof.
  intros req marker t. subst t. unfold dep_trace.
  rewrite ensure_python_dependencies_run. cbv zeta. fold req.
  set (venv := path_join bundle_dir ".venv") in *.
  set (lock := path_join venv ".install.lock").
  destruct (isfile w req (world s)); cbn [negb]; [|now left].
  destruct (read_lines w req (world s)) as [e|lines]; [now left|].
  destruct (requirement_lines w lines) as [|r0 rs]; [now left|].
  destruct (makedirs w venv (world s)) as [x1 [e|]]; [now left|].
  destruct (open_lock w lock x1) as [x2 [e|]]; [now left|].
  destruct (flock w LOCK_EX x2) as [x3 [e|]]; [now left|].
  pose proof (locked_section_writes w venv req (set_world x3 s)) as Hw.
  cbv zeta in Hw. unfold dep_trace in Hw. fold marker in Hw.
  destruct (locked_section w venv req (set_world x3 s)) as [body [s4 r]].
  destruct (flock w LOCK_UN (world s4)) as [x5 err5]. cbn [fst] in Hw.
  set (before := [EIsfile req true; EReadLines req (inr lines);
                  EMakedirs venv None; EOpenLock lock None;
                  EFlock LOCK_EX None]).
  cbv zeta.
  destruct Hw as [Hw|(pre & pip_args & r1 & r2 & content & err & post
                      & -> & H1 & H2 & Hin & Hpre & Hpost)].
  - left. destruct err5, r; cbn [fst]; no_such_events.
  - right. exists (before ++ pre), pip_args, r1, r2, content, err,
      (post ++ [EFlock LOCK_UN err5; ECloseLock]).
    split; [unfold before; destruct err5, r; cbn [fst]; same_events|].
    split; [exact H1|]. split; [exact H2|].
    split; [apply in_or_app; left; unfold before; cbn; auto 10|].
    split; [apply in_or_app; now right|].
    split; [unfold before|]; no_such_events.
Qed.

(** *** The search path and the environment *)

Lemma keeps_process_ret {W A} (x : A) : keeps_process (mret x : Dep W A).
Proof. now intros s. Qed.

Lemma keeps_process_raise {W A} e : keeps_process (dep_raise e : Dep W A).
Proof. now intros s. Qed.

Lemma keeps_process_bind {W A B} (m : Dep W A) (f : A -> Dep W B) :
  keeps_process m -> (forall x, keeps_process (f x)) -> keeps_process (m ≫= f).
Proof.
  intros Hm Hf s. unfold dep_final. rewrite dep_bind_run.
  specialize (Hm s). unfold dep_final in Hm.
  destruct (m s) as [t [s1 [e|x]]]; [exact Hm|]. cbn [fst snd] in *.
  destruct (Hf x s1) as [H1 H2]. unfold dep_final in H1, H2.
  destruct Hm as [Hm1 Hm2]. split; congruence.
Qed.

Lemma keeps_process_ask {W A} (ask : W -> A) ev :
  keeps_process (dep_ask ask ev).
Proof. now intros s. Qed.

Lemma keeps_process_try {W A} (ask : W -> string + A) ev :
  keeps_process (dep_try ask ev).
Proof. now intros s. Qed.

Lemma keeps_process_do {W} (act : W -> W * option string) ev :
  keeps_process (dep_do act ev).
Proof.
  intros s. unfold dep_final, dep_do. now destruct (act (world s)).
Qed.

Lemma keeps_process_run {W} (w : dep_world W) args :
  keeps_process (run w args).
Proof.
  intros s. unfold dep_final, run.
  now destruct (subprocess_run w args (world s)).
Qed.

Lemma find_candidate_keeps {W} (w : dep_world W) bin_dir names :
  keeps_process (find_candidate w bin_dir names).
Proof.
  induction names as [|name names IH]; cbn [find_candidate].
  - apply keeps_process_ret.
  - apply keeps_process_bind; [apply keeps_process_ask|].
    intros [|]; [apply keeps_process_ret | exact IH].
Qed.

Ltac solve_keeps_process :=
  repeat first
    [ apply keeps_process_ret | apply keeps_process_raise
    | apply keeps_process_ask | apply keeps_process_try
    | apply keeps_process_do | apply keeps_process_run
    | apply find_candidate_keeps
    | apply keeps_process_bind; [|intros ?]
    | match goal with
      | |- keeps_process (if ?b then _ else _) => destruct b
      | |- keeps_process (match ?x with _ => _ end) => destruct x
      end ].

Lemma locked_section_keeps {W} (w : dep_world W) venv_dir requirements_path :
  keeps_process (locked_section w venv_dir requirements_path).
Proof.
  unfold locked_section, install_requirements, _discover_site_packages,
    _compute_requirements_hash, _run_subprocess, _find_executable.
  solve_keeps_process.
Qed.

Lemma dep_bind_returns {W A B} (m : Dep W A) (f : A -> Dep W B) s y :
  dep_outcome (m ≫= f) s = inr y ->
  exists x,
    dep_outcome m s = inr x
    /\ dep_outcome (f x) (dep_final m s) = inr y
    /\ dep_trace (m ≫= f) s = dep_trace m s ++ dep_trace (f x) (dep_final m s).
Proof.
  unfold dep_outcome, dep_trace, dep_final. rewrite dep_bind_run.
  destruct (m s) as [t [s1 [e|x]]]; cbn [fst snd]; [discriminate|].
  intros H. now exists x.
Qed.

Lemma discover_site_packages_returns {W} (w : dep_world W) python s found :
  dep_outcome (_discover_site_packages w python) s = inr found ->
  exists result,
    dep_trace (_discover_site_packages w python) s
    = [ERun [python; "-c"; site_packages_code] (inr result)]
    /\ returncode result = 0%Z
    /\ found = strip w (proc_stdout result).
Proof.
  unfold dep_outcome, dep_trace, _discover_site_packages. rewrite run_bind.
  destruct (subprocess_run w _ (world s)) as [x [e|result]];
    cbn [fst snd]; [discriminate|].
  destruct (returncode result =? 0)%Z eqn:E; cbn [negb fst snd];
    [|discriminate].
  intros [= <-]. exists result. repeat split. now apply Z.eqb_eq.
Qed.

Lemma locked_section_returns {W} (w : dep_world W) venv_dir requirements_path
    s found :
  dep_outcome (locked_section w venv_dir requirements_path) s = inr found ->
  exists pre python result,
    dep_trace (locked_section w venv_dir requirements_path) s
    = pre ++ [ERun [python; "-c"; site_packages_code] (inr result)]
    /\ returncode result = 0%Z
    /\ found = strip w (proc_stdout result).
Proof.
  unfold locked_section. intros H.
  apply dep_bind_returns in H as (p & _ & H & ->).
  apply dep_bind_returns in H as (p' & _ & H & ->).
  destruct p' as [python|]; [|discriminate].
  destruct (negb (found_executable (Some python))); [discriminate|].
  apply dep_bind_returns in H as (requirements_hash & _ & H & ->).
  apply dep_bind_returns in H as (has_marker & _ & H & ->).
  apply dep_bind_returns in H as (marker_hash & _ & H & ->).
  apply dep_bind_returns in H as (u & _ & H & ->).
  apply discover_site_packages_returns in H as (result & -> & Hrc & ->).
  eexists _, python, result. split; [|now split].
  rewrite !app_assoc. reflexivity.
Qed.

(** X27. What the installation does to the process.  If
    [ensure_python_dependencies] raises, [sys.path] and the environment
    are as before.  If it returns, either there was nothing to install and
    nothing changed, or the last command run was the query for the
    site-packages directory, it ended with return code 0, and the lock was
    released without error; then [VIRTUAL_ENV] is the [.venv] directory
    of the bundle, [PATH] has its [bin] directory put in front (and is
    that directory alone when [PATH] was unset or empty), and the
    directory the query printed is put in front of [sys.path] unless it is
    empty or already listed. *)
Theorem activation_after_success {W} (w : dep_world W) bundle_dir s :
  let venv := path_join bundle_dir ".venv" in
  let bin_dir := _venv_bin_dir venv in
  let m := ensure_python_dependencies w bundle_dir in
  let s' := dep_final m s in
  match dep_outcome m s with
  | inl _ => sys_path s' = sys_path s /\ environ s' = environ s
  | inr _ =>
      (existsb is_lock_event (dep_trace m s) = false /\ s' = s)
      \/ exists pre python result,
           dep_trace m s
           = pre ++ [ERun [python; "-c"; site_packages_code] (inr result);
                     EFlock LOCK_UN None; ECloseLock]
           /\ returncode result = 0%Z
           /\ (let site_packages := strip w (proc_stdout result) in
               sys_path s'
               = if negb (String.eqb site_packages EmptyString)
                    && negb (bool_decide (site_packages ∈ sys_path s))
                 then site_packages :: sys_path s
                 else sys_path s)
           /\ environ s'
              = <["PATH" := match environ s !! "PATH" with
                            | Some current =>
                                if String.eqb current EmptyString then bin_dir
                                else bin_dir +:+ ":" +:+ current
                            | None => bin_dir
                            end]>
                  (<["VIRTUAL_ENV" := venv]> (environ s))
  end.
Proof.
  intros venv bin_dir m s'. subst m s'.
  unfold dep_outcome, dep_final, dep_trace.
  rewrite ensure_python_dependencies_run. cbv zeta. fold venv.
  set (req := path_join bundle_dir "requirements.txt").
  set (lock := path_join venv ".install.lock").
  destruct (isfile w req (world s)); cbn [negb fst snd];
    [|left; now split].
  destruct (read_lines w req (world s)) as [e|lines]; cbn [fst snd];
    [now split|].
  destruct (requirement_lines w lines) as [|r0 rs]; cbn [fst snd];
    [left; now split|].
  destruct (makedirs w venv (world s)) as [x1 [e|]]; cbn [fst snd];
    [now split|].
  destruct (open_lock w lock x1) as [x2 [e|]]; cbn [fst snd]; [now split|].
  destruct (flock w LOCK_EX x2) as [x3 [e|]]; cbn [fst snd]; [now split|].
  destruct (locked_section_keeps w venv req (set_world x3 s)) as [Hp He].
  pose proof (locked_section_returns w venv req (set_world x3 s)) as Hr.
  unfold dep_final, dep_outcome, dep_trace in *.
  destruct (locked_section w venv req (set_world x3 s)) as [body [s4 r]].
  cbn [fst snd] in *.
  destruct (flock w LOCK_UN (world s4)) as [x5 [e5|]]; cbn [fst snd];
    [now split|].
  destruct r as [e|found]; cbn [fst snd]; [now split|].
  right. destruct (Hr found eq_refl) as (pre & python & result & -> & Hrc & ->).
  exists ([EIsfile req true; EReadLines req (inr lines); EMakedirs venv None;
           EOpenLock lock None; EFlock LOCK_EX None] ++ pre), python, result.
  split; [same_events|]. split; [exact Hrc|].
  unfold activate. cbn [fst snd sys_path environ set_world]. rewrite Hp, He.
  cbn [sys_path environ set_world]. split; [reflexivity|].
  rewrite lookup_insert_ne by discriminate. fold bin_dir.
  destruct (environ s !! "PATH") as [current|]; cbn [default from_option id];
    [now destruct (String.eqb current EmptyString) | reflexivity].
Qed.

(** X28. An installation that is up to date is not repeated.  With an
    interpreter in the virtual environment and a marker file that holds,
    white space aside, the digest of the requirements file, the section
    under the lock makes five calls: it finds the interpreter, reads the
    requirements file for the digest, finds and reads the marker, and asks
    the interpreter for its site-packages directory.  No [pip] command is
    run and the marker is not rewritten. *)
Theorem up_to_date_marker_skips_pip {W} (w : dep_world W)
    venv_dir requirements_path s content text :
  let python := path_join (_venv_bin_dir venv_dir) "python" in
  let marker_path := path_join venv_dir ".requirements.hash" in
  let requirements_hash :=
    sha256_hexdigest w (read_chunks (S (length content)) content []) in
  isfile w python (world s) = true ->
  open_binary w requirements_path (world s) = inr content ->
  isfile w marker_path (world s) = true ->
  read_text w marker_path (world s) = inr text ->
  strip w text = requirements_hash ->
  requirements_hash <> EmptyString ->
  dep_trace (locked_section w venv_dir requirements_path) s
  = [EIsfile python true;
     EOpenBinary requirements_path (inr content);
     EIsfile marker_path true;
     EReadText marker_path (inr text);
     ERun [python; "-c"; site_packages_code]
       (snd (subprocess_run w [python; "-c"; site_packages_code] (world s)))].
Proof.
  intros python marker_path requirements_hash Hpy Hopen Hmarker Hread Hstrip
    Hne.
  assert (Hfound : found_executable (Some python) = true).
  { simpl. apply negb_true_iff, String.eqb_neq, path_join_not_empty.
    apply _venv_bin_dir_not_empty. }
  assert (Hfind : _find_executable w venv_dir ["python"; "python3"] s
                  = ([EIsfile python true], (s, inr (Some python)))).
  { unfold _find_executable. cbn [find_candidate]. fold python.
    rewrite dep_ask_bind, Hpy. reflexivity. }
  unfold dep_trace, locked_section.
  rewrite dep_bind_run, Hfind, Hfound. cbn [negb fst snd].
  rewrite dep_bind_run, dep_ret_run. cbn [fst snd].
  rewrite Hfound. cbn [negb].
  rewrite dep_bind_run, compute_requirements_hash_run, Hopen.
  fold requirements_hash. fold marker_path. cbn [fst snd].
  rewrite dep_ask_bind, Hmarker. cbn [fst snd].
  rewrite dep_bind_run, dep_try_bind, Hread. cbn [fst snd].
  rewrite dep_ret_run. cbn [fst snd].
  rewrite Hstrip.
  destruct (String.eqb_spec requirements_hash EmptyString) as [|_];
    [contradiction|].
  unfold marker_differs. rewrite String.eqb_refl. cbn [negb].
  rewrite dep_bind_run, dep_ret_run. cbn [fst snd app].
  unfold _discover_site_packages. rewrite run_bind.
  destruct (subprocess_run w [python; "-c"; site_packages_code] (world s))
    as [x [e|result]]; [reflexivity|].
  cbn [fst snd]. now destruct (negb (returncode result =? 0)%Z).
Qed.

(** The bundle of the examples: the five calls and nothing else. *)
Lemma up_to_date_marker_skips_pip_witness :
  length (dep_trace
            (locked_section (quiet_world installed_bundle "/b/.venv/lib")
               "/b/.venv" "/b/requirements.txt")
            fresh_process) = 5.
Proof.
  rewrite (up_to_date_marker_skips_pip
             (quiet_world installed_bundle "/b/.venv/lib")
             "/b/.venv" "/b/requirements.txt" fresh_process
             (map Ascii.byte_of_ascii
                (String.list_ascii_of_string "requests"))
             "sha256:requests");
    [reflexivity | reflexivity | reflexivity | reflexivity | reflexivity
    | vm_compute; reflexivity | vm_compute; discriminate].
Defined.
